(** * RbxmxAI: the asset-tree XML codec of [src/utils/xmlBuilder.ts]

    A shallow embedding of [buildRbxmx] (the encoder) and [parseRbxmx] (the
    decoder), together with a model of the part of the browser the decoder
    relies on ([DOMParser], [querySelector], [textContent]), and the
    properties of the specification stated over them.

    JavaScript strings are lists of code units; the development restricts
    them to code units below 256 ([ascii]).  The two ambient generators
    ([Math.random], [crypto.randomUUID]) are explicit streams indexed by the
    number of calls made so far.

    The handlers of the application that use the codec ([src/App.tsx]) are
    embedded as functions of the state of the component. *)

From Stdlib Require Import List Ascii Bool Arith NArith ZArith Lia.
Import ListNotations.

Set Implicit Arguments.
Set Warnings "-register-all".

(** ** Strings *)

Definition str := list ascii.

Inductive str_lit := SNil | SCons (a : ascii) (s : str_lit).

Fixpoint lit_of_bytes (l : list Byte.byte) : str_lit :=
  match l with
  | [] => SNil
  | b :: r => SCons (ascii_of_byte b) (lit_of_bytes r)
  end.

Fixpoint bytes_of_lit (l : str_lit) : list Byte.byte :=
  match l with
  | SNil => []
  | SCons a r => byte_of_ascii a :: bytes_of_lit r
  end.

Declare Scope str_scope.
Delimit Scope str_scope with str.
#[warnings="-via-type-remapping,-via-type-mismatch"]
String Notation str lit_of_bytes bytes_of_lit
  (via str_lit mapping [[nil] => SNil, [cons] => SCons]) : str_scope.
Open Scope str_scope.

(** The double quote and the line feed, which string literals cannot hold. *)
Definition dq : str := ["034"%char].
Definition nl : str := ["010"%char].

Definition code (c : ascii) : nat := nat_of_ascii c.

Fixpoint str_eqb (a b : str) : bool :=
  match a, b with
  | [], [] => true
  | x :: a', y :: b' => Ascii.eqb x y && str_eqb a' b'
  | _, _ => false
  end.

Infix "=?" := str_eqb (at level 70) : str_scope.

(** [startsWith p s]: [p] is a prefix of [s]. *)
Fixpoint startsWith (p s : str) : bool :=
  match p, s with
  | [], _ => true
  | x :: p', y :: s' => Ascii.eqb x y && startsWith p' s'
  | _ :: _, [] => false
  end.

(** [String.prototype.includes]. *)
Fixpoint includes (s pat : str) : bool :=
  startsWith pat s ||
  match s with
  | [] => false
  | _ :: s' => includes s' pat
  end.

(** [String.prototype.repeat]. *)
Definition repeatStr (s : str) (n : nat) : str := concat (repeat s n).

(** ** JavaScript values held by the property bag ([Record<string, any>]) *)

(** A number, by what [Number::toString] prints it from.  For a finite
    number other than zero ECMAScript takes the integers [n], [k] and [s]
    such that [s] has [k] digits, the number is [s * 10^(n - k)] in absolute
    value, and [k] is as small as can be; [NumFinite negative s n] is the
    number with this [s], this [n] and that sign ([15] and [0] for [0.15],
    [4] and [1] for [4], [1] and [22] for [1e21]).  The type has more values
    than there are doubles, and every double is one of them. *)
Inductive JsNumber :=
| NumFinite (negative : bool) (s : positive) (n : Z)
| NumZero
| NumNaN
| NumInfinity
| NumNegInfinity.

Inductive JsValue :=
| VString (s : str)
| VNumber (n : JsNumber)
| VBoolean (b : bool)
| VNull
| VUndefined
| VObject (entries : list (str * JsValue)).

Inductive JsType := TyString | TyNumber | TyBoolean | TyObject | TyUndefined.

Definition typeof (v : JsValue) : JsType :=
  match v with
  | VString _ => TyString
  | VNumber _ => TyNumber
  | VBoolean _ => TyBoolean
  | VNull => TyObject
  | VUndefined => TyUndefined
  | VObject _ => TyObject
  end.

Fixpoint uintDigits (u : Decimal.uint) : str :=
  match u with
  | Decimal.Nil => []
  | Decimal.D0 r => "0"%char :: uintDigits r
  | Decimal.D1 r => "1"%char :: uintDigits r
  | Decimal.D2 r => "2"%char :: uintDigits r
  | Decimal.D3 r => "3"%char :: uintDigits r
  | Decimal.D4 r => "4"%char :: uintDigits r
  | Decimal.D5 r => "5"%char :: uintDigits r
  | Decimal.D6 r => "6"%char :: uintDigits r
  | Decimal.D7 r => "7"%char :: uintDigits r
  | Decimal.D8 r => "8"%char :: uintDigits r
  | Decimal.D9 r => "9"%char :: uintDigits r
  end.

Definition decimalN (n : N) : str := uintDigits (N.to_uint n).

Definition zeros (count : Z) : str := repeat "0"%char (Z.to_nat count).

(** [Number::toString] in radix 10 for a finite number above zero, from the
    digits of [s] and from [n]: plain digits for [n] from [-5] to [21], the
    exponent form beyond. *)
Definition finiteToString (s : positive) (n : Z) : str :=
  let digits := decimalN (Npos s) in
  let k := Z.of_nat (length digits) in
  if ((k <=? n) && (n <=? 21))%Z then digits ++ zeros (n - k)
  else if ((0 <? n) && (n <=? 21))%Z then
    firstn (Z.to_nat n) digits ++ "." ++ skipn (Z.to_nat n) digits
  else if ((-6 <? n) && (n <=? 0))%Z then "0." ++ zeros (- n) ++ digits
  else
    let exponent := (if (n - 1 <? 0)%Z then "-" else "+") ++ decimalN (Z.abs_N (n - 1)) in
    if (k =? 1)%Z then digits ++ "e" ++ exponent
    else firstn 1 digits ++ "." ++ skipn 1 digits ++ "e" ++ exponent.

(** The text a template literal gives a number. *)
Definition numberToString (n : JsNumber) : str :=
  match n with
  | NumFinite negative s n => (if negative then "-" else "") ++ finiteToString s n
  | NumZero => "0"
  | NumNaN => "NaN"
  | NumInfinity => "Infinity"
  | NumNegInfinity => "-Infinity"
  end.

Definition booleanToString (b : bool) : str := if b then "true" else "false".

(** ** The data model ([src/types.ts]) *)

Inductive RobloxAsset := mkAsset {
  id : str;
  name : str;
  className : str;
  source : option str;
  children : list RobloxAsset;
  (** the entries of the bag, in the order [Object.entries] lists them *)
  properties : option (list (str * JsValue))
}.

(** ** The encoder: [buildRbxmx] *)

(** The [k]-th call of [Math.random] is seen through the integer
    [Math.floor(Math.random() * 100000000)] it leads to: some value below
    [10^8], taken here from an arbitrary stream and reduced to that range. *)
Definition RandomSource := nat -> N.

Definition randomReferentNumber (random : RandomSource) (k : nat) : N :=
  (random k mod 100000000)%N.

Definition escapeChar (c : ascii) : str :=
  if Ascii.eqb c "<" then "&lt;"
  else if Ascii.eqb c ">" then "&gt;"
  else if Ascii.eqb c "&" then "&amp;"
  else if Ascii.eqb c "034" then "&quot;"
  else if Ascii.eqb c "'" then "&apos;"
  else [c].

(** [unsafe] is [None] for a missing ([undefined]) argument. *)
Definition escapeXml (unsafe : option str) : str :=
  match unsafe with
  | None => ""
  | Some [] => ""
  | Some s => flat_map escapeChar s
  end.

(** [className.includes('Script') || className === 'ModuleScript'] *)
Definition scriptLike (className : str) : bool :=
  includes className "Script" || (className =? "ModuleScript").

(** [item.source && (...)]: the source is there, is not the empty string,
    and the class is script-like. *)
Definition emitsSource (item : RobloxAsset) : bool :=
  match source item with
  | None => false
  | Some [] => false
  | Some (_ :: _) => scriptLike (className item)
  end.

Definition sourceText (item : RobloxAsset) : str :=
  match source item with
  | Some s => s
  | None => ""
  end.

(** One pass of the [forEach] callback over [Object.entries(item.properties)];
    the three branches that write are those of [typeof value] being
    ['string'], ['number'] and ['boolean']. *)
Definition appendProperty (indent : str) (xml : str) (entry : str * JsValue) : str :=
  let '(name, value) := entry in
  match value with
  | VString s =>
      xml ++ (indent ++ "    <string name=" ++ dq ++ name ++ dq ++ ">"
                ++ escapeXml (Some s) ++ "</string>" ++ nl)
  | VNumber n =>
      xml ++ (indent ++ "    <float name=" ++ dq ++ name ++ dq ++ ">"
                ++ numberToString n ++ "</float>" ++ nl)
  | VBoolean b =>
      xml ++ (indent ++ "    <bool name=" ++ dq ++ name ++ dq ++ ">"
                ++ booleanToString b ++ "</bool>" ++ nl)
  | VNull | VUndefined | VObject _ => xml
  end.

(** [generateItem item depth]; [calls] counts the calls of [Math.random] made
    before this one and the result carries the count after it.  The loop over
    the children does nothing on an empty list, as the guard
    [item.children.length > 0] has it. *)
Fixpoint generateItem (random : RandomSource) (item : RobloxAsset) (depth : nat)
    (calls : nat) : str * nat :=
  let indent := repeatStr "  " (depth + 1) in
  let referent := "RBX" ++ decimalN (randomReferentNumber random calls) in
  let calls := S calls in
  let xml := indent ++ "<Item class=" ++ dq ++ className item ++ dq
               ++ " referent=" ++ dq ++ referent ++ dq ++ ">" ++ nl in
  let xml := xml ++ (indent ++ "  <Properties>" ++ nl) in
  let xml := xml ++ (indent ++ "    <string name=" ++ dq ++ "Name" ++ dq ++ ">"
                       ++ escapeXml (Some (name item)) ++ "</string>" ++ nl) in
  let xml :=
    if emitsSource item
    then xml ++ (indent ++ "    <ProtectedString name=" ++ dq ++ "Source" ++ dq
                   ++ "><![CDATA[" ++ sourceText item ++ "]]></ProtectedString>" ++ nl)
    else xml in
  let xml :=
    match properties item with
    | Some entries => fold_left (appendProperty indent) entries xml
    | None => xml
    end in
  let xml := xml ++ (indent ++ "  </Properties>" ++ nl) in
  let '(xml, calls) :=
    (fix forEach (items : list RobloxAsset) (xml : str) (calls : nat) : str * nat :=
       match items with
       | [] => (xml, calls)
       | child :: rest =>
           let '(text, calls') := generateItem random child (depth + 1) calls in
           forEach rest (xml ++ text) calls'
       end) (children item) xml calls in
  (xml ++ (indent ++ "</Item>" ++ nl), calls).

Definition buildRbxmx (random : RandomSource) (asset : RobloxAsset) : str :=
  let fullXml := "<?xml version=" ++ dq ++ "1.0" ++ dq ++ " encoding=" ++ dq ++ "UTF-8" ++ dq ++ "?>" ++ nl in
  let fullXml := fullXml ++
    ("<roblox xmlns:xmime=" ++ dq ++ "http://www.w3.org/2005/05/xmlmime" ++ dq
       ++ " xmlns:xsi=" ++ dq ++ "http://www.w3.org/2001/XMLSchema-instance" ++ dq
       ++ " xsi:noNamespaceSchemaLocation=" ++ dq ++ "http://www.roblox.com/roblox.xsd" ++ dq
       ++ " version=" ++ dq ++ "4" ++ dq ++ ">" ++ nl) in
  let fullXml := fullXml ++ ("  <External>null</External>" ++ nl) in
  let fullXml := fullXml ++ ("  <External>nil</External>" ++ nl) in
  let fullXml := fullXml ++ fst (generateItem random asset 0 0) in
  fullXml ++ "</roblox>".

(** ** The document object model

    What [DOMParser.parseFromString(text, "text/xml")] returns, as far as the
    decoder looks at it: elements with their qualified name, attributes and
    child nodes, and the two kinds of character data. *)

Inductive Node :=
| Element (tagName : str) (attributes : list (str * str)) (childNodes : list Node)
| Text (data : str)
| CDATASection (data : str).

(** [Node.textContent] *)
Fixpoint textContent (n : Node) : str :=
  match n with
  | Element _ _ kids => flat_map textContent kids
  | Text d => d
  | CDATASection d => d
  end.

(** [Element.getAttribute]: the value, or [null]. *)
Fixpoint getAttribute (attrs : list (str * str)) (key : str) : option str :=
  match attrs with
  | [] => None
  | (k, v) :: rest => if k =? key then Some v else getAttribute rest key
  end.

Fixpoint afterColon (s : str) : option str :=
  match s with
  | [] => None
  | c :: r => if Ascii.eqb c ":" then Some r else afterColon r
  end.

(** The local part of a qualified name, which a type selector compares. *)
Definition localName (qname : str) : str :=
  match afterColon qname with
  | Some l => l
  | None => qname
  end.

(** The two shapes of selector the decoder uses. *)
Inductive Selector :=
| SelType (type : str)
    (** [type] *)
| SelChildAttr (parent type attr value : str).
    (** [parent > type[attr="value"]] *)

Definition matchesSelector (sel : Selector) (parentTag : option str)
    (tag : str) (attrs : list (str * str)) : bool :=
  match sel with
  | SelType t => localName tag =? t
  | SelChildAttr p t a v =>
      (localName tag =? t)
      && match getAttribute attrs a with
         | Some v' => v' =? v
         | None => false
         end
      && match parentTag with
         | Some ptag => localName ptag =? p
         | None => false
         end
  end.

(** The first element, in document order, among [n] and its descendants that
    matches [sel]; [parentTag] is the tag of the parent element of [n]. *)
Fixpoint queryNode (sel : Selector) (parentTag : option str) (n : Node) : option Node :=
  match n with
  | Element tag attrs kids =>
      if matchesSelector sel parentTag tag attrs then Some n
      else
        (fix first (ns : list Node) : option Node :=
           match ns with
           | [] => None
           | k :: rest =>
               match queryNode sel (Some tag) k with
               | Some m => Some m
               | None => first rest
               end
           end) kids
  | Text _ => None
  | CDATASection _ => None
  end.

Fixpoint queryNodes (sel : Selector) (parentTag : option str) (ns : list Node) : option Node :=
  match ns with
  | [] => None
  | k :: rest =>
      match queryNode sel parentTag k with
      | Some m => Some m
      | None => queryNodes sel parentTag rest
      end
  end.

(** [Element.querySelector]: the first matching descendant of [element]. *)
Definition querySelector (element : Node) (sel : Selector) : option Node :=
  match element with
  | Element tag _ kids => queryNodes sel (Some tag) kids
  | _ => None
  end.

(** [Document.querySelector], on the document whose root element is [root]. *)
Definition documentQuerySelector (root : Node) (sel : Selector) : option Node :=
  queryNode sel None root.

(** ** The XML parser behind [DOMParser]

    A parser for the part of XML 1.0 the codec writes: an optional XML
    declaration, elements with attributes, character data with the five
    predefined entities, and CDATA sections.  Line ends are normalised and
    attribute values have their white space normalised, as XML prescribes.
    It stands for the parser of the browser on the text of [buildRbxmx] and
    on the sample documents of this development.  On other texts it is not
    that parser: comments, processing instructions, document type
    declarations and character references are not covered (a document that
    holds one is reported as not well-formed), and neither the binding of
    namespace prefixes nor the content of the XML declaration is checked.
    What is proved of the decoder on every text does not rest on it: it
    holds of every document, by induction on the document, or is stated for
    whatever parser the browser has ([parseRbxmxWith]). *)

Definition isXmlChar (c : ascii) : bool :=
  (code c =? 9)%nat || (code c =? 10)%nat || (code c =? 13)%nat || (32 <=? code c)%nat.

Definition isSpace (c : ascii) : bool :=
  (code c =? 32)%nat || (code c =? 9)%nat || (code c =? 10)%nat || (code c =? 13)%nat.

Definition isNameStart (c : ascii) : bool :=
  Ascii.eqb c ":" || Ascii.eqb c "_"
  || ((65 <=? code c)%nat && (code c <=? 90)%nat)
  || ((97 <=? code c)%nat && (code c <=? 122)%nat)
  || ((192 <=? code c)%nat && negb (code c =? 215)%nat && negb (code c =? 247)%nat).

Definition isNameChar (c : ascii) : bool :=
  isNameStart c || Ascii.eqb c "-" || Ascii.eqb c "."
  || ((48 <=? code c)%nat && (code c <=? 57)%nat)
  || (code c =? 183)%nat.

(** The longest prefix of [s] whose characters satisfy [p], and the rest. *)
Fixpoint span (p : ascii -> bool) (s : str) : str * str :=
  match s with
  | [] => ([], [])
  | c :: r => if p c then let (a, b) := span p r in (c :: a, b) else ([], s)
  end.

Section Many.
Variable A : Type.
(** One step of a scanner: [None] is a failure, [Some None] the end,
    [Some (Some (a, rest))] an item and the input left. *)
Variable step : str -> option (option (A * str)).

Fixpoint many_fuel (fuel : nat) (s : str) : option (list A * str) :=
  match fuel with
  | O => None
  | S n =>
      match step s with
      | None => None
      | Some None => Some ([], s)
      | Some (Some (a, r)) =>
          match many_fuel n r with
          | Some (l, r') => Some (a :: l, r')
          | None => None
          end
      end
  end.

(** Every step that yields an item consumes input, so the length of the
    input is fuel enough. *)
Definition many (s : str) : option (list A * str) := many_fuel (S (length s)) s.
End Many.

Definition entities : list (str * ascii) :=
  [("lt;", "<"%char); ("gt;", ">"%char); ("amp;", "&"%char);
   ("quot;", "034"%char); ("apos;", "'"%char)].

Definition reference_step (s : str) : option (option (ascii * str)) :=
  match s with
  | [] => Some None
  | c :: r =>
      if Ascii.eqb c "&" then
        match find (fun e => startsWith (fst e) r) entities with
        | Some (n, ch) => Some (Some (ch, skipn (length n) r))
        | None => None
        end
      else Some (Some (c, r))
  end.

(** Character data with its entity references replaced. *)
Definition expandReferences (s : str) : option str :=
  option_map fst (many reference_step s).

Definition lexName (s : str) : option (str * str) :=
  match s with
  | c :: _ => if isNameStart c then Some (span isNameChar s) else None
  | [] => None
  end.

Definition normalizeSpace (c : ascii) : ascii :=
  if isSpace c then " "%char else c.

Definition skipSpace (s : str) : str := snd (span isSpace s).

Definition attribute_step (s : str) : option (option ((str * str) * str)) :=
  let (w, r) := span isSpace s in
  match lexName r with
  | None => Some None
  | Some (k, r1) =>
      match w with
      | [] => None
      | _ :: _ =>
          match skipSpace r1 with
          | e :: r3 =>
              if Ascii.eqb e "=" then
                match skipSpace r3 with
                | q :: r5 =>
                    if Ascii.eqb q "034" || Ascii.eqb q "'" then
                      let (v, r6) := span (fun c => negb (Ascii.eqb c q)) r5 in
                      match r6 with
                      | _ :: r7 =>
                          if existsb (Ascii.eqb "<") v then None
                          else
                            match expandReferences (map normalizeSpace v) with
                            | Some v' => Some (Some ((k, v'), r7))
                            | None => None
                            end
                      | [] => None
                      end
                    else None
                | [] => None
                end
              else None
          | [] => None
          end
      end
  end.

Fixpoint hasDuplicate (keys : list str) : bool :=
  match keys with
  | [] => false
  | k :: rest => existsb (str_eqb k) rest || hasDuplicate rest
  end.

(** The text before the first ["]]>"] and the text after it. *)
Fixpoint splitAtCdataEnd (s : str) : option (str * str) :=
  if startsWith "]]>" s then Some ([], skipn 3 s)
  else
    match s with
    | [] => None
    | c :: r =>
        match splitAtCdataEnd r with
        | Some (d, rest) => Some (c :: d, rest)
        | None => None
        end
    end.

Inductive Token :=
| TOpen (tag : str) (attrs : list (str * str))
| TEmpty (tag : str) (attrs : list (str * str))
| TClose (tag : str)
| TText (data : str)
| TCData (data : str).

Definition token_step (s : str) : option (option (Token * str)) :=
  match s with
  | [] => Some None
  | c :: r =>
      if Ascii.eqb c "<" then
        if startsWith "/" r then
          match lexName (skipn 1 r) with
          | Some (tag, r1) =>
              if startsWith ">" (skipSpace r1)
              then Some (Some (TClose tag, skipn 1 (skipSpace r1)))
              else None
          | None => None
          end
        else if startsWith "![CDATA[" r then
          match splitAtCdataEnd (skipn 8 r) with
          | Some (d, r1) => Some (Some (TCData d, r1))
          | None => None
          end
        else
          match lexName r with
          | Some (tag, r1) =>
              match many attribute_step r1 with
              | Some (attrs, r2) =>
                  if hasDuplicate (map fst attrs) then None
                  else if startsWith ">" (skipSpace r2)
                  then Some (Some (TOpen tag attrs, skipn 1 (skipSpace r2)))
                  else if startsWith "/>" (skipSpace r2)
                  then Some (Some (TEmpty tag attrs, skipn 2 (skipSpace r2)))
                  else None
              | None => None
              end
          | None => None
          end
      else
        let (t, r1) := span (fun c => negb (Ascii.eqb c "<")) s in
        if includes t "]]>" then None
        else
          match expandReferences t with
          | Some d => Some (Some (TText d, r1))
          | None => None
          end
  end.

Definition tokenize (s : str) : option (list Token) :=
  option_map fst (many token_step s).

(** An element under construction: its tag, its attributes and the child
    nodes read so far, last first. *)
Definition Frame : Type := str * list (str * str) * list Node.

Definition addChild (n : Node) (f : Frame) : Frame :=
  let '(tag, attrs, kids) := f in (tag, attrs, n :: kids).

(** [build toks stack root]: [stack] holds the open elements, innermost
    first, and [root] the document element once it is closed. *)
Fixpoint build (toks : list Token) (stack : list Frame) (root : option Node) : option Node :=
  match toks with
  | [] =>
      match stack with
      | [] => root
      | _ :: _ => None
      end
  | TText d :: rest =>
      match stack with
      | [] => if forallb isSpace d then build rest [] root else None
      | f :: fs => build rest (addChild (Text d) f :: fs) root
      end
  | TCData d :: rest =>
      match stack with
      | [] => None
      | f :: fs => build rest (addChild (CDATASection d) f :: fs) root
      end
  | TOpen tag attrs :: rest =>
      match stack, root with
      | [], Some _ => None
      | _, _ => build rest ((tag, attrs, []) :: stack) root
      end
  | TEmpty tag attrs :: rest =>
      match stack, root with
      | [], Some _ => None
      | [], None => build rest [] (Some (Element tag attrs []))
      | f :: fs, _ => build rest (addChild (Element tag attrs []) f :: fs) root
      end
  | TClose tag :: rest =>
      match stack with
      | [] => None
      | (tag', attrs, kids) :: fs =>
          if tag =? tag' then
            match fs with
            | [] => build rest [] (Some (Element tag' attrs (rev kids)))
            | f :: fs' => build rest (addChild (Element tag' attrs (rev kids)) f :: fs') root
            end
          else None
      end
  end.

(** Line ends: a carriage return, with the line feed that may follow it,
    becomes one line feed. *)
Fixpoint normalizeLineEnds (s : str) : str :=
  match s with
  | [] => []
  | c :: r =>
      if Ascii.eqb c "013" then
        "010"%char ::
          match r with
          | c2 :: r2 => if Ascii.eqb c2 "010" then normalizeLineEnds r2 else normalizeLineEnds r
          | [] => []
          end
      else c :: normalizeLineEnds r
  end.

(** The XML declaration, when the document starts with one. *)
Definition stripDeclaration (s : str) : option str :=
  if startsWith "<?xml" s then
    match many attribute_step (skipn 5 s) with
    | Some ((k, _) :: _, r) =>
        if (k =? "version") && startsWith "?>" (skipSpace r)
        then Some (skipn 2 (skipSpace r))
        else None
    | _ => None
    end
  else Some s.

(** The document element of a well-formed document. *)
Definition xmlParse (s : str) : option Node :=
  if forallb isXmlChar s then
    match stripDeclaration (normalizeLineEnds s) with
    | Some body =>
        match tokenize body with
        | Some toks => build toks [] None
        | None => None
        end
    | None => None
    end
  else None.

(** The document this parser gives for a text it does not accept, after
    the HTML Standard: the document element is [parsererror] (which browsers
    fill with a description of the error, left out here). *)
Definition parserErrorDocument : Node :=
  Element "parsererror" [("xmlns", "http://www.mozilla.org/newlayout/xml/parsererror.xml")] [].

(** [new DOMParser().parseFromString(xmlText, "text/xml")], with [xmlParse]
    for the XML parser of the browser. *)
Definition parseFromString (xmlText : str) : Node :=
  match xmlParse xmlText with
  | Some root => root
  | None => parserErrorDocument
  end.

(** ** The decoder: [parseRbxmx] *)

(** [crypto.randomUUID()], by the number of calls made before. *)
Definition UuidSource := nat -> str.

Inductive Result (A : Type) :=
| Ok (value : A)
| Throw (message : str).

Arguments Ok {A} value.
Arguments Throw {A} message.

Definition selName : Selector := SelChildAttr "Properties" "string" "name" "Name".
Definition selSource : Selector := SelChildAttr "Properties" "ProtectedString" "name" "Source".

(** [extractItem element]; [calls] counts the calls of [crypto.randomUUID]
    made before this one and the result carries the count after it: the
    identifiers of the children are drawn in the loop, the one of the node
    when the object is built.  [extractItem] is only called on elements. *)
Fixpoint extractItem (uuid : UuidSource) (element : Node) (calls : nat) : RobloxAsset * nat :=
  match element with
  | Element tag attrs kids =>
      let className :=
        match getAttribute attrs "class" with
        | Some (c :: cs) => c :: cs
        | _ => "Folder"
        end in
      let nameNode := querySelector element selName in
      let sourceNode := querySelector element selSource in
      let '(children, calls) :=
        (fix loop (childItems : list Node) (calls : nat) : list RobloxAsset * nat :=
           match childItems with
           | [] => ([], calls)
           | childItem :: rest =>
               match childItem with
               | Element t _ _ =>
                   if t =? "Item" then
                     let '(child, calls') := extractItem uuid childItem calls in
                     let '(others, calls'') := loop rest calls' in
                     (child :: others, calls'')
                   else loop rest calls
               | _ => loop rest calls
               end
           end) kids calls in
      ({| id := uuid calls;
          name := match option_map textContent nameNode with
                  | Some (c :: cs) => c :: cs
                  | _ => "Unnamed"
                  end;
          className := className;
          source := match option_map textContent sourceNode with
                    | Some (c :: cs) => Some (c :: cs)
                    | _ => None
                    end;
          children := children;
          properties := None |}, S calls)
  | _ => ({| id := ""; name := ""; className := ""; source := None;
             children := []; properties := None |}, calls)
  end.

Definition errorMessage : str :=
  "Arquivo XML inv" ++ ["225"%char] ++ "lido ou sem itens Roblox.".

(** [parseRbxmx], with the [parseFromString] of the browser's [DOMParser]
    as an argument. *)
Definition parseRbxmxWith (domParser : str -> Node) (uuid : UuidSource) (xmlText : str)
  : Result RobloxAsset :=
  let xmlDoc := domParser xmlText in
  match documentQuerySelector xmlDoc (SelType "Item") with
  | None => Throw errorMessage
  | Some rootItem => Ok (fst (extractItem uuid rootItem 0))
  end.

(** [parseRbxmx] over the parser of this development. *)
Definition parseRbxmx (uuid : UuidSource) (xmlText : str) : Result RobloxAsset :=
  parseRbxmxWith parseFromString uuid xmlText.

(** ** Notions the properties are stated with *)

(** [everyNode P tree]: [P] holds of [tree] and of every node below it. *)
Fixpoint everyNode (P : RobloxAsset -> Prop) (tree : RobloxAsset) : Prop :=
  P tree /\
  (fix all (items : list RobloxAsset) : Prop :=
     match items with
     | [] => True
     | child :: rest => everyNode P child /\ all rest
     end) (children tree).

(** The number of nodes of a tree. *)
Fixpoint size (tree : RobloxAsset) : nat :=
  S ((fix sum (items : list RobloxAsset) : nat :=
        match items with
        | [] => 0
        | child :: rest => size child + sum rest
        end) (children tree)).

(** The elements of a document, in document order. *)
Fixpoint elements (n : Node) : list Node :=
  match n with
  | Element _ _ kids => n :: flat_map elements kids
  | Text _ => []
  | CDATASection _ => []
  end.

Definition tagOf (n : Node) : str :=
  match n with
  | Element tag _ _ => tag
  | _ => ""
  end.

(** No element of the document is an [Item]. *)
Definition hasNoItem (root : Node) : bool :=
  forallb (fun e => negb (localName (tagOf e) =? "Item")) (elements root).

(** ** The serialised form of a document *)

Definition printAttribute (a : str * str) : str :=
  " " ++ fst a ++ "=" ++ dq ++ snd a ++ dq.

Definition printAttributes (attrs : list (str * str)) : str :=
  flat_map printAttribute attrs.

Definition printToken (t : Token) : str :=
  match t with
  | TOpen tag attrs => "<" ++ tag ++ printAttributes attrs ++ ">"
  | TEmpty tag attrs => "<" ++ tag ++ printAttributes attrs ++ "/>"
  | TClose tag => "</" ++ tag ++ ">"
  | TText d => flat_map escapeChar d
  | TCData d => "<![CDATA[" ++ d ++ "]]>"
  end.

Fixpoint tokensOf (n : Node) : list Token :=
  match n with
  | Element tag attrs kids => TOpen tag attrs :: flat_map tokensOf kids ++ [TClose tag]
  | Text d => [TText d]
  | CDATASection d => [TCData d]
  end.

Definition serialize (n : Node) : str := flat_map printToken (tokensOf n).

(** A character XML allows that is not a carriage return. *)
Definition plainChar (c : ascii) : bool :=
  isXmlChar c && negb (code c =? 13)%nat.

Definition nameOk (s : str) : bool :=
  match s with
  | c :: r => isNameStart c && forallb isNameChar r
  | [] => false
  end.

(** A character that an attribute value delimited by double quotes can hold
    as it is, and that the parser gives back as it is. *)
Definition attrValueChar (c : ascii) : bool :=
  plainChar c && negb (Ascii.eqb c "<") && negb (Ascii.eqb c "&")
  && negb (Ascii.eqb c "034") && negb (code c =? 9)%nat && negb (code c =? 10)%nat.

Definition attributeOk (a : str * str) : bool :=
  nameOk (fst a) && forallb attrValueChar (snd a).

Definition isText (t : Token) : bool :=
  match t with
  | TText _ => true
  | _ => false
  end.

Definition tokenOk (t : Token) : bool :=
  match t with
  | TOpen tag attrs =>
      nameOk tag && forallb attributeOk attrs && negb (hasDuplicate (map fst attrs))
  | TEmpty _ _ => false
  | TClose tag => nameOk tag
  | TText d => match d with [] => false | _ :: _ => forallb plainChar d end
  | TCData d => forallb plainChar d && negb (includes d "]]>")
  end.

Definition startsText (toks : list Token) : bool :=
  match toks with
  | t :: _ => isText t
  | [] => false
  end.

(** Every token can be printed and read back, and no two texts are adjacent. *)
Fixpoint tokensOk (toks : list Token) : bool :=
  match toks with
  | [] => true
  | t :: rest => tokenOk t && negb (isText t && startsText rest) && tokensOk rest
  end.

(** ** The document the encoder writes

    The tree [DOMParser] is to give back for the text of [buildRbxmx]: every
    line break and indentation of the encoder is a text node of its own. *)

Definition textNodes (s : str) : list Node :=
  match s with
  | [] => []
  | _ :: _ => [Text s]
  end.

Definition propertyNode (entry : str * JsValue) : option Node :=
  match snd entry with
  | VString s => Some (Element "string" [("name", fst entry)] (textNodes s))
  | VNumber n => Some (Element "float" [("name", fst entry)] (textNodes (numberToString n)))
  | VBoolean b => Some (Element "bool" [("name", fst entry)] (textNodes (booleanToString b)))
  | VNull => None
  | VUndefined => None
  | VObject _ => None
  end.

Definition propertyNodes (pad : str) (entries : list (str * JsValue)) : list Node :=
  flat_map (fun entry =>
              match propertyNode entry with
              | Some n => [Text pad; n]
              | None => []
              end) entries.

Definition entriesOf (item : RobloxAsset) : list (str * JsValue) :=
  match properties item with
  | Some entries => entries
  | None => []
  end.

Definition sourceNodes (pad : str) (item : RobloxAsset) : list Node :=
  if emitsSource item
  then [Text pad;
        Element "ProtectedString" [("name", "Source")] [CDATASection (sourceText item)]]
  else [].

Fixpoint itemNode (random : RandomSource) (item : RobloxAsset) (depth calls : nat) : Node :=
  let pad := nl ++ repeatStr "  " (depth + 1) in
  Element "Item"
    [("class", className item);
     ("referent", "RBX" ++ decimalN (randomReferentNumber random calls))]
    ([Text (pad ++ "  ");
      Element "Properties" []
        ([Text (pad ++ "    "); Element "string" [("name", "Name")] (textNodes (name item))]
           ++ sourceNodes (pad ++ "    ") item
           ++ propertyNodes (pad ++ "    ") (entriesOf item)
           ++ [Text (pad ++ "  ")])]
       ++ (fix each (items : list RobloxAsset) (calls : nat) : list Node :=
             match items with
             | [] => []
             | child :: rest =>
                 Text (nl ++ repeatStr "  " (depth + 1 + 1))
                   :: itemNode random child (depth + 1) calls
                   :: each rest (calls + size child)
             end) (children item) (S calls)
       ++ [Text pad]).

Definition documentNode (random : RandomSource) (asset : RobloxAsset) : Node :=
  Element "roblox"
    [("xmlns:xmime", "http://www.w3.org/2005/05/xmlmime");
     ("xmlns:xsi", "http://www.w3.org/2001/XMLSchema-instance");
     ("xsi:noNamespaceSchemaLocation", "http://www.roblox.com/roblox.xsd");
     ("version", "4")]
    [Text (nl ++ "  "); Element "External" [] [Text "null"];
     Text (nl ++ "  "); Element "External" [] [Text "nil"];
     Text (nl ++ "  "); itemNode random asset 0 0;
     Text nl].

(** ** The trees the codec can carry *)

Definition propertyOk (entry : str * JsValue) : bool :=
  match snd entry with
  | VString s => forallb attrValueChar (fst entry) && forallb plainChar s
  | VNumber _ => forallb attrValueChar (fst entry)
  | VBoolean _ => forallb attrValueChar (fst entry)
  | VNull => true
  | VUndefined => true
  | VObject _ => true
  end.

(** At every node: the name, the emitted source and the text properties are
    made of characters XML allows, without carriage returns; the class name
    and the property names can stand in an attribute as they are; the
    emitted source is free of the CDATA terminator. *)
Fixpoint representable (item : RobloxAsset) : bool :=
  forallb plainChar (name item)
  && forallb attrValueChar (className item)
  && (if emitsSource item
      then forallb plainChar (sourceText item) && negb (includes (sourceText item) "]]>")
      else true)
  && forallb propertyOk (entriesOf item)
  && (fix all (items : list RobloxAsset) : bool :=
        match items with
        | [] => true
        | child :: rest => representable child && all rest
        end) (children item).

(** Some node of the tree has a source the encoder emits. *)
Fixpoint anyEmitsSource (item : RobloxAsset) : bool :=
  emitsSource item
  || (fix any (items : list RobloxAsset) : bool :=
        match items with
        | [] => false
        | child :: rest => anyEmitsSource child || any rest
        end) (children item).

(** What a decoded tree keeps of the encoded one. *)
Inductive Preserved : RobloxAsset -> RobloxAsset -> Prop :=
| preserved (tree decoded : RobloxAsset) :
    name decoded = match name tree with [] => "Unnamed" | _ :: _ => name tree end ->
    className decoded = match className tree with [] => "Folder" | _ :: _ => className tree end ->
    (emitsSource tree = true -> source decoded = source tree) ->
    (anyEmitsSource tree = false -> source decoded = None) ->
    Forall2 Preserved (children tree) (children decoded) ->
    Preserved tree decoded.

(** ** The loops of the recursive functions, named *)

Definition generateChildren (random : RandomSource) (depth : nat)
  : list RobloxAsset -> str -> nat -> str * nat :=
  fix forEach (items : list RobloxAsset) (xml : str) (calls : nat) : str * nat :=
    match items with
    | [] => (xml, calls)
    | child :: rest =>
        let '(text, calls') := generateItem random child (depth + 1) calls in
        forEach rest (xml ++ text) calls'
    end.

Definition extractChildren (uuid : UuidSource) : list Node -> nat -> list RobloxAsset * nat :=
  fix loop (childItems : list Node) (calls : nat) : list RobloxAsset * nat :=
    match childItems with
    | [] => ([], calls)
    | childItem :: rest =>
        match childItem with
        | Element t _ _ =>
            if t =? "Item" then
              let '(child, calls') := extractItem uuid childItem calls in
              let '(others, calls'') := loop rest calls' in
              (child :: others, calls'')
            else loop rest calls
        | _ => loop rest calls
        end
    end.

Definition childNodes (random : RandomSource) (depth : nat) : list RobloxAsset -> nat -> list Node :=
  fix each (items : list RobloxAsset) (calls : nat) : list Node :=
    match items with
    | [] => []
    | child :: rest =>
        Text (nl ++ repeatStr "  " (depth + 1 + 1))
          :: itemNode random child (depth + 1) calls
          :: each rest (calls + size child)
    end.

Definition serializeAll (ns : list Node) : str :=
  flat_map printToken (flat_map tokensOf ns).

(** The line [appendProperty] adds for an entry. *)
Definition propertyText (indent : str) (entry : str * JsValue) : str :=
  match propertyNode entry with
  | Some n => indent ++ "    " ++ serialize n ++ nl
  | None => []
  end.

(** A character [escapeXml] leaves as it is. *)
Definition literalChar (c : ascii) : bool :=
  negb (Ascii.eqb c "<") && negb (Ascii.eqb c ">") && negb (Ascii.eqb c "&")
  && negb (Ascii.eqb c "034") && negb (Ascii.eqb c "'").

(** The text [generateChildren] adds for the children of a node. *)
Fixpoint childrenText (random : RandomSource) (depth : nat) (items : list RobloxAsset)
    (calls : nat) : str :=
  match items with
  | [] => []
  | child :: rest =>
      repeatStr "  " (depth + 1 + 1) ++ serialize (itemNode random child (depth + 1) calls)
        ++ nl ++ childrenText random depth rest (calls + size child)
  end.

(** Every token can be printed and read back, and every text is followed by
    a token that is not a text. *)
Fixpoint sealed (toks : list Token) : bool :=
  match toks with
  | [] => true
  | t :: rest =>
      tokenOk t
      && (if isText t
          then match rest with
               | [] => false
               | t' :: _ => negb (isText t')
               end
          else true)
      && sealed rest
  end.

(** ** Notions used by the proofs *)

Definition xmlDeclaration : str :=
  "<?xml version=" ++ dq ++ "1.0" ++ dq ++ " encoding=" ++ dq ++ "UTF-8" ++ dq ++ "?>".

Definition itemAttributes (random : RandomSource) (item : RobloxAsset) (calls : nat)
  : list (str * str) :=
  [("class", className item);
   ("referent", "RBX" ++ decimalN (randomReferentNumber random calls))].

Definition itemKids (random : RandomSource) (item : RobloxAsset) (depth calls : nat)
  : list Node :=
  let pad := nl ++ repeatStr "  " (depth + 1) in
  [Text (pad ++ "  ");
   Element "Properties" []
     ([Text (pad ++ "    "); Element "string" [("name", "Name")] (textNodes (name item))]
        ++ sourceNodes (pad ++ "    ") item
        ++ propertyNodes (pad ++ "    ") (entriesOf item)
        ++ [Text (pad ++ "  ")])]
    ++ childNodes random depth (children item) (S calls)
    ++ [Text pad].

(** The statements proved by induction on nodes and on asset trees. *)

Definition builds (n : Node) : Prop :=
  forall rest f fs root,
    build (tokensOf n ++ rest) (f :: fs) root = build rest (addChild n f :: fs) root.

Definition generates (random : RandomSource) (item : RobloxAsset) : Prop :=
  forall depth calls,
    generateItem random item depth calls
    = (repeatStr "  " (depth + 1) ++ serialize (itemNode random item depth calls) ++ nl,
       calls + size item).

Definition sealedItem (random : RandomSource) (item : RobloxAsset) : Prop :=
  representable item = true ->
  forall depth calls, sealed (tokensOf (itemNode random item depth calls)) = true.

(** What holds of every node [extractItem] builds. *)
Definition decodedNode (node : RobloxAsset) : Prop :=
  properties node = None /\ source node <> Some [].

(** ** Notions the claims are stated with *)

(** A text the XML parser accepts. *)
Definition wellFormed (text : str) : Prop :=
  exists root, xmlParse text = Some root.

(** The document the HTML Standard has [parseFromString] return for a text
    that is not well-formed XML: its document element is [parsererror], and
    what a browser puts into it describes the error; it is taken to hold no
    [Item]. *)
Definition isErrorDocument (doc : Node) : bool :=
  match doc with
  | Element tag _ kids => (localName tag =? "parsererror") && forallb hasNoItem kids
  | _ => false
  end.

(** [domParser] is a [parseFromString] that follows the HTML Standard,
    [wellFormedXml] being the texts that are well-formed XML.  A browser
    that keeps what it had read before the error does not follow it. *)
Definition followsStandard (wellFormedXml : str -> Prop) (domParser : str -> Node) : Prop :=
  forall text, ~ wellFormedXml text -> isErrorDocument (domParser text) = true.

(** The [referent] attributes of the [Item] elements, in document order. *)
Fixpoint referentsOf (n : Node) : list str :=
  match n with
  | Element tag attrs kids =>
      (if tag =? "Item"
       then match getAttribute attrs "referent" with
            | Some r => [r]
            | None => []
            end
       else [])
        ++ flat_map referentsOf kids
  | Text _ => []
  | CDATASection _ => []
  end.

Definition referentOf (random : RandomSource) (k : nat) : str :=
  "RBX" ++ decimalN (randomReferentNumber random k).

Definition numbered (random : RandomSource) (item : RobloxAsset) : Prop :=
  forall depth calls,
    referentsOf (itemNode random item depth calls)
    = map (referentOf random) (seq calls (size item)).

(** The spec's words for the escaping rule: each markup-significant
    character is written as its named entity. *)
Definition namedEntities : list (ascii * str) :=
  [("<"%char, "lt"); (">"%char, "gt"); ("&"%char, "amp");
   ("034"%char, "quot"); ("'"%char, "apos")].

Definition namedEntity (c : ascii) : str :=
  match find (fun e => Ascii.eqb (fst e) c) namedEntities with
  | Some (_, entity) => "&" ++ entity ++ ";"
  | None => [c]
  end.

(** The kinds of value [appendProperty] writes. *)
Definition supported (value : JsValue) : bool :=
  match typeof value with
  | TyString => true
  | TyNumber => true
  | TyBoolean => true
  | TyObject => false
  | TyUndefined => false
  end.

(** The tree without the properties of another kind, at every node. *)
Fixpoint withoutUnsupported (item : RobloxAsset) : RobloxAsset :=
  mkAsset (id item) (name item) (className item) (source item)
    (map withoutUnsupported (children item))
    (option_map (filter (fun entry => supported (snd entry))) (properties item)).


(** ** Sample inputs *)

Definition leaf (n c : str) (s : option str) : RobloxAsset := mkAsset "" n c s [] None.

Definition sampleRandom : RandomSource := fun k => N.of_nat (7 * k + 3).

Definition sampleUuid : UuidSource := fun k => "uuid-" ++ decimalN (N.of_nat k).

Definition sampleTree : RobloxAsset :=
  mkAsset "" "Game <1>" "Folder" None
    [leaf "Main" "Script" (Some "print(1 < 2 && 3 > 2)");
     mkAsset "" "Lib" "ModuleScript" None [leaf "Part" "" None]
       (Some [("Tag", VString "a&b"); ("Size", VNumber (NumFinite false 4 1));
              ("Locked", VBoolean true); ("Extra", VNull)])]
    None.

(** A root with [n - 1] children. *)
Definition wideTree (n : nat) : RobloxAsset :=
  mkAsset "" "Root" "Folder" None (repeat (leaf "Part" "Part" None) (n - 1)) None.

(** Draws of [Math.random] whose first and thousandth lead to the same
    integer. *)
Definition collidingRandom : RandomSource := fun k => N.of_nat (k mod 999).

(** The carriage return and the tab. *)
Definition cr : str := ["013"%char].
Definition tab : str := ["009"%char].

(** A tree with a node without name and with properties in whose name and
    value the parser normalises white space. *)
Definition looseTree : RobloxAsset :=
  mkAsset "" "" "Model" None
    [leaf "Main" "Script" (Some "print(1)")]
    (Some [("Note" ++ tab ++ "1", VString ("a" ++ cr ++ nl ++ "b"));
           ("Scale", VNumber (NumFinite false 15 0))]).

(** A tree with line ends in its name and a tab in its class name. *)
Definition spacedTree : RobloxAsset :=
  mkAsset "" ("Line" ++ cr ++ nl ++ "2" ++ cr) ("My" ++ tab ++ "Class" ++ nl) None
    [looseTree; leaf "Main" "Script" (Some ("a" ++ cr ++ "b"))] None.

(** Trees with a character XML does not allow, in a name, a class name, a
    source, the name of a property and the value of one; trees with a
    markup character in a class name and in the name of a property; a
    script with the CDATA terminator in its source. *)
Definition unfitTrees : list RobloxAsset :=
  [leaf "Main" "Script" (Some "a]]>b");
   leaf ("Do" ++ ["001"%char] ++ "or") "Folder" None;
   leaf "Door" ("Fol" ++ ["001"%char] ++ "der") None;
   leaf "Main" "Script" (Some ("a" ++ ["001"%char] ++ "b"));
   mkAsset "" "Door" "Folder" None [] (Some [("a" ++ ["001"%char] ++ "b", VBoolean true)]);
   mkAsset "" "Door" "Folder" None [] (Some [("Tag", VString ("a" ++ ["001"%char] ++ "b"))]);
   leaf "Door" "Fol<der" None;
   leaf "Door" "Fol&der" None;
   leaf "Door" ("Fol" ++ dq ++ "der") None;
   mkAsset "" "Door" "Folder" None [] (Some [("a<b", VBoolean true)]);
   mkAsset "" "Door" "Folder" None [] (Some [("a&b", VString "x")]);
   mkAsset "" "Door" "Folder" None [] (Some [("a" ++ dq ++ "b", VNumber NumZero)])].

(** A script whose source property has no text. *)
Definition emptySourceDocument : str :=
  "<Item class='Script'><Properties><string name='Name'>Main</string>"
    ++ "<ProtectedString name='Source'></ProtectedString></Properties></Item>".

(** An [Item] without a [Name] property of its own, above one that has it. *)
Definition namelessParentDocument : str :=
  "<Item class='Model'><Item class='Part'><Properties>"
    ++ "<string name='Name'>Kid</string></Properties></Item></Item>".


(** ** The tree an encoded tree decodes to *)

(** The source of the first node, in document order, among a node and the
    nodes below it, whose source the encoder emits. *)
Fixpoint firstSource (item : RobloxAsset) : option str :=
  if emitsSource item then source item
  else
    (fix first (items : list RobloxAsset) : option str :=
       match items with
       | [] => None
       | child :: rest =>
           match firstSource child with
           | Some s => Some s
           | None => first rest
           end
       end) (children item).

Definition firstSourceIn : list RobloxAsset -> option str :=
  fix first (items : list RobloxAsset) : option str :=
    match items with
    | [] => None
    | child :: rest =>
        match firstSource child with
        | Some s => Some s
        | None => first rest
        end
    end.

(** The tree [parseRbxmx] gives back for the text of a tree, read off the
    tree: the empty name becomes ["Unnamed"], the empty class ["Folder"], the
    source is the first one emitted in the subtree, the properties are gone,
    the identifiers are drawn afresh, children before their parent. *)
Fixpoint decodedTree (uuid : UuidSource) (item : RobloxAsset) (calls : nat)
  : RobloxAsset * nat :=
  let '(kids, calls) :=
    (fix loop (items : list RobloxAsset) (calls : nat) : list RobloxAsset * nat :=
       match items with
       | [] => ([], calls)
       | child :: rest =>
           let '(d, calls') := decodedTree uuid child calls in
           let '(ds, calls'') := loop rest calls' in
           (d :: ds, calls'')
       end) (children item) calls in
  ({| id := uuid calls;
      name := match name item with [] => "Unnamed" | _ :: _ => name item end;
      className := match className item with [] => "Folder" | _ :: _ => className item end;
      source := firstSource item;
      children := kids;
      properties := None |}, S calls).

Definition decodedChildren (uuid : UuidSource) : list RobloxAsset -> nat -> list RobloxAsset * nat :=
  fix loop (items : list RobloxAsset) (calls : nat) : list RobloxAsset * nat :=
    match items with
    | [] => ([], calls)
    | child :: rest =>
        let '(d, calls') := decodedTree uuid child calls in
        let '(ds, calls'') := loop rest calls' in
        (d :: ds, calls'')
    end.

(** ** Notions the further properties are stated with *)

(** The identifiers of a tree, children before their parent. *)
Fixpoint identifiers (tree : RobloxAsset) : list str :=
  (fix all (items : list RobloxAsset) : list str :=
     match items with
     | [] => []
     | child :: rest => identifiers child ++ all rest
     end) (children tree)
  ++ [id tree].

(** The tree with every identifier blanked. *)
Fixpoint withoutIds (item : RobloxAsset) : RobloxAsset :=
  mkAsset "" (name item) (className item) (source item)
    ((fix each (items : list RobloxAsset) : list RobloxAsset :=
        match items with
        | [] => []
        | child :: rest => withoutIds child :: each rest
        end) (children item))
    (properties item).

(** A character that cannot end or open markup or an attribute value. *)
Definition markupFree (c : ascii) : bool :=
  negb (Ascii.eqb c "<") && negb (Ascii.eqb c ">")
  && negb (Ascii.eqb c "034") && negb (Ascii.eqb c "'").

Definition namedNode (node : RobloxAsset) : Prop :=
  name node <> "" /\ className node <> "".

(** A document with two [Item]s side by side. *)
Definition twoItemsDocument : str :=
  "<roblox><Item class='A'></Item><Item class='B'></Item></roblox>".

(** ** The application ([src/App.tsx])

    The handlers of the component, as functions of the state it holds.  A
    handler that awaits the network is cut at the request: the part up to it
    and the part that handles its outcome.  The clock, the reply of the
    service and [JSON.parse] are arguments; the request itself, the project
    files ([saveProject], [loadProject]) and the markup around the explorer
    are not covered. *)

Inductive Role := user | assistant.

Module ChatMessage.
Record t := make {
  id : str;
  role : Role;
  content : str;
  assetsGenerated : option (list RobloxAsset);
  timestamp : N
}.
End ChatMessage.

(** The state the component holds with [useState]. *)
Record AppState := mkState {
  messages : list ChatMessage.t;
  input : str;
  isLoading : bool;
  explorerRoot : RobloxAsset;
  projectName : str
}.

(** What a handler does besides setting the state. *)
Inductive Effect :=
| Alert (message : str)
| Download (fileName mime content : str)
| ConsoleError.

(** The file a file input hands over: its name and the text [readAsText]
    reads from it. *)
Record File := mkFile { fileName : str; fileText : str }.

(** The values of the successive calls of [Date.now] in a handler. *)
Definition Clock := nat -> N.

Definition initialState : AppState :=
  {| messages := [];
     input := "";
     isLoading := false;
     explorerRoot := mkAsset "root" "Workspace" "DataModel" None [] None;
     projectName := "Novo Jogo Roblox" |}.

(** [{...prev, children: [...prev.children, ...items]}] *)
Definition appendChildren (prev : RobloxAsset) (items : list RobloxAsset) : RobloxAsset :=
  mkAsset (id prev) (name prev) (className prev) (source prev)
    (children prev ++ items) (properties prev).

Definition downloadAsset (random : RandomSource) (asset : RobloxAsset) : list Effect :=
  let xml := buildRbxmx random asset in
  [Download (name asset ++ ".rbxmx") "text/xml" xml].

Definition uploadNotice (file : File) : str :=
  "Analisei o arquivo " ++ dq ++ fileName file ++ dq
    ++ ". Ele foi adicionado ao seu Workspace no Explorador. Posso te ajudar a modific"
    ++ ["225"%char] ++ "-lo ou expandir suas funcionalidades agora.".

Definition uploadAlert : str :=
  "Erro ao ler o arquivo .rbxmx. Verifique se " ++ ["233"%char] ++ " um arquivo XML v"
    ++ ["225"%char] ++ "lido do Roblox.".

(** [handleFileUpload], with the [onload] callback of the reader run on the
    text of the file, and with the [parseFromString] of the browser's
    [DOMParser] as an argument. *)
Definition handleFileUploadWith (domParser : str -> Node) (uuid : UuidSource) (clock : Clock)
    (file : option File) (st : AppState) : AppState * list Effect :=
  match file with
  | None => (st, [])
  | Some f =>
      match parseRbxmxWith domParser uuid (fileText f) with
      | Ok parsed =>
          ({| messages :=
                messages st
                  ++ [ChatMessage.make (decimalN (clock 0)) assistant (uploadNotice f)
                        None (clock 1)];
              input := input st;
              isLoading := isLoading st;
              explorerRoot := appendChildren (explorerRoot st) [parsed];
              projectName := projectName st |}, [])
      | Throw _ => (st, [Alert uploadAlert])
      end
  end.

(** [handleFileUpload] over the parser of this development. *)
Definition handleFileUpload (uuid : UuidSource) (clock : Clock) (file : option File)
    (st : AppState) : AppState * list Effect :=
  handleFileUploadWith parseFromString uuid clock file st.

(** [String.prototype.trim], on code units below 256. *)
Definition isWhiteSpace (c : ascii) : bool :=
  ((9 <=? code c)%nat && (code c <=? 13)%nat) || (code c =? 32)%nat || (code c =? 160)%nat.

Fixpoint trimStart (s : str) : str :=
  match s with
  | [] => []
  | c :: r => if isWhiteSpace c then trimStart r else s
  end.

Definition trim (s : str) : str := rev (trimStart (rev (trimStart s))).

(** The text after the first occurrence of [pat] in [s]. *)
Fixpoint afterFirst (pat s : str) : option str :=
  if startsWith pat s then Some (skipn (length pat) s)
  else
    match s with
    | [] => None
    | _ :: r => afterFirst pat r
    end.

(** The text before the first occurrence of [pat] in [s]. *)
Fixpoint beforeFirst (pat s : str) : option str :=
  if startsWith pat s then Some []
  else
    match s with
    | [] => None
    | c :: r => option_map (cons c) (beforeFirst pat r)
    end.

Definition fenceOpen : str := "```json" ++ nl.
Definition fenceClose : str := nl ++ "```".

(** The first group of [aiText.match(/```json\n([\s\S]*?)\n```/)]: the
    leftmost opening fence, then the shortest text up to a closing fence. *)
Definition jsonMatch (aiText : str) : option str :=
  match afterFirst fenceOpen aiText with
  | Some rest => beforeFirst fenceClose rest
  | None => None
  end.

(** What [JSON.parse] gives, taken with the type the source gives it. *)
Inductive Parsed :=
| ParsedArray (items : list RobloxAsset)
| ParsedOther (value : RobloxAsset).

Definition replyFallback : str := "Desculpe, tive um erro ao processar.".

Definition apiErrorNotice : str :=
  "Erro cr" ++ ["237"%char] ++ "tico na API. Verifique seu console.".

(** [handleSendMessage] up to the request: [None] when the guard returns at
    once, else the message of the user and the state that goes with it. *)
Definition handleSendMessage_start (clock : Clock) (st : AppState)
  : option (ChatMessage.t * AppState) :=
  match trim (input st), isLoading st with
  | _ :: _, false =>
      let userMsg := ChatMessage.make (decimalN (clock 0)) user (input st) None (clock 1) in
      Some (userMsg,
            {| messages := messages st ++ [userMsg];
               input := "";
               isLoading := true;
               explorerRoot := explorerRoot st;
               projectName := projectName st |})
  | _, _ => None
  end.

(** [handleSendMessage] from the reply on: [response] is the [text] of the
    reply, or a failure of the request; [JSON_parse] stands for [JSON.parse]. *)
Definition handleSendMessage_finish (JSON_parse : str -> Result Parsed) (clock : Clock)
    (response : Result (option str)) (st : AppState) : AppState * list Effect :=
  match response with
  | Ok text =>
      let aiText :=
        match text with
        | Some (c :: s) => c :: s
        | _ => replyFallback
        end in
      let '(detectedAssets, explorer, effects) :=
        match jsonMatch aiText with
        | Some json =>
            match JSON_parse json with
            | Ok parsed =>
                let detected :=
                  match parsed with
                  | ParsedArray items => items
                  | ParsedOther value => [value]
                  end in
                (detected, appendChildren (explorerRoot st) detected, [])
            | Throw _ => ([], explorerRoot st, [ConsoleError])
            end
        | None => ([], explorerRoot st, [])
        end in
      let assistantMsg :=
        ChatMessage.make (decimalN (clock 0 + 1)) assistant aiText (Some detectedAssets)
          (clock 1) in
      ({| messages := messages st ++ [assistantMsg];
          input := input st;
          isLoading := false;
          explorerRoot := explorer;
          projectName := projectName st |}, effects)
  | Throw _ =>
      ({| messages :=
            messages st
              ++ [ChatMessage.make "err" assistant apiErrorNotice None (clock 0)];
          input := input st;
          isLoading := false;
          explorerRoot := explorerRoot st;
          projectName := projectName st |}, [ConsoleError])
  end.

(** [disabled={isLoading || !input.trim()}] of the send button. *)
Definition sendDisabled (st : AppState) : bool :=
  isLoading st
  || match trim (input st) with
     | [] => true
     | _ :: _ => false
     end.

(** [renderExplorerNode]: the row of a node and, below it, those of its
    children. *)
Inductive ExplorerRow :=
| explorerRow (key : str) (paddingLeft : nat) (icon : str) (label : str)
    (downloads : RobloxAsset) (rows : list ExplorerRow).

Definition iconOf (className : str) : str :=
  if includes className "Script" then "fa-scroll text-blue-400"
  else if className =? "Folder" then "fa-folder text-yellow-500"
  else if (className =? "ScreenGui") || includes className "Gui"
       then "fa-window-maximize text-green-400"
  else "fa-cube text-gray-400".

Fixpoint renderExplorerNode (node : RobloxAsset) (depth : nat) : ExplorerRow :=
  explorerRow (id node) (depth * 12 + 8) (iconOf (className node)) (name node) node
    ((fix each (items : list RobloxAsset) : list ExplorerRow :=
        match items with
        | [] => []
        | child :: rest => renderExplorerNode child (depth + 1) :: each rest
        end) (children node)).

Definition rowIcon (r : ExplorerRow) : str :=
  match r with explorerRow _ _ icon _ _ _ => icon end.

(** ** Notions used by the proofs of the further properties *)

Definition sourceFound (random : RandomSource) (item : RobloxAsset) : Prop :=
  forall depth calls,
    option_map textContent (querySelector (itemNode random item depth calls) selSource)
    = firstSource item.

Definition decodesTo (uuid : UuidSource) (random : RandomSource) (item : RobloxAsset) : Prop :=
  forall depth calls k,
    extractItem uuid (itemNode random item depth calls) k = decodedTree uuid item k.

Definition settled (uuid uuid' : UuidSource) (item : RobloxAsset) : Prop :=
  forall k k',
    firstSource (fst (decodedTree uuid item k)) = firstSource item
    /\ decodedTree uuid' (fst (decodedTree uuid item k)) k' = decodedTree uuid' item k'
    /\ (representable item = true -> representable (fst (decodedTree uuid item k)) = true).

Definition numbersIds (uuid : UuidSource) (n : Node) : Prop :=
  forall tag attrs kids k,
    n = Element tag attrs kids ->
    snd (extractItem uuid n k) = k + size (fst (extractItem uuid n k))
    /\ identifiers (fst (extractItem uuid n k))
       = map uuid (seq k (size (fst (extractItem uuid n k)))).

Definition namesNodes (uuid : UuidSource) (n : Node) : Prop :=
  forall k,
    match n with
    | Element _ _ _ => everyNode namedNode (fst (extractItem uuid n k))
    | _ => True
    end.

(** [pat] cannot start inside a text and run into a copy of itself that
    follows the text. *)
Definition noOverlap (pat : str) : Prop :=
  forall a x, a <> [] -> startsWith pat a = false -> startsWith pat (a ++ pat ++ x) = false.

(** ** What the parser makes of a printed document *)

(** A character an attribute value between double quotes can hold. *)
Definition attrRawChar (c : ascii) : bool :=
  isXmlChar c && negb (Ascii.eqb c "<") && negb (Ascii.eqb c "&") && negb (Ascii.eqb c "034").

Definition attributeFits (a : str * str) : bool :=
  nameOk (fst a) && forallb attrRawChar (snd a).

(** A token whose print the parser accepts. *)
Definition tokenFits (t : Token) : bool :=
  match t with
  | TOpen tag attrs =>
      nameOk tag && forallb attributeFits attrs && negb (hasDuplicate (map fst attrs))
  | TEmpty _ _ => false
  | TClose tag => nameOk tag
  | TText d => match d with [] => false | _ :: _ => forallb isXmlChar d end
  | TCData d => forallb isXmlChar d && negb (includes d "]]>")
  end.

(** The same without carriage returns: what is left of a fitting token once
    the line ends are normalised. *)
Definition attrPlainChar (c : ascii) : bool :=
  plainChar c && negb (Ascii.eqb c "<") && negb (Ascii.eqb c "&") && negb (Ascii.eqb c "034").

Definition attributeReadable (a : str * str) : bool :=
  nameOk (fst a) && forallb attrPlainChar (snd a).

Definition tokenReadable (t : Token) : bool :=
  match t with
  | TOpen tag attrs =>
      nameOk tag && forallb attributeReadable attrs && negb (hasDuplicate (map fst attrs))
  | _ => tokenOk t
  end.

(** Every token satisfies [ok], and every text is followed by a token that
    is not a text. *)
Fixpoint sealedBy (ok : Token -> bool) (toks : list Token) : bool :=
  match toks with
  | [] => true
  | t :: rest =>
      ok t
      && (if isText t
          then match rest with
               | [] => false
               | t' :: _ => negb (isText t')
               end
          else true)
      && sealedBy ok rest
  end.

Definition lineAttribute (a : str * str) : str * str := (fst a, normalizeLineEnds (snd a)).

Definition spaceAttribute (a : str * str) : str * str := (fst a, map normalizeSpace (snd a)).

(** The token with its line ends normalised. *)
Definition lineToken (t : Token) : Token :=
  match t with
  | TOpen tag attrs => TOpen tag (map lineAttribute attrs)
  | TEmpty tag attrs => TEmpty tag (map lineAttribute attrs)
  | TClose tag => TClose tag
  | TText d => TText (normalizeLineEnds d)
  | TCData d => TCData (normalizeLineEnds d)
  end.

(** The token with the white space of its attribute values normalised. *)
Definition spaceToken (t : Token) : Token :=
  match t with
  | TOpen tag attrs => TOpen tag (map spaceAttribute attrs)
  | TEmpty tag attrs => TEmpty tag (map spaceAttribute attrs)
  | _ => t
  end.

(** The attribute as the parser gives it back. *)
Definition normalAttribute (a : str * str) : str * str :=
  (fst a, map normalizeSpace (normalizeLineEnds (snd a))).

(** The document the parser gives back for the print of a document: line
    ends normalised everywhere, white space normalised in attribute values. *)
Fixpoint normalNode (n : Node) : Node :=
  match n with
  | Element tag attrs kids =>
      Element tag (map normalAttribute attrs)
        ((fix each (ns : list Node) : list Node :=
            match ns with
            | [] => []
            | k :: rest => normalNode k :: each rest
            end) kids)
  | Text d => Text (normalizeLineEnds d)
  | CDATASection d => CDATASection (normalizeLineEnds d)
  end.

Definition notLineFeedFirst (s : str) : bool :=
  match s with
  | c :: _ => negb (Ascii.eqb c "010")
  | [] => true
  end.

(** ** The trees whose text is well-formed, and those that come back *)

Definition propertyFits (entry : str * JsValue) : bool :=
  match snd entry with
  | VString s => forallb attrRawChar (fst entry) && forallb isXmlChar s
  | VNumber _ => forallb attrRawChar (fst entry)
  | VBoolean _ => forallb attrRawChar (fst entry)
  | VNull => true
  | VUndefined => true
  | VObject _ => true
  end.

(** At every node: the name, the emitted source and the text properties are
    made of characters XML allows; so are the class name and the names of
    the properties that are written, which hold no ['<'], no ['&'] and no
    double quote; the emitted source is free of the CDATA terminator. *)
Fixpoint encodable (item : RobloxAsset) : bool :=
  forallb isXmlChar (name item)
  && forallb attrRawChar (className item)
  && (if emitsSource item
      then forallb isXmlChar (sourceText item) && negb (includes (sourceText item) "]]>")
      else true)
  && forallb propertyFits (entriesOf item)
  && (fix all (items : list RobloxAsset) : bool :=
        match items with
        | [] => true
        | child :: rest => encodable child && all rest
        end) (children item).

(** The same, and what the parser would change in a name, a class name or
    a source is not there: no carriage return in the name and in the emitted
    source, no tab, line feed or carriage return in the class name. *)
Fixpoint carried (item : RobloxAsset) : bool :=
  forallb plainChar (name item)
  && forallb attrValueChar (className item)
  && (if emitsSource item
      then forallb plainChar (sourceText item) && negb (includes (sourceText item) "]]>")
      else true)
  && forallb propertyFits (entriesOf item)
  && (fix all (items : list RobloxAsset) : bool :=
        match items with
        | [] => true
        | child :: rest => carried child && all rest
        end) (children item).

Definition fittingItem (random : RandomSource) (item : RobloxAsset) : Prop :=
  encodable item = true ->
  forall depth calls, sealedBy tokenFits (tokensOf (itemNode random item depth calls)) = true.

(** The entry as the parser gives it back. *)
Definition normalEntry (entry : str * JsValue) : str * JsValue :=
  (map normalizeSpace (normalizeLineEnds (fst entry)),
   match snd entry with
   | VString s => VString (normalizeLineEnds s)
   | value => value
   end).

(** The tree with its properties as the parser gives them back. *)
Fixpoint normalProperties (item : RobloxAsset) : RobloxAsset :=
  mkAsset (id item) (name item) (className item) (source item)
    ((fix each (items : list RobloxAsset) : list RobloxAsset :=
        match items with
        | [] => []
        | child :: rest => normalProperties child :: each rest
        end) (children item))
    (option_map (map normalEntry) (properties item)).

Definition normalItem (random : RandomSource) (item : RobloxAsset) : Prop :=
  carried item = true ->
  forall depth calls,
    normalNode (itemNode random item depth calls)
    = itemNode random (normalProperties item) depth calls.

(** * Properties *)

Arguments Ascii.eqb : simpl never.
Arguments code : simpl never.
Arguments isXmlChar : simpl never.
Arguments isSpace : simpl never.
Arguments isNameStart : simpl never.
Arguments isNameChar : simpl never.
Arguments plainChar : simpl never.
Arguments attrValueChar : simpl never.
Arguments literalChar : simpl never.

(** Tests on literal characters are settled by evaluation. *)
Ltac eval_bool t :=
  let v := eval vm_compute in t in
  lazymatch v with
  | true => change t with true
  | false => change t with false
  end.

Ltac chars :=
  repeat match goal with
         | |- context [Ascii.eqb ?a ?b] => progress eval_bool (Ascii.eqb a b)
         | |- context [isSpace ?a] => progress eval_bool (isSpace a)
         | |- context [isNameStart ?a] => progress eval_bool (isNameStart a)
         | |- context [isNameChar ?a] => progress eval_bool (isNameChar a)
         | |- context [isXmlChar ?a] => progress eval_bool (isXmlChar a)
         | |- context [plainChar ?a] => progress eval_bool (plainChar a)
         | |- context [attrValueChar ?a] => progress eval_bool (attrValueChar a)
         | |- context [literalChar ?a] => progress eval_bool (literalChar a)
         end.

(** ** Strings and characters *)

Lemma str_eqb_refl (a : str) : (a =? a) = true.
Proof.
  induction a as [|c a IH]; simpl; [reflexivity|].
  now rewrite Ascii.eqb_refl.
Qed.

Lemma str_eqb_eq (a b : str) : (a =? b) = true <-> a = b.
Proof.
  split.
  - revert b; induction a as [|x a IH]; intros [|y b]; simpl; try discriminate; auto.
    intros H. apply andb_true_iff in H as [Hc Hr].
    apply Ascii.eqb_eq in Hc. f_equal; auto.
  - intros ->. apply str_eqb_refl.
Qed.

Lemma span_length (p : ascii -> bool) (s : str) :
  length (snd (span p s)) <= length s.
Proof.
  induction s as [|c s IH]; simpl; [lia|].
  destruct (p c); simpl; [|lia].
  destruct (span p s); simpl in *; lia.
Qed.

Lemma span_app (p : ascii -> bool) (a r : str) :
  forallb p a = true ->
  match r with [] => True | c :: _ => p c = false end ->
  span p (a ++ r) = (a, r).
Proof.
  intros Ha Hr. induction a as [|c a IH]; simpl in *.
  - destruct r as [|c r]; [reflexivity|]. simpl. now rewrite Hr.
  - apply andb_true_iff in Ha as [Hc Ha]. rewrite Hc, (IH Ha). reflexivity.
Qed.

Lemma skipn_length_le (A : Type) (n : nat) (l : list A) : length (skipn n l) <= length l.
Proof. rewrite length_skipn. lia. Qed.

Lemma includes_head (pat : str) (c : ascii) (s : str) :
  includes (c :: s) pat = startsWith pat (c :: s) || includes s pat.
Proof. reflexivity. Qed.

(** ** The scanner combinator *)

Section ManyFacts.
Variable A : Type.
Variable step : str -> option (option (A * str)).
Hypothesis step_consumes :
  forall s a r, step s = Some (Some (a, r)) -> length r < length s.

Lemma many_fuel_enough (n m : nat) (s : str) :
  length s < n -> length s < m -> many_fuel step n s = many_fuel step m s.
Proof.
  revert m s. induction n as [|n IH]; intros m s Hn Hm; [lia|].
  destruct m as [|m]; [lia|]. simpl.
  destruct (step s) as [[[a r]|]|] eqn:E; try reflexivity.
  apply step_consumes in E.
  rewrite (IH m r) by lia. reflexivity.
Qed.

Lemma many_unfold (s : str) :
  many step s =
  match step s with
  | None => None
  | Some None => Some ([], s)
  | Some (Some (a, r)) =>
      match many step r with
      | Some (l, r') => Some (a :: l, r')
      | None => None
      end
  end.
Proof.
  unfold many at 1. simpl.
  destruct (step s) as [[[a r]|]|] eqn:E; try reflexivity.
  apply step_consumes in E. unfold many.
  rewrite (many_fuel_enough (n := length s) (m := S (length r))) by lia.
  reflexivity.
Qed.

Lemma many_rest_length (s : str) (l : list A) (r : str) :
  many step s = Some (l, r) -> length r <= length s.
Proof.
  unfold many. generalize (S (length s)) as n. intros n; revert s l r.
  induction n as [|n IH]; intros s l r; simpl; [discriminate|].
  destruct (step s) as [[[a r1]|]|] eqn:E; try discriminate.
  - destruct (many_fuel step n r1) as [[l1 r2]|] eqn:E2; try discriminate.
    intros H; injection H as <- <-.
    apply IH in E2. apply step_consumes in E. lia.
  - intros H; injection H as <- <-. lia.
Qed.
End ManyFacts.

Arguments many_unfold {A step} step_consumes s.
Arguments many_rest_length {A step} step_consumes s l r.

Lemma reference_step_consumes (s : str) (a : ascii) (r : str) :
  reference_step s = Some (Some (a, r)) -> length r < length s.
Proof.
  destruct s as [|c s]; [discriminate|]. unfold reference_step.
  destruct (Ascii.eqb c "&").
  - destruct (find _ entities) as [[n ch]|]; [|discriminate].
    intros H; injection H as <- <-.
    pose proof (skipn_length_le (length n) s). simpl. lia.
  - intros H; injection H as <- <-. simpl. lia.
Qed.

Lemma lexName_consumes (s k r : str) :
  lexName s = Some (k, r) -> length r < length s.
Proof.
  destruct s as [|c s]; simpl; [discriminate|].
  destruct (isNameStart c) eqn:E; [|discriminate].
  unfold isNameChar. rewrite E. simpl.
  pose proof (span_length isNameChar s) as H. unfold isNameChar in H.
  destruct (span _ s) as [a b]. simpl in H.
  intros H1; injection H1 as <- <-. lia.
Qed.

Lemma skipSpace_length (s : str) : length (skipSpace s) <= length s.
Proof. apply span_length. Qed.

Lemma attribute_step_consumes (s : str) (a : str * str) (r : str) :
  attribute_step s = Some (Some (a, r)) -> length r < length s.
Proof.
  unfold attribute_step.
  pose proof (span_length isSpace s) as Hw.
  destruct (span isSpace s) as [w r0]. simpl in Hw.
  destruct (lexName r0) as [[k r1]|] eqn:En; [|discriminate].
  apply lexName_consumes in En.
  destruct w; [discriminate|].
  pose proof (skipSpace_length r1) as H1.
  destruct (skipSpace r1) as [|e r3]; [discriminate|].
  destruct (Ascii.eqb e "="); [|discriminate].
  pose proof (skipSpace_length r3) as H3.
  destruct (skipSpace r3) as [|q r5]; [discriminate|].
  destruct (_ || _); [|discriminate].
  pose proof (span_length (fun c => negb (Ascii.eqb c q)) r5) as H5.
  destruct (span _ r5) as [v r6]. simpl in H5.
  destruct r6 as [|c6 r7]; [discriminate|].
  destruct (existsb _ v); [discriminate|].
  destruct (expandReferences _); [|discriminate].
  intros H; injection H as <- <-. simpl in *. lia.
Qed.

Lemma splitAtCdataEnd_length (s d r : str) :
  splitAtCdataEnd s = Some (d, r) -> length r <= length s.
Proof.
  revert d r. induction s as [|c s IH]; intros d r.
  - simpl. discriminate.
  - cbn [splitAtCdataEnd].
    destruct (startsWith "]]>" (c :: s)).
    + intros H; injection H as <- <-. apply (skipn_length_le 3 (c :: s)).
    + destruct (splitAtCdataEnd s) as [[d1 r1]|]; [|discriminate].
      intros H; injection H as <- <-. specialize (IH _ _ eq_refl). simpl. lia.
Qed.

Ltac len_crush :=
  repeat match goal with
         | |- context [match ?l with [] => _ | _ :: _ => _ end] => destruct l
         end;
  simpl in *; lia.

Lemma token_step_consumes (s : str) (t : Token) (r : str) :
  token_step s = Some (Some (t, r)) -> length r < length s.
Proof.
  destruct s as [|c s]; [discriminate|].
  unfold token_step.
  destruct (Ascii.eqb c "<") eqn:Ec.
  - destruct (startsWith "/" s).
    + destruct (lexName (skipn 1 s)) as [[tag r1]|] eqn:En; [|discriminate].
      apply lexName_consumes in En.
      destruct (startsWith ">" (skipSpace r1)); [|discriminate].
      intros H; injection H as <- <-.
      pose proof (skipn_length_le 1 (skipSpace r1)).
      pose proof (skipSpace_length r1).
      pose proof (skipn_length_le 1 s). len_crush.
    + destruct (startsWith "![CDATA[" s).
      * destruct (splitAtCdataEnd (skipn 8 s)) as [[d r1]|] eqn:Es; [|discriminate].
        apply splitAtCdataEnd_length in Es.
        intros H; injection H as <- <-.
        pose proof (skipn_length_le 8 s). len_crush.
      * destruct (lexName s) as [[tag r1]|] eqn:En; [|discriminate].
        apply lexName_consumes in En.
        destruct (many attribute_step r1) as [[attrs r2]|] eqn:Em; [|discriminate].
        apply (many_rest_length attribute_step_consumes) in Em.
        pose proof (skipSpace_length r2).
        destruct (hasDuplicate _); [discriminate|].
        destruct (startsWith ">" (skipSpace r2)).
        -- intros H1; injection H1 as <- <-.
           pose proof (skipn_length_le 1 (skipSpace r2)). len_crush.
        -- destruct (startsWith "/>" (skipSpace r2)); [|discriminate].
           intros H1; injection H1 as <- <-.
           pose proof (skipn_length_le 2 (skipSpace r2)). len_crush.
  - cbn [span]. rewrite Ec. cbn [negb].
    pose proof (span_length (fun c0 => negb (Ascii.eqb c0 "<")) s) as Hs.
    destruct (span _ s) as [t1 r1]. simpl in Hs.
    destruct (includes _ _); [discriminate|].
    destruct (expandReferences _); [|discriminate].
    intros H; injection H as <- <-. len_crush.
Qed.

(** ** Reading back what was printed *)

Lemma startsWith_forallb (q : ascii -> bool) (p s : str) :
  startsWith p s = true -> forallb q s = true -> forallb q p = true.
Proof.
  revert s; induction p as [|x p IH]; intros [|y s]; simpl; try discriminate; auto.
  intros H Hq. apply andb_true_iff in H as [Hx Hp]. apply andb_true_iff in Hq as [Hy Hs].
  apply Ascii.eqb_eq in Hx. subst y. rewrite Hy. simpl. eauto.
Qed.

Lemma includes_false (q : ascii -> bool) (s pat : str) :
  forallb q s = true -> forallb q pat = false -> includes s pat = false.
Proof.
  intros Hs Hp. induction s as [|c s IH].
  - simpl. destruct (startsWith pat []) eqn:E; [|reflexivity].
    apply (startsWith_forallb q) in E; [congruence|reflexivity].
  - cbn [includes]. destruct (startsWith pat (c :: s)) eqn:E.
    + apply (startsWith_forallb q) in E; [congruence|assumption].
    + simpl in Hs. apply andb_true_iff in Hs as [_ Hs]. simpl. auto.
Qed.

Lemma forallb_flat_map (q : ascii -> bool) (f : ascii -> str) (s : str) :
  (forall c, In c s -> forallb q (f c) = true) -> forallb q (flat_map f s) = true.
Proof.
  induction s as [|c s IH]; intros H; simpl; [reflexivity|].
  rewrite forallb_app, H, IH; auto using in_eq, in_cons.
Qed.

Lemma escapeChar_cases (c : ascii) :
  (c = "<"%char /\ escapeChar c = "&lt;") \/
  (c = ">"%char /\ escapeChar c = "&gt;") \/
  (c = "&"%char /\ escapeChar c = "&amp;") \/
  (c = "034"%char /\ escapeChar c = "&quot;") \/
  (c = "'"%char /\ escapeChar c = "&apos;") \/
  (Ascii.eqb c "<" = false /\ Ascii.eqb c ">" = false /\ Ascii.eqb c "&" = false /\
   Ascii.eqb c "034" = false /\ Ascii.eqb c "'" = false /\ escapeChar c = [c]).
Proof.
  unfold escapeChar.
  destruct (Ascii.eqb c "<") eqn:E1; [apply Ascii.eqb_eq in E1; auto|].
  destruct (Ascii.eqb c ">") eqn:E2; [apply Ascii.eqb_eq in E2; auto|].
  destruct (Ascii.eqb c "&") eqn:E3; [apply Ascii.eqb_eq in E3; auto 6|].
  destruct (Ascii.eqb c "034") eqn:E4; [apply Ascii.eqb_eq in E4; auto 7|].
  destruct (Ascii.eqb c "'") eqn:E5; [apply Ascii.eqb_eq in E5; auto 8|].
  do 5 right. auto 10.
Qed.

Lemma reference_step_escape (c : ascii) (r : str) :
  reference_step (escapeChar c ++ r) = Some (Some (c, r)).
Proof.
  destruct (escapeChar_cases c) as [[-> ->]|[[-> ->]|[[-> ->]|[[-> ->]|[[-> ->]|H]]]]];
    try reflexivity.
  destruct H as (_ & _ & E & _ & _ & ->). simpl. now rewrite E.
Qed.

Lemma many_reference_escape (d : str) :
  many reference_step (flat_map escapeChar d) = Some (d, []).
Proof.
  induction d as [|c d IH]; rewrite (many_unfold reference_step_consumes).
  - reflexivity.
  - cbn [flat_map]. rewrite reference_step_escape, IH. reflexivity.
Qed.

Lemma expandReferences_escape (d : str) :
  expandReferences (flat_map escapeChar d) = Some d.
Proof. unfold expandReferences. now rewrite many_reference_escape. Qed.

Lemma escape_plain (s : str) :
  forallb (fun c => negb (Ascii.eqb c "<") && negb (Ascii.eqb c ">") && negb (Ascii.eqb c "&")
                    && negb (Ascii.eqb c "034") && negb (Ascii.eqb c "'")) s = true ->
  flat_map escapeChar s = s.
Proof.
  induction s as [|c s IH]; simpl; [reflexivity|].
  intros H. apply andb_true_iff in H as [Hc Hs]. rewrite (IH Hs).
  unfold escapeChar.
  repeat (apply andb_true_iff in Hc as [Hc ?]).
  repeat match goal with H : negb ?b = true |- _ => apply negb_true_iff in H; rewrite H end.
  reflexivity.
Qed.

Lemma expandReferences_plain (s : str) :
  forallb (fun c => negb (Ascii.eqb c "&")) s = true -> expandReferences s = Some s.
Proof.
  intros H. unfold expandReferences.
  assert (many reference_step s = Some (s, [])) as ->; [|reflexivity].
  induction s as [|c s IH]; rewrite (many_unfold reference_step_consumes); [reflexivity|].
  simpl in H. apply andb_true_iff in H as [Hc Hs]. apply negb_true_iff in Hc.
  simpl. rewrite Hc, (IH Hs). reflexivity.
Qed.

Lemma escapeChar_no_lt (c : ascii) :
  forallb (fun x => negb (Ascii.eqb x "<")) (escapeChar c) = true.
Proof.
  destruct (escapeChar_cases c) as [[-> ->]|[[-> ->]|[[-> ->]|[[-> ->]|[[-> ->]|H]]]]];
    try reflexivity.
  destruct H as (E & _ & _ & _ & _ & ->). simpl. now rewrite E.
Qed.

Lemma escapeChar_no_gt (c : ascii) :
  forallb (fun x => negb (Ascii.eqb x ">")) (escapeChar c) = true.
Proof.
  destruct (escapeChar_cases c) as [[-> ->]|[[-> ->]|[[-> ->]|[[-> ->]|[[-> ->]|H]]]]];
    try reflexivity.
  destruct H as (_ & E & _ & _ & _ & ->). simpl. now rewrite E.
Qed.

Lemma escape_head (c : ascii) (d r : str) :
  exists c0 rest,
    flat_map escapeChar (c :: d) ++ r = c0 :: rest /\ Ascii.eqb c0 "<" = false.
Proof.
  cbn [flat_map].
  destruct (escapeChar_cases c) as [[-> ->]|[[-> ->]|[[-> ->]|[[-> ->]|[[-> ->]|H]]]]];
    try (eexists _, _; split; reflexivity).
  destruct H as (E & _ & _ & _ & _ & ->). eexists _, _; split; [reflexivity|exact E].
Qed.

Lemma splitAtCdataEnd_app (d r : str) :
  includes d "]]>" = false -> splitAtCdataEnd (d ++ "]]>" ++ r) = Some (d, r).
Proof.
  induction d as [|c d IH]; intros H.
  - reflexivity.
  - cbn [includes] in H. apply orb_false_iff in H as [H1 H2].
    specialize (IH H2).
    change ((c :: d) ++ "]]>" ++ r) with (c :: d ++ "]]>" ++ r).
    cbn [splitAtCdataEnd]. rewrite IH.
    assert (startsWith "]]>" (c :: d ++ "]]>" ++ r) = false) as ->; [|reflexivity].
    destruct d as [|x [|y d]]; simpl in *; chars.
    + destruct (Ascii.eqb "]" c); reflexivity.
    + destruct (Ascii.eqb "]" c); [|reflexivity]. destruct (Ascii.eqb "]" x); reflexivity.
    + exact H1.
Qed.

Lemma nameStart_nameChar (c : ascii) : isNameStart c = true -> isNameChar c = true.
Proof. intros H. unfold isNameChar. now rewrite H. Qed.

Lemma lexName_app (tag rest : str) :
  nameOk tag = true ->
  match rest with [] => True | c :: _ => isNameChar c = false end ->
  lexName (tag ++ rest) = Some (tag, rest).
Proof.
  destruct tag as [|c tag]; [discriminate|]. simpl. intros H Hr.
  apply andb_true_iff in H as [Hc Ht]. rewrite Hc.
  rewrite (nameStart_nameChar _ Hc), (span_app isNameChar tag rest Ht Hr). reflexivity.
Qed.

Ltac all_chars c :=
  destruct c as [[|] [|] [|] [|] [|] [|] [|] [|]]; vm_compute; intuition congruence.

Lemma forallb_imp (p q : ascii -> bool) (s : str) :
  (forall c, p c = true -> q c = true) -> forallb p s = true -> forallb q s = true.
Proof.
  intros H. induction s as [|c s IH]; simpl; [reflexivity|].
  intros Hs. apply andb_true_iff in Hs as [Hc Hs]. rewrite (H _ Hc). auto.
Qed.

Lemma nameChar_facts (c : ascii) :
  isNameChar c = true ->
  isSpace c = false /\ Ascii.eqb c "=" = false /\ Ascii.eqb c ">" = false
  /\ Ascii.eqb "/" c = false /\ Ascii.eqb "!" c = false /\ Ascii.eqb c "<" = false
  /\ plainChar c = true.
Proof. all_chars c. Qed.

Lemma attrValueChar_facts (c : ascii) :
  attrValueChar c = true ->
  normalizeSpace c = c /\ negb (Ascii.eqb c "034") = true /\ Ascii.eqb "<" c = false
  /\ negb (Ascii.eqb c "&") = true /\ plainChar c = true.
Proof. all_chars c. Qed.

Lemma span_stop (p : ascii -> bool) (c : ascii) (r : str) :
  p c = false -> span p (c :: r) = ([], c :: r).
Proof. intros H. simpl. now rewrite H. Qed.

Lemma attribute_step_print (a : str * str) (rest : str) :
  attributeOk a = true ->
  attribute_step (printAttribute a ++ rest) = Some (Some (a, rest)).
Proof.
  destruct a as [k v]. unfold attributeOk, printAttribute. cbn [fst snd].
  intros H. apply andb_true_iff in H as [Hk Hv].
  repeat rewrite <- app_assoc. cbn [app dq].
  unfold attribute_step. cbn [span]. chars.
  assert (Hh : exists c k', k = c :: k' /\ isNameChar c = true).
  { destruct k as [|c k']; [discriminate|]. exists c, k'. split; [reflexivity|].
    simpl in Hk. apply andb_true_iff in Hk as [Hc _]. now apply nameStart_nameChar. }
  destruct Hh as (c & k' & Ek & Hc).
  assert (Hsp : span isSpace (k ++ "="%char :: "034"%char :: v ++ "034"%char :: rest)
                = ([], k ++ "="%char :: "034"%char :: v ++ "034"%char :: rest)).
  { rewrite Ek. cbn [app]. apply span_stop. now apply nameChar_facts. }
  rewrite Hsp.
  rewrite lexName_app; [|exact Hk|now chars].
  unfold skipSpace. repeat (progress (cbn [span snd orb]; chars)).
  rewrite (span_app _ v ("034"%char :: rest)).
  - assert (existsb (Ascii.eqb "<") v = false) as ->.
    { clear -Hv. induction v as [|x v IH]; simpl in *; [reflexivity|].
      apply andb_true_iff in Hv as [Hx Hv].
      apply attrValueChar_facts in Hx as (_ & _ & -> & _). auto. }
    assert (map normalizeSpace v = v) as ->.
    { clear -Hv. induction v as [|x v IH]; simpl in *; [reflexivity|].
      apply andb_true_iff in Hv as [Hx Hv].
      apply attrValueChar_facts in Hx as (-> & _). now rewrite IH. }
    rewrite expandReferences_plain; [reflexivity|].
    revert Hv. apply forallb_imp. intros x Hx. now apply attrValueChar_facts in Hx.
  - revert Hv. apply forallb_imp. intros x Hx. now apply attrValueChar_facts in Hx.
  - now chars.
Qed.

Lemma many_attribute_print (attrs : list (str * str)) (rest : str) :
  forallb attributeOk attrs = true ->
  attribute_step rest = Some None ->
  many attribute_step (printAttributes attrs ++ rest) = Some (attrs, rest).
Proof.
  intros H Hr. induction attrs as [|a attrs IH];
    rewrite (many_unfold attribute_step_consumes).
  - simpl. now rewrite Hr.
  - simpl in H. apply andb_true_iff in H as [Ha H].
    unfold printAttributes. cbn [flat_map]. rewrite <- app_assoc.
    rewrite (attribute_step_print _ _ Ha).
    fold (printAttributes attrs). now rewrite (IH H).
Qed.

Lemma nameOk_head (tag : str) :
  nameOk tag = true -> exists c t, tag = c :: t /\ isNameChar c = true.
Proof.
  destruct tag as [|c t]; [discriminate|]. simpl. intros H.
  apply andb_true_iff in H as [Hc _]. exists c, t. split; [reflexivity|].
  now apply nameStart_nameChar.
Qed.

Lemma token_step_print (t : Token) (r : str) :
  tokenOk t = true ->
  (isText t = true -> match r with [] => True | c :: _ => c = "<"%char end) ->
  token_step (printToken t ++ r) = Some (Some (t, r)).
Proof.
  destruct t as [tag attrs|tag attrs|tag|d|d]; cbn [tokenOk printToken isText];
    intros Hok Hr; try discriminate.
  - (* start tag *)
    apply andb_true_iff in Hok as [Hok Hdup]. apply andb_true_iff in Hok as [Htag Hattrs].
    apply negb_true_iff in Hdup.
    destruct (nameOk_head _ Htag) as (c & t & Et & Hc).
    destruct (nameChar_facts _ Hc) as (_ & _ & _ & Hs & Hb & _).
    repeat rewrite <- app_assoc. cbn [app].
    unfold token_step. chars. cbn match.
    assert (forall x, startsWith "/" (tag ++ x) = false) as ->.
    { intros x. rewrite Et. cbn [app startsWith]. now rewrite Hs. }
    assert (forall x, startsWith "![CDATA[" (tag ++ x) = false) as ->.
    { intros x. rewrite Et. cbn [app startsWith]. now rewrite Hb. }
    rewrite lexName_app; [|exact Htag|].
    + rewrite many_attribute_print; [|exact Hattrs|reflexivity].
      rewrite Hdup. reflexivity.
    + destruct attrs as [|a attrs]; cbn; now chars.
  - (* end tag *)
    repeat rewrite <- app_assoc.
    cbn [app]. unfold token_step. chars. cbn [startsWith]. chars. cbn [andb skipn].
    rewrite lexName_app; [|exact Hok|now chars]. reflexivity.
  - (* character data *)
    destruct d as [|c d]; [discriminate|].
    destruct (escape_head c d r) as (c0 & rest & E & Hc0).
    unfold token_step. rewrite E, Hc0. rewrite <- E.
    rewrite span_app.
    + rewrite (includes_false (fun x => negb (Ascii.eqb x ">"))); [| |reflexivity].
      * now rewrite expandReferences_escape.
      * apply forallb_flat_map. intros x _. apply escapeChar_no_gt.
    + apply forallb_flat_map. intros x _. apply escapeChar_no_lt.
    + specialize (Hr eq_refl). destruct r as [|x r]; [exact I|]. subst x. reflexivity.
  - (* CDATA section *)
    apply andb_true_iff in Hok as [_ Hok]. apply negb_true_iff in Hok.
    repeat rewrite <- app_assoc.
    cbn [app]. unfold token_step. chars. cbn [startsWith]. chars. cbn [andb skipn].
    change ("]"%char :: "]"%char :: ">"%char :: r) with ("]]>" ++ r).
    now rewrite splitAtCdataEnd_app.
Qed.

Lemma printToken_head (t : Token) (rest : str) :
  tokenOk t = true -> isText t = false ->
  exists r, printToken t ++ rest = "<"%char :: r.
Proof.
  destruct t; cbn [tokenOk isText printToken]; try discriminate; intros _ _;
    cbn [app]; eauto.
Qed.

Lemma many_token_print (toks : list Token) :
  tokensOk toks = true ->
  many token_step (flat_map printToken toks) = Some (toks, []).
Proof.
  induction toks as [|t toks IH]; intros H;
    rewrite (many_unfold token_step_consumes); [reflexivity|].
  cbn [tokensOk] in H. apply andb_true_iff in H as [H Hrest].
  apply andb_true_iff in H as [Ht Hadj]. apply negb_true_iff in Hadj.
  cbn [flat_map]. rewrite (token_step_print _ _ Ht).
  - now rewrite (IH Hrest).
  - intros Htext. rewrite Htext in Hadj. cbn [andb] in Hadj.
    destruct toks as [|t' toks]; [exact I|].
    cbn [startsText] in Hadj. cbn [tokensOk] in Hrest.
    apply andb_true_iff in Hrest as [Hrest _]. apply andb_true_iff in Hrest as [Ht' _].
    cbn [flat_map].
    destruct (printToken_head t' (flat_map printToken toks) Ht' Hadj) as [x Ex].
    rewrite Ex. reflexivity.
Qed.

Lemma tokenize_print (toks : list Token) :
  tokensOk toks = true -> tokenize (flat_map printToken toks) = Some toks.
Proof. intros H. unfold tokenize. now rewrite many_token_print. Qed.

(** ** Building the tree back from the tokens *)

Lemma Node_induction (P : Node -> Prop) :
  (forall tag attrs kids, Forall P kids -> P (Element tag attrs kids)) ->
  (forall d, P (Text d)) ->
  (forall d, P (CDATASection d)) ->
  forall n, P n.
Proof.
  intros He Ht Hc.
  refine (fix IH (n : Node) : P n :=
            match n with
            | Element tag attrs kids =>
                He tag attrs kids
                  ((fix go (ks : list Node) : Forall P ks :=
                      match ks with
                      | [] => Forall_nil P
                      | k :: rest => Forall_cons k (IH k) (go rest)
                      end) kids)
            | Text d => Ht d
            | CDATASection d => Hc d
            end).
Qed.

Lemma build_kids (kids : list Node) :
  Forall builds kids ->
  forall rest tag attrs acc fs root,
    build (flat_map tokensOf kids ++ rest) ((tag, attrs, acc) :: fs) root
    = build rest ((tag, attrs, rev kids ++ acc) :: fs) root.
Proof.
  induction 1 as [|k ks Hk _ IH]; intros rest tag attrs acc fs root; [reflexivity|].
  cbn [flat_map rev]. repeat rewrite <- app_assoc. rewrite Hk. cbn [addChild].
  rewrite IH. reflexivity.
Qed.

Lemma build_node (n : Node) : builds n.
Proof.
  induction n as [tag attrs kids IH|d|d] using Node_induction;
    intros rest f fs root; try reflexivity.
  cbn [tokensOf app build]. rewrite <- app_assoc.
  rewrite (build_kids IH). cbn [app build]. rewrite str_eqb_refl.
  rewrite app_nil_r, rev_involutive. reflexivity.
Qed.

Lemma build_root (tag : str) (attrs : list (str * str)) (kids : list Node) (rest : list Token) :
  build (tokensOf (Element tag attrs kids) ++ rest) [] None
  = build rest [] (Some (Element tag attrs kids)).
Proof.
  cbn [tokensOf app build]. rewrite <- app_assoc.
  rewrite (build_kids (proj2 (Forall_forall builds kids) (fun n _ => build_node n))).
  cbn [app build]. rewrite str_eqb_refl.
  rewrite app_nil_r, rev_involutive. reflexivity.
Qed.

(** ** Documents made of plain characters *)

Lemma plain_xmlChar (s : str) : forallb plainChar s = true -> forallb isXmlChar s = true.
Proof.
  apply forallb_imp. intros c H. unfold plainChar in H. now apply andb_true_iff in H.
Qed.

Lemma plain_not_cr (c : ascii) : plainChar c = true -> Ascii.eqb c "013" = false.
Proof. all_chars c. Qed.

Lemma normalizeLineEnds_plain (s : str) :
  forallb plainChar s = true -> normalizeLineEnds s = s.
Proof.
  induction s as [|c s IH]; simpl; [reflexivity|].
  intros H. apply andb_true_iff in H as [Hc Hs].
  rewrite (plain_not_cr _ Hc), (IH Hs). reflexivity.
Qed.

Lemma escapeChar_plain (c : ascii) :
  plainChar c = true -> forallb plainChar (escapeChar c) = true.
Proof.
  intros H.
  destruct (escapeChar_cases c) as [[-> ->]|[[-> ->]|[[-> ->]|[[-> ->]|[[-> ->]|E]]]]];
    try reflexivity.
  destruct E as (_ & _ & _ & _ & _ & ->). simpl. now rewrite H.
Qed.

Lemma name_plain (s : str) : nameOk s = true -> forallb plainChar s = true.
Proof.
  destruct s as [|c s]; [discriminate|]. simpl. intros H.
  apply andb_true_iff in H as [Hc Hs]. apply nameStart_nameChar in Hc.
  apply nameChar_facts in Hc as (_ & _ & _ & _ & _ & _ & ->). simpl.
  revert Hs. apply forallb_imp. intros x Hx. now apply nameChar_facts in Hx.
Qed.

Lemma attributes_plain (attrs : list (str * str)) :
  forallb attributeOk attrs = true -> forallb plainChar (printAttributes attrs) = true.
Proof.
  induction attrs as [|[k v] attrs IH]; simpl; [reflexivity|].
  intros H. apply andb_true_iff in H as [Ha H].
  unfold attributeOk in Ha. cbn [fst snd] in Ha. apply andb_true_iff in Ha as [Hk Hv].
  unfold printAttribute. cbn [fst snd].
  assert (Hv' : forallb plainChar v = true).
  { revert Hv. apply forallb_imp. intros x Hx. now apply attrValueChar_facts in Hx. }
  repeat rewrite forallb_app. rewrite (name_plain _ Hk), (IH H).
  cbn [forallb]. rewrite forallb_app, Hv'. reflexivity.
Qed.

Lemma token_plain (t : Token) :
  tokenOk t = true -> forallb plainChar (printToken t) = true.
Proof.
  destruct t as [tag attrs|tag attrs|tag|d|d]; cbn [tokenOk printToken]; intros H;
    try discriminate.
  - apply andb_true_iff in H as [H _]. apply andb_true_iff in H as [Ht Ha].
    repeat rewrite forallb_app. now rewrite (name_plain _ Ht), (attributes_plain _ Ha).
  - repeat rewrite forallb_app. now rewrite (name_plain _ H).
  - destruct d as [|c d]; [discriminate|].
    apply forallb_flat_map. intros x Hx. apply escapeChar_plain.
    now apply (proj1 (forallb_forall _ _) H).
  - apply andb_true_iff in H as [H _]. repeat rewrite forallb_app. now rewrite H.
Qed.

Lemma tokens_plain (toks : list Token) :
  tokensOk toks = true -> forallb plainChar (flat_map printToken toks) = true.
Proof.
  induction toks as [|t toks IH]; simpl; [reflexivity|].
  intros H. apply andb_true_iff in H as [H Hr]. apply andb_true_iff in H as [Ht _].
  now rewrite forallb_app, (token_plain _ Ht), (IH Hr).
Qed.

(** ** The parser reads back a serialised document *)

Lemma stripDeclaration_declaration (rest : str) :
  stripDeclaration (xmlDeclaration ++ rest) = Some rest.
Proof.
  change (xmlDeclaration ++ rest)
    with ("<?xml" ++ printAttributes [("version", "1.0"); ("encoding", "UTF-8")]
            ++ "?>" ++ rest).
  unfold stripDeclaration.
  change (startsWith "<?xml" ("<?xml" ++ ?x)) with true. cbn match.
  change (skipn 5 ("<?xml" ++ ?x)) with x.
  rewrite many_attribute_print; reflexivity.
Qed.

Lemma xmlParse_serialize (tag : str) (attrs : list (str * str)) (kids : list Node) :
  tokensOk (tokensOf (Element tag attrs kids)) = true ->
  xmlParse (xmlDeclaration ++ nl ++ serialize (Element tag attrs kids))
  = Some (Element tag attrs kids).
Proof.
  intros H. set (root := Element tag attrs kids) in *.
  assert (Hall : tokensOk (TText nl :: tokensOf root) = true).
  { cbn [tokensOk tokenOk isText startsText]. rewrite H. reflexivity. }
  assert (Hplain : forallb plainChar (xmlDeclaration ++ nl ++ serialize root) = true).
  { rewrite forallb_app. apply andb_true_iff. split; [reflexivity|].
    apply (tokens_plain _ Hall). }
  unfold xmlParse.
  rewrite (plain_xmlChar _ Hplain), (normalizeLineEnds_plain _ Hplain).
  rewrite stripDeclaration_declaration.
  change (nl ++ serialize root) with (flat_map printToken (TText nl :: tokensOf root)).
  rewrite (tokenize_print _ Hall).
  cbn [build]. change (forallb isSpace nl) with true. cbn match.
  rewrite <- (app_nil_r (tokensOf root)). unfold root. rewrite build_root. reflexivity.
Qed.

(** ** Induction on asset trees *)

Lemma RobloxAsset_induction (P : RobloxAsset -> Prop) :
  (forall i n c s ch p, Forall P ch -> P (mkAsset i n c s ch p)) ->
  forall tree, P tree.
Proof.
  intros H.
  refine (fix IH (tree : RobloxAsset) : P tree :=
            match tree with
            | mkAsset i n c s ch p =>
                H i n c s ch p
                  ((fix go (items : list RobloxAsset) : Forall P items :=
                      match items with
                      | [] => Forall_nil P
                      | child :: rest => Forall_cons child (IH child) (go rest)
                      end) ch)
            end).
Qed.

Lemma size_eq (tree : RobloxAsset) :
  size tree = S (list_sum (map size (children tree))).
Proof.
  destruct tree as [i n c s ch p]. cbn [size children]. f_equal.
  induction ch as [|child rest IH]; [reflexivity|]. cbn [map list_sum fold_right].
  now rewrite IH.
Qed.

Lemma representable_eq (item : RobloxAsset) :
  representable item =
  forallb plainChar (name item)
  && forallb attrValueChar (className item)
  && (if emitsSource item
      then forallb plainChar (sourceText item) && negb (includes (sourceText item) "]]>")
      else true)
  && forallb propertyOk (entriesOf item)
  && forallb representable (children item).
Proof.
  destruct item as [i n c s ch p]. reflexivity.
Qed.

Lemma anyEmitsSource_eq (item : RobloxAsset) :
  anyEmitsSource item = emitsSource item || existsb anyEmitsSource (children item).
Proof.
  destruct item as [i n c s ch p]. reflexivity.
Qed.

Lemma everyNode_eq (P : RobloxAsset -> Prop) (tree : RobloxAsset) :
  everyNode P tree <-> P tree /\ Forall (everyNode P) (children tree).
Proof.
  destruct tree as [i n c s ch p]. cbn [everyNode children].
  apply and_iff_compat_l.
  induction ch as [|child rest IH]; [split; auto|].
  split.
  - intros [H1 H2]. constructor; [exact H1|now apply IH].
  - intros H. inversion H; subst. split; [assumption|now apply IH].
Qed.

Lemma generateItem_eq (random : RandomSource) (item : RobloxAsset) (depth calls : nat) :
  generateItem random item depth calls =
  let indent := repeatStr "  " (depth + 1) in
  let referent := "RBX" ++ decimalN (randomReferentNumber random calls) in
  let xml := indent ++ "<Item class=" ++ dq ++ className item ++ dq
               ++ " referent=" ++ dq ++ referent ++ dq ++ ">" ++ nl in
  let xml := xml ++ (indent ++ "  <Properties>" ++ nl) in
  let xml := xml ++ (indent ++ "    <string name=" ++ dq ++ "Name" ++ dq ++ ">"
                       ++ escapeXml (Some (name item)) ++ "</string>" ++ nl) in
  let xml :=
    if emitsSource item
    then xml ++ (indent ++ "    <ProtectedString name=" ++ dq ++ "Source" ++ dq
                   ++ "><![CDATA[" ++ sourceText item ++ "]]></ProtectedString>" ++ nl)
    else xml in
  let xml := fold_left (appendProperty indent) (entriesOf item) xml in
  let xml := xml ++ (indent ++ "  </Properties>" ++ nl) in
  let '(xml, calls) := generateChildren random depth (children item) xml (S calls) in
  (xml ++ (indent ++ "</Item>" ++ nl), calls).
Proof. destruct item as [i n c s ch [p|]]; reflexivity. Qed.

Lemma itemNode_eq (random : RandomSource) (item : RobloxAsset) (depth calls : nat) :
  itemNode random item depth calls =
  let pad := nl ++ repeatStr "  " (depth + 1) in
  Element "Item"
    [("class", className item);
     ("referent", "RBX" ++ decimalN (randomReferentNumber random calls))]
    ([Text (pad ++ "  ");
      Element "Properties" []
        ([Text (pad ++ "    "); Element "string" [("name", "Name")] (textNodes (name item))]
           ++ sourceNodes (pad ++ "    ") item
           ++ propertyNodes (pad ++ "    ") (entriesOf item)
           ++ [Text (pad ++ "  ")])]
       ++ childNodes random depth (children item) (S calls)
       ++ [Text pad]).
Proof. destruct item; reflexivity. Qed.

Lemma extractItem_eq (uuid : UuidSource) (tag : str) (attrs : list (str * str))
    (kids : list Node) (calls : nat) :
  extractItem uuid (Element tag attrs kids) calls =
  let element := Element tag attrs kids in
  let '(children, calls) := extractChildren uuid kids calls in
  ({| id := uuid calls;
      name := match option_map textContent (querySelector element selName) with
              | Some (c :: cs) => c :: cs
              | _ => "Unnamed"
              end;
      className := match getAttribute attrs "class" with
                   | Some (c :: cs) => c :: cs
                   | _ => "Folder"
                   end;
      source := match option_map textContent (querySelector element selSource) with
                | Some (c :: cs) => Some (c :: cs)
                | _ => None
                end;
      children := children;
      properties := None |}, S calls).
Proof. reflexivity. Qed.

Lemma queryNode_eq (sel : Selector) (parentTag : option str) (tag : str)
    (attrs : list (str * str)) (kids : list Node) :
  queryNode sel parentTag (Element tag attrs kids) =
  if matchesSelector sel parentTag tag attrs then Some (Element tag attrs kids)
  else queryNodes sel (Some tag) kids.
Proof.
  cbn [queryNode]. destruct (matchesSelector sel parentTag tag attrs); [reflexivity|].
  induction kids as [|k rest IH]; [reflexivity|].
  cbn [queryNodes]. destruct (queryNode sel (Some tag) k); [reflexivity|exact IH].
Qed.

(** ** The text of the encoder is the serialised document *)

Ltac flatten :=
  repeat rewrite <- app_assoc;
  cbn [app printAttributes printAttribute flat_map fst snd dq nl];
  repeat rewrite <- app_assoc.

Lemma serializeAll_cons (n : Node) (ns : list Node) :
  serializeAll (n :: ns) = serialize n ++ serializeAll ns.
Proof. unfold serializeAll, serialize. cbn [flat_map]. apply flat_map_app. Qed.

Lemma serializeAll_app (a b : list Node) :
  serializeAll (a ++ b) = serializeAll a ++ serializeAll b.
Proof. unfold serializeAll. now rewrite !flat_map_app. Qed.

Lemma serialize_element (tag : str) (attrs : list (str * str)) (kids : list Node) :
  serialize (Element tag attrs kids)
  = "<" ++ tag ++ printAttributes attrs ++ ">" ++ serializeAll kids ++ "</" ++ tag ++ ">".
Proof.
  unfold serialize, serializeAll. cbn [tokensOf flat_map printToken].
  rewrite flat_map_app. cbn [flat_map printToken]. rewrite app_nil_r.
  now repeat rewrite <- app_assoc.
Qed.

Lemma serialize_text (d : str) : serialize (Text d) = flat_map escapeChar d.
Proof. unfold serialize. cbn [tokensOf flat_map printToken]. apply app_nil_r. Qed.

Lemma serialize_cdata (d : str) : serialize (CDATASection d) = "<![CDATA[" ++ d ++ "]]>".
Proof. unfold serialize. cbn [tokensOf flat_map printToken]. apply app_nil_r. Qed.

Lemma space_facts (c : ascii) :
  isSpace c = true ->
  literalChar c = true /\ (Ascii.eqb c "013" = false -> plainChar c = true).
Proof. all_chars c. Qed.

Lemma escape_literal (s : str) :
  forallb literalChar s = true -> flat_map escapeChar s = s.
Proof. apply escape_plain. Qed.

Lemma escapeXml_literal (s : str) :
  forallb literalChar s = true -> escapeXml (Some s) = s.
Proof. destruct s as [|c s]; [reflexivity|]. apply escape_literal. Qed.

Lemma escape_space (s : str) : forallb isSpace s = true -> flat_map escapeChar s = s.
Proof.
  intros H. apply escape_literal. revert H. apply forallb_imp.
  intros c Hc. now apply space_facts in Hc.
Qed.

Lemma spaces_repeat (n : nat) : forallb isSpace (repeatStr "  " n) = true.
Proof. induction n as [|n IH]; [reflexivity|]. unfold repeatStr in *. simpl. now chars. Qed.

Lemma serialize_space (d : str) : forallb isSpace d = true -> serialize (Text d) = d.
Proof. intros H. rewrite serialize_text. now apply escape_space. Qed.

Lemma serialize_textNodes (s : str) : serializeAll (textNodes s) = escapeXml (Some s).
Proof.
  destruct s as [|c s]; [reflexivity|].
  cbn [textNodes]. rewrite serializeAll_cons, serialize_text. apply app_nil_r.
Qed.

Lemma digits_chars (u : Decimal.uint) :
  forallb (fun c => literalChar c && plainChar c) (uintDigits u) = true.
Proof. induction u; simpl; chars; auto. Qed.

Lemma forallb_firstn (A : Type) (p : A -> bool) (n : nat) (l : list A) :
  forallb p l = true -> forallb p (firstn n l) = true.
Proof.
  revert l. induction n as [|n IH]; intros [|x l]; try reflexivity. cbn [firstn forallb].
  intros H. apply andb_true_iff in H as [Hx Hl]. now rewrite Hx, IH.
Qed.

Lemma forallb_skipn (A : Type) (p : A -> bool) (n : nat) (l : list A) :
  forallb p l = true -> forallb p (skipn n l) = true.
Proof.
  revert l. induction n as [|n IH]; intros [|x l]; try reflexivity; [auto|].
  cbn [skipn forallb]. intros H. apply andb_true_iff in H as [_ Hl]. now apply IH.
Qed.

Lemma zeros_chars (count : Z) :
  forallb (fun c => literalChar c && plainChar c) (zeros count) = true.
Proof.
  unfold zeros. induction (Z.to_nat count) as [|m IH]; [reflexivity|].
  cbn [repeat forallb]. now chars.
Qed.

Lemma finite_chars (s : positive) (n : Z) :
  forallb (fun c => literalChar c && plainChar c) (finiteToString s n) = true.
Proof.
  unfold finiteToString. cbv zeta.
  pose proof (digits_chars (N.to_uint (N.pos s))) as Hd. fold (decimalN (N.pos s)) in Hd.
  pose proof (digits_chars (N.to_uint (Z.abs_N (n - 1)))) as He.
  fold (decimalN (Z.abs_N (n - 1))) in He.
  repeat match goal with
         | |- context [if ?b then _ else _] => destruct b
         end;
    repeat rewrite forallb_app;
    rewrite ?Hd, ?He, ?zeros_chars, ?(forallb_firstn _ _ _ Hd), ?(forallb_skipn _ _ _ Hd);
    reflexivity.
Qed.

Lemma number_chars (n : JsNumber) :
  forallb (fun c => literalChar c && plainChar c) (numberToString n) = true.
Proof.
  destruct n as [negative s n| | | |]; try reflexivity.
  cbn [numberToString]. rewrite forallb_app, finite_chars. now destruct negative.
Qed.

Lemma boolean_chars (b : bool) :
  forallb (fun c => literalChar c && plainChar c) (booleanToString b) = true.
Proof. destruct b; reflexivity. Qed.

Lemma forallb_and_l (p q : ascii -> bool) (s : str) :
  forallb (fun c => p c && q c) s = true -> forallb p s = true.
Proof. apply forallb_imp. intros c H. now apply andb_true_iff in H. Qed.

Lemma forallb_and_r (p q : ascii -> bool) (s : str) :
  forallb (fun c => p c && q c) s = true -> forallb q s = true.
Proof. apply forallb_imp. intros c H. now apply andb_true_iff in H. Qed.

Lemma appendProperty_text (indent xml : str) (entry : str * JsValue) :
  appendProperty indent xml entry = xml ++ propertyText indent entry.
Proof.
  destruct entry as [k [s|n|b| | |o]]; unfold appendProperty, propertyText, propertyNode;
    cbn [fst snd]; try (now rewrite app_nil_r);
    rewrite serialize_element, serialize_textNodes; f_equal.
  - now flatten.
  - rewrite (escapeXml_literal _ (forallb_and_l _ _ _ (number_chars n))). now flatten.
  - rewrite (escapeXml_literal _ (forallb_and_l _ _ _ (boolean_chars b))). now flatten.
Qed.

Lemma fold_left_properties (indent : str) (entries : list (str * JsValue)) (xml : str) :
  fold_left (appendProperty indent) entries xml
  = xml ++ flat_map (propertyText indent) entries.
Proof.
  revert xml. induction entries as [|e entries IH]; intros xml; cbn [fold_left flat_map].
  - now rewrite app_nil_r.
  - now rewrite IH, appendProperty_text, <- app_assoc.
Qed.

Lemma properties_shift (indent : str) (entries : list (str * JsValue)) (rest : str) :
  forallb isSpace indent = true ->
  nl ++ flat_map (propertyText indent) entries ++ rest
  = serializeAll (propertyNodes (nl ++ indent ++ "    ") entries) ++ nl ++ rest.
Proof.
  intros Hi. induction entries as [|e entries IH]; [reflexivity|].
  unfold propertyNodes in *. cbn [flat_map]. unfold propertyText at 1.
  destruct (propertyNode e) as [n|].
  - rewrite serializeAll_app, !serializeAll_cons, serialize_space.
    + change (serializeAll []) with (@nil ascii). rewrite app_nil_r.
      repeat rewrite <- app_assoc. rewrite <- IH. now flatten.
    + rewrite !forallb_app, Hi. reflexivity.
  - exact IH.
Qed.

Lemma generateChildren_text (random : RandomSource) (depth : nat) (items : list RobloxAsset) :
  Forall (generates random) items ->
  forall xml calls,
    generateChildren random depth items xml calls
    = (xml ++ childrenText random depth items calls, calls + list_sum (map size items)).
Proof.
  induction 1 as [|child rest Hc _ IH]; intros xml calls; cbn [generateChildren childrenText].
  - now rewrite app_nil_r, Nat.add_0_r.
  - rewrite Hc. fold (generateChildren random depth). rewrite IH.
    change (list_sum (map size (child :: rest)))
      with (size child + list_sum (map size rest)).
    f_equal; [|lia]. now repeat rewrite <- app_assoc.
Qed.

Lemma children_shift (random : RandomSource) (depth : nat) (items : list RobloxAsset)
    (calls : nat) (rest : str) :
  nl ++ childrenText random depth items calls ++ rest
  = serializeAll (childNodes random depth items calls) ++ nl ++ rest.
Proof.
  revert calls. induction items as [|child items IH]; intros calls; [reflexivity|].
  cbn [childrenText childNodes]. fold (childNodes random depth).
  rewrite !serializeAll_cons, serialize_space.
  - repeat rewrite <- app_assoc. now rewrite <- IH.
  - rewrite forallb_app, spaces_repeat. reflexivity.
Qed.

Ltac flatten' := repeat rewrite <- app_assoc; cbn [app]; repeat rewrite <- app_assoc.

Ltac serial :=
  repeat first
    [ rewrite serializeAll_app
    | rewrite serializeAll_cons
    | rewrite serialize_element
    | rewrite serialize_textNodes
    | rewrite serialize_cdata
    | progress change (serializeAll []) with (@nil ascii) ].

Lemma generateItem_serialize (random : RandomSource) (item : RobloxAsset) :
  generates random item.
Proof.
  induction item as [i n c s ch p IH] using RobloxAsset_induction.
  intros depth calls.
  rewrite generateItem_eq, itemNode_eq, size_eq. cbv zeta.
  rewrite fold_left_properties, (generateChildren_text _ IH).
  f_equal; [|cbn [children]; lia].
  pose proof (spaces_repeat (depth + 1)) as Hi.
  set (indent := repeatStr "  " (depth + 1)) in *.
  set (item := mkAsset i n c s ch p).
  unfold sourceNodes. destruct (emitsSource item).
  - serial.
    rewrite !serialize_space by (rewrite ?forallb_app, ?Hi; reflexivity).
    cbn [printAttributes flat_map]. unfold printAttribute. cbn [fst snd]. flatten'.
    rewrite <- children_shift.
    rewrite <- properties_shift by exact Hi.
    flatten'. reflexivity.
  - serial.
    rewrite !serialize_space by (rewrite ?forallb_app, ?Hi; reflexivity).
    cbn [printAttributes flat_map]. unfold printAttribute. cbn [fst snd]. flatten'.
    rewrite <- children_shift.
    rewrite <- properties_shift by exact Hi.
    flatten'. reflexivity.
Qed.

Lemma buildRbxmx_serialize (random : RandomSource) (asset : RobloxAsset) :
  buildRbxmx random asset = xmlDeclaration ++ nl ++ serialize (documentNode random asset).
Proof.
  unfold buildRbxmx. rewrite generateItem_serialize. cbn [fst].
  unfold documentNode. serial.
  rewrite !serialize_space by reflexivity.
  rewrite !serialize_text.
  change (flat_map escapeChar "null") with "null".
  change (flat_map escapeChar "nil") with "nil".
  change (repeatStr "  " (0 + 1)) with "  ".
  unfold xmlDeclaration.
  cbn [printAttributes flat_map]. unfold printAttribute. cbn [fst snd]. flatten'.
  reflexivity.
Qed.

(** ** The document of a representable tree can be read back *)

Lemma sealed_tokensOk (toks : list Token) : sealed toks = true -> tokensOk toks = true.
Proof.
  induction toks as [|t toks IH]; [reflexivity|]. cbn [sealed tokensOk].
  intros H. apply andb_true_iff in H as [H Hs]. apply andb_true_iff in H as [Ht Ha].
  rewrite Ht, (IH Hs). destruct (isText t); [|reflexivity].
  destruct toks as [|t' toks]; [discriminate|]. cbn [startsText].
  apply negb_true_iff in Ha. now rewrite Ha.
Qed.

Lemma sealed_app (a b : list Token) :
  sealed a = true -> sealed b = true -> sealed (a ++ b) = true.
Proof.
  intros Ha Hb. induction a as [|t a IH]; [exact Hb|].
  cbn [sealed app] in *.
  apply andb_true_iff in Ha as [Ha Hs]. apply andb_true_iff in Ha as [Ht Hn].
  rewrite Ht, (IH Hs). destruct (isText t); [|reflexivity].
  destruct a as [|t' a]; [discriminate|]. cbn [app]. now rewrite Hn.
Qed.

Lemma sealed_element (tag : str) (attrs : list (str * str)) (kids : list Node) :
  tokenOk (TOpen tag attrs) = true ->
  sealed (flat_map tokensOf kids ++ [TClose tag]) = true ->
  sealed (tokensOf (Element tag attrs kids)) = true.
Proof.
  intros Ho Hk. cbn [tokensOf sealed isText]. now rewrite Ho, Hk.
Qed.

Lemma plain_repeat (n : nat) : forallb plainChar (repeatStr "  " n) = true.
Proof. induction n as [|n IH]; [reflexivity|]. unfold repeatStr in *. simpl. now chars. Qed.



Lemma sealed_chunk (d : str) (n : Node) (more : list Node) (rest : list Token) :
  tokenOk (TText d) = true ->
  startsText (tokensOf n) = false ->
  sealed (tokensOf n) = true ->
  sealed (flat_map tokensOf more ++ rest) = true ->
  sealed (flat_map tokensOf (Text d :: n :: more) ++ rest) = true.
Proof.
  intros Hd Hs Hn Hr.
  change (flat_map tokensOf (Text d :: n :: more) ++ rest)
    with (TText d :: (tokensOf n ++ flat_map tokensOf more) ++ rest).
  rewrite <- app_assoc.
  cbn [sealed isText]. rewrite Hd.
  destruct (tokensOf n) as [|t toks] eqn:E; [destruct n; discriminate|].
  cbn [startsText] in Hs. cbn [app]. rewrite Hs. cbn [negb andb].
  change (t :: toks ++ flat_map tokensOf more ++ rest)
    with ((t :: toks) ++ flat_map tokensOf more ++ rest).
  now apply sealed_app.
Qed.

Lemma pad_ok (n : nat) (suffix : str) :
  forallb plainChar suffix = true ->
  tokenOk (TText ((nl ++ repeatStr "  " n) ++ suffix)) = true.
Proof.
  intros H. cbn [tokenOk app nl]. cbn [forallb]. chars.
  now rewrite !forallb_app, plain_repeat, H.
Qed.

Lemma pad_ok' (n : nat) : tokenOk (TText (nl ++ repeatStr "  " n)) = true.
Proof. cbn [tokenOk app nl]. cbn [forallb]. chars. now rewrite plain_repeat. Qed.

Lemma textNodes_sealed (s tag : str) :
  forallb plainChar s = true -> nameOk tag = true ->
  sealed (flat_map tokensOf (textNodes s) ++ [TClose tag]) = true.
Proof.
  intros Hs Ht. destruct s as [|c s]; cbn [textNodes flat_map tokensOf app sealed isText negb tokenOk].
  - now rewrite Ht.
  - now rewrite Hs, Ht.
Qed.

Lemma digits_attr (u : Decimal.uint) : forallb attrValueChar (uintDigits u) = true.
Proof. induction u; simpl; chars; auto. Qed.

Lemma propertyNode_sealed (e : str * JsValue) (n : Node) :
  propertyOk e = true -> propertyNode e = Some n ->
  startsText (tokensOf n) = false /\ sealed (tokensOf n) = true.
Proof.
  destruct e as [k v]. unfold propertyOk, propertyNode. cbn [fst snd].
  destruct v as [s|x|b| | |o]; intros H E; try discriminate; injection E as <-;
    (split; [reflexivity|]); apply sealed_element.
  - apply andb_true_iff in H as [Hk Hs].
    cbn [tokenOk forallb map hasDuplicate]. unfold attributeOk. cbn [fst snd]. now rewrite Hk.
  - apply andb_true_iff in H as [Hk Hs]. now apply textNodes_sealed.
  - cbn [tokenOk forallb map hasDuplicate]. unfold attributeOk. cbn [fst snd]. now rewrite H.
  - apply textNodes_sealed; [|reflexivity]. apply (forallb_and_r _ _ _ (number_chars x)).
  - cbn [tokenOk forallb map hasDuplicate]. unfold attributeOk. cbn [fst snd]. now rewrite H.
  - apply textNodes_sealed; [|reflexivity]. apply (forallb_and_r _ _ _ (boolean_chars b)).
Qed.

Lemma propertyNodes_sealed (pad : str) (entries : list (str * JsValue)) (rest : list Token) :
  tokenOk (TText pad) = true ->
  forallb propertyOk entries = true ->
  sealed rest = true ->
  sealed (flat_map tokensOf (propertyNodes pad entries) ++ rest) = true.
Proof.
  intros Hp He Hr. induction entries as [|e entries IH]; [exact Hr|].
  cbn [forallb] in He. apply andb_true_iff in He as [Hok He].
  unfold propertyNodes. cbn [flat_map]. fold (propertyNodes pad entries).
  destruct (propertyNode e) as [n|] eqn:E; [|now apply IH].
  destruct (propertyNode_sealed _ Hok E) as [Hs Hn].
  cbn [app]. apply sealed_chunk; auto.
Qed.

Lemma sourceNodes_sealed (pad : str) (item : RobloxAsset) (rest : list Token) :
  tokenOk (TText pad) = true ->
  (if emitsSource item
   then forallb plainChar (sourceText item) && negb (includes (sourceText item) "]]>")
   else true) = true ->
  sealed rest = true ->
  sealed (flat_map tokensOf (sourceNodes pad item) ++ rest) = true.
Proof.
  intros Hp Hs Hr. unfold sourceNodes. destruct (emitsSource item); [|exact Hr].
  apply sealed_chunk; auto.
  cbn [tokensOf flat_map app sealed isText tokenOk forallb map hasDuplicate].
  now rewrite Hs.
Qed.

Lemma item_starts (random : RandomSource) (item : RobloxAsset) (depth calls : nat) :
  startsText (tokensOf (itemNode random item depth calls)) = false.
Proof. now rewrite itemNode_eq. Qed.

Lemma childNodes_sealed (random : RandomSource) (depth : nat) (items : list RobloxAsset)
    (rest : list Token) :
  Forall (sealedItem random) items ->
  forallb representable items = true ->
  sealed rest = true ->
  forall calls, sealed (flat_map tokensOf (childNodes random depth items calls) ++ rest) = true.
Proof.
  intros HF. induction HF as [|child items Hc _ IH]; intros Hrep Hr calls; [exact Hr|].
  cbn [forallb] in Hrep. apply andb_true_iff in Hrep as [Hchild Hrep].
  cbn [childNodes]. fold (childNodes random depth).
  apply sealed_chunk; auto using pad_ok', item_starts.
Qed.

Lemma referent_attr (n : N) : forallb attrValueChar ("RBX" ++ decimalN n) = true.
Proof. cbn [app forallb]. chars. apply digits_attr. Qed.

Lemma item_sealed (random : RandomSource) (item : RobloxAsset) : sealedItem random item.
Proof.
  induction item as [i n c s ch p IH] using RobloxAsset_induction.
  intros Hrep depth calls. rewrite representable_eq in Hrep.
  apply andb_true_iff in Hrep as [Hrep Hch]. apply andb_true_iff in Hrep as [Hrep Hprops].
  apply andb_true_iff in Hrep as [Hrep Hsrc]. apply andb_true_iff in Hrep as [Hname Hclass].
  set (item := mkAsset i n c s ch p) in *.
  rewrite itemNode_eq. cbv zeta. apply sealed_element.
  - cbn [tokenOk forallb]. unfold attributeOk. cbn [fst snd].
    rewrite Hclass, referent_attr. reflexivity.
  - rewrite <- app_assoc. cbn [app]. apply sealed_chunk.
    + apply pad_ok. reflexivity.
    + reflexivity.
    + apply sealed_element; [reflexivity|].
      rewrite <- app_assoc. cbn [app]. apply sealed_chunk.
      * apply pad_ok. reflexivity.
      * reflexivity.
      * apply sealed_element; [reflexivity|]. now apply textNodes_sealed.
      * rewrite flat_map_app, <- app_assoc.
        apply sourceNodes_sealed; [apply pad_ok; reflexivity|exact Hsrc|].
        rewrite flat_map_app, <- app_assoc.
        apply propertyNodes_sealed; [apply pad_ok; reflexivity|exact Hprops|].
        cbn [flat_map tokensOf app sealed isText negb].
        rewrite (app_assoc nl), pad_ok by reflexivity. reflexivity.
    + rewrite flat_map_app, <- app_assoc.
      apply childNodes_sealed; [exact IH|exact Hch|].
      cbn [flat_map tokensOf app sealed isText negb].
      rewrite pad_ok'. reflexivity.
Qed.

Lemma document_tokensOk (random : RandomSource) (asset : RobloxAsset) :
  representable asset = true ->
  tokensOk (tokensOf (documentNode random asset)) = true.
Proof.
  intros H. apply sealed_tokensOk. unfold documentNode.
  apply sealed_element; [reflexivity|].
  do 2 (apply sealed_chunk; [reflexivity|reflexivity|reflexivity|]).
  apply sealed_chunk; [reflexivity|apply item_starts|now apply item_sealed|].
  reflexivity.
Qed.

Theorem xmlParse_buildRbxmx (random : RandomSource) (asset : RobloxAsset) :
  representable asset = true ->
  xmlParse (buildRbxmx random asset) = Some (documentNode random asset).
Proof.
  intros H. rewrite buildRbxmx_serialize. unfold documentNode.
  apply xmlParse_serialize. now apply document_tokensOk.
Qed.

(** ** Decoding the document of the encoder *)

Lemma queryNodes_app (sel : Selector) (p : option str) (a b : list Node) :
  queryNodes sel p (a ++ b)
  = match queryNodes sel p a with
    | Some m => Some m
    | None => queryNodes sel p b
    end.
Proof.
  induction a as [|n a IH]; [reflexivity|]. cbn [app queryNodes].
  destruct (queryNode sel p n); [reflexivity|exact IH].
Qed.

Lemma queryNodes_textNodes (sel : Selector) (p : option str) (s : str) :
  queryNodes sel p (textNodes s) = None.
Proof. destruct s; reflexivity. Qed.

Lemma textContent_textNodes (s : str) : flat_map textContent (textNodes s) = s.
Proof. destruct s as [|c s]; [reflexivity|]. cbn [textNodes flat_map textContent]. apply app_nil_r. Qed.

Lemma document_rootItem (random : RandomSource) (asset : RobloxAsset) :
  documentQuerySelector (documentNode random asset) (SelType "Item")
  = Some (itemNode random asset 0 0).
Proof.
  unfold documentQuerySelector, documentNode. rewrite queryNode_eq.
  change (matchesSelector (SelType "Item") None "roblox" ?a) with false. cbn match.
  cbn [queryNodes]. 
  change (queryNode (SelType "Item") (Some "roblox") (Text ?d)) with (@None Node).
  change (queryNode (SelType "Item") (Some "roblox") (Element "External" [] ?k))
    with (@None Node).
  cbn match. rewrite itemNode_eq. cbv zeta. rewrite queryNode_eq. reflexivity.
Qed.

Lemma item_nameNode (random : RandomSource) (item : RobloxAsset) (depth calls : nat) :
  querySelector (itemNode random item depth calls) selName
  = Some (Element "string" [("name", "Name")] (textNodes (name item))).
Proof.
  rewrite itemNode_eq. cbv zeta. unfold querySelector.
  cbn [app queryNodes]. 
  change (queryNode selName (Some "Item") (Text ?d)) with (@None Node). cbn match.
  rewrite queryNode_eq.
  change (matchesSelector selName (Some "Item") "Properties" []) with false. cbn match.
  cbn [queryNodes].
  change (queryNode selName (Some "Properties") (Text ?d)) with (@None Node). cbn match.
  rewrite queryNode_eq. reflexivity.
Qed.

Lemma itemNode_element (random : RandomSource) (item : RobloxAsset) (depth calls : nat) :
  itemNode random item depth calls
  = Element "Item" (itemAttributes random item calls) (itemKids random item depth calls).
Proof. apply itemNode_eq. Qed.

Lemma item_sourceNode (random : RandomSource) (item : RobloxAsset) (depth calls : nat) :
  emitsSource item = true ->
  querySelector (itemNode random item depth calls) selSource
  = Some (Element "ProtectedString" [("name", "Source")] [CDATASection (sourceText item)]).
Proof.
  intros H. rewrite itemNode_eq. cbv zeta. unfold querySelector.
  cbn [app queryNodes].
  change (queryNode selSource (Some "Item") (Text ?d)) with (@None Node). cbn match.
  rewrite queryNode_eq.
  change (matchesSelector selSource (Some "Item") "Properties" []) with false. cbn match.
  cbn [queryNodes].
  change (queryNode selSource (Some "Properties") (Text ?d)) with (@None Node). cbn match.
  rewrite queryNode_eq.
  change (matchesSelector selSource (Some "Properties") "string" [("name", "Name")])
    with false. cbn match.
  rewrite queryNodes_textNodes.
  unfold sourceNodes. rewrite H. cbn [app queryNodes].
  change (queryNode selSource (Some "Properties") (Text ?d)) with (@None Node). cbn match.
  rewrite queryNode_eq. reflexivity.
Qed.

Lemma propertyNodes_noSource (pad : str) (entries : list (str * JsValue)) :
  queryNodes selSource (Some "Properties") (propertyNodes pad entries) = None.
Proof.
  induction entries as [|[k v] entries IH]; [reflexivity|].
  unfold propertyNodes. cbn [flat_map]. fold (propertyNodes pad entries).
  destruct v as [s|x|b| | |o]; unfold propertyNode; cbn [fst snd app queryNodes];
    try exact IH;
    change (queryNode selSource (Some "Properties") (Text ?d)) with (@None Node); cbn match;
    rewrite queryNode_eq, queryNodes_textNodes;
    unfold matchesSelector, selSource;
    change (localName ?t =? "ProtectedString") with false; cbn [andb]; exact IH.
Qed.

Lemma item_query_source (random : RandomSource) (item : RobloxAsset) (depth calls : nat)
    (p : option str) :
  queryNode selSource p (itemNode random item depth calls)
  = querySelector (itemNode random item depth calls) selSource.
Proof.
  rewrite itemNode_element, queryNode_eq. unfold querySelector, matchesSelector, selSource.
  change (localName "Item" =? "ProtectedString") with false. reflexivity.
Qed.


(** ** What every decoded tree looks like *)

Lemma everyNode_impl (P Q : RobloxAsset -> Prop) (tree : RobloxAsset) :
  (forall node, P node -> Q node) -> everyNode P tree -> everyNode Q tree.
Proof.
  intros HPQ. induction tree as [i n c s ch p IH] using RobloxAsset_induction.
  rewrite !everyNode_eq. cbn [children]. intros [H1 H2]. split; [auto|].
  rewrite Forall_forall in *. intros x Hx. apply (IH x Hx). now apply H2.
Qed.

Lemma extractChildren_every (uuid : UuidSource) (kids : list Node) :
  Forall (fun n => forall k, everyNode decodedNode (fst (extractItem uuid n k))) kids ->
  forall k, Forall (everyNode decodedNode) (fst (extractChildren uuid kids k)).
Proof.
  induction 1 as [|n kids Hn _ IH]; intros k; [constructor|].
  cbn [extractChildren]. fold (extractChildren uuid).
  destruct n as [t a ks|d|d]; try apply IH.
  destruct (t =? "Item"); [|apply IH].
  specialize (Hn k). destruct (extractItem uuid (Element t a ks) k) as [child k'].
  specialize (IH k'). destruct (extractChildren uuid kids k') as [others k''].
  cbn [fst] in *. now constructor.
Qed.

Lemma extractItem_every (uuid : UuidSource) (n : Node) (k : nat) :
  everyNode decodedNode (fst (extractItem uuid n k)).
Proof.
  revert k. induction n as [tag attrs kids IH|d|d] using Node_induction; intros k.
  - rewrite extractItem_eq. cbv zeta.
    pose proof (extractChildren_every uuid IH k) as Hch.
    destruct (extractChildren uuid kids k) as [ds k']. cbn [fst] in *.
    apply everyNode_eq. cbn [children]. split; [|exact Hch].
    split; [reflexivity|]. cbn [source].
    destruct (option_map textContent _) as [[|c cs]|]; discriminate.
  - cbn. repeat split. discriminate.
  - cbn. repeat split. discriminate.
Qed.

Lemma parseRbxmx_every (uuid : UuidSource) (xmlText : str) (tree : RobloxAsset) :
  parseRbxmx uuid xmlText = Ok tree -> everyNode decodedNode tree.
Proof.
  unfold parseRbxmx, parseRbxmxWith. destruct (documentQuerySelector _ _) as [rootItem|]; [|discriminate].
  intros H. injection H as <-. apply extractItem_every.
Qed.

Lemma queryNode_hasNoItem (n : Node) :
  hasNoItem n = true -> forall p, queryNode (SelType "Item") p n = None.
Proof.
  unfold hasNoItem.
  induction n as [tag attrs kids IH|d|d] using Node_induction; intros H p; try reflexivity.
  cbn [elements forallb tagOf] in H. apply andb_true_iff in H as [Ht Hk].
  apply negb_true_iff in Ht.
  rewrite queryNode_eq. cbn [matchesSelector]. rewrite Ht.
  induction IH as [|k kids Hkid _ IHk]; [reflexivity|].
  cbn [flat_map] in Hk. rewrite forallb_app in Hk. apply andb_true_iff in Hk as [H1 H2].
  cbn [queryNodes]. rewrite (Hkid H1). now apply IHk.
Qed.

(** ** The referents of the encoded document *)

Lemma referents_textNodes (s : str) : flat_map referentsOf (textNodes s) = [].
Proof. destruct s; reflexivity. Qed.

Lemma referents_propertyNodes (pad : str) (entries : list (str * JsValue)) :
  flat_map referentsOf (propertyNodes pad entries) = [].
Proof.
  induction entries as [|[k v] entries IH]; [reflexivity|].
  unfold propertyNodes. cbn [flat_map]. fold (propertyNodes pad entries).
  rewrite flat_map_app, IH, app_nil_r.
  destruct v; unfold propertyNode; cbn [fst snd flat_map referentsOf]; try reflexivity;
    change (?t =? "Item") with false; cbn [app]; now rewrite referents_textNodes.
Qed.

Lemma referents_sourceNodes (pad : str) (item : RobloxAsset) :
  flat_map referentsOf (sourceNodes pad item) = [].
Proof. unfold sourceNodes. destruct (emitsSource item); reflexivity. Qed.

Lemma referents_childNodes (random : RandomSource) (depth : nat) (items : list RobloxAsset) :
  Forall (numbered random) items ->
  forall calls,
    flat_map referentsOf (childNodes random depth items calls)
    = map (referentOf random) (seq calls (list_sum (map size items))).
Proof.
  induction 1 as [|child items Hc _ IH]; intros calls; [reflexivity|].
  cbn [childNodes flat_map referentsOf app]. fold (childNodes random depth).
  change (list_sum (map size (child :: items)))
    with (size child + list_sum (map size items)).
  now rewrite Hc, IH, seq_app, map_app.
Qed.

Lemma referents_item (random : RandomSource) (item : RobloxAsset) : numbered random item.
Proof.
  induction item as [i n c s ch p IH] using RobloxAsset_induction.
  intros depth calls. rewrite itemNode_eq, size_eq. cbv zeta.
  cbn [referentsOf]. change ("Item" =? "Item") with true. cbn match.
  cbn [getAttribute]. change ("class" =? "referent") with false.
  change ("referent" =? "referent") with true. cbn match.
  cbn [app flat_map referentsOf]. change ("Properties" =? "Item") with false.
  change ("string" =? "Item") with false. cbn match. cbn [app].
  rewrite referents_textNodes. cbn [app].
  rewrite !flat_map_app, referents_sourceNodes, referents_propertyNodes.
  cbn [flat_map referentsOf app].
  rewrite (referents_childNodes _ IH). cbn [children seq map]. now rewrite app_nil_r.
Qed.

Lemma referents_document (random : RandomSource) (asset : RobloxAsset) :
  representable asset = true ->
  referentsOf (parseFromString (buildRbxmx random asset))
  = map (referentOf random) (seq 0 (size asset)).
Proof.
  intros H. unfold parseFromString. rewrite (xmlParse_buildRbxmx _ _ H).
  unfold documentNode. cbn [referentsOf flat_map].
  change ("roblox" =? "Item") with false. change ("External" =? "Item") with false.
  cbn [app]. now rewrite app_nil_r, referents_item.
Qed.

Lemma hasDuplicate_NoDup (l : list str) : hasDuplicate l = true -> ~ NoDup l.
Proof.
  induction l as [|x l IH]; [discriminate|]. cbn [hasDuplicate].
  intros H Hnd. inversion Hnd as [|? ? Hx Hl]; subst.
  apply orb_true_iff in H as [H|H]; [|now apply IH].
  apply existsb_exists in H as (y & Hy & E). apply str_eqb_eq in E. now subst y.
Qed.

(** ** The exact form of the round trip *)

Lemma firstSource_eq (item : RobloxAsset) :
  firstSource item
  = if emitsSource item then source item else firstSourceIn (children item).
Proof. destruct item; reflexivity. Qed.

Lemma decodedTree_eq (uuid : UuidSource) (item : RobloxAsset) (calls : nat) :
  decodedTree uuid item calls
  = let '(kids, calls) := decodedChildren uuid (children item) calls in
    ({| id := uuid calls;
        name := match name item with [] => "Unnamed" | _ :: _ => name item end;
        className := match className item with [] => "Folder" | _ :: _ => className item end;
        source := firstSource item;
        children := kids;
        properties := None |}, S calls).
Proof. destruct item; reflexivity. Qed.

Lemma emitted_source (item : RobloxAsset) :
  emitsSource item = true ->
  exists c s, source item = Some (c :: s) /\ sourceText item = c :: s.
Proof.
  unfold emitsSource, sourceText. destruct (source item) as [[|c s]|]; try discriminate.
  intros _. now exists c, s.
Qed.

Lemma childNodes_source (random : RandomSource) (depth : nat) (items : list RobloxAsset) :
  Forall (sourceFound random) items ->
  forall calls,
    option_map textContent
      (queryNodes selSource (Some "Item") (childNodes random depth items calls))
    = firstSourceIn items.
Proof.
  induction 1 as [|child items Hc _ IH]; intros calls; [reflexivity|].
  cbn [childNodes queryNodes firstSourceIn]. fold (childNodes random depth).
  change (queryNode selSource (Some "Item") (Text ?d)) with (@None Node). cbn match.
  rewrite item_query_source. rewrite <- (Hc (depth + 1) calls).
  destruct (querySelector _ selSource); [reflexivity|]. apply IH.
Qed.

Lemma item_sourceFound (random : RandomSource) (item : RobloxAsset) : sourceFound random item.
Proof.
  induction item as [i n c s ch p IH] using RobloxAsset_induction.
  intros depth calls. set (item := mkAsset i n c s ch p) in *.
  rewrite firstSource_eq. destruct (emitsSource item) eqn:He.
  - rewrite (item_sourceNode _ _ _ _ He). cbn [option_map textContent flat_map].
    rewrite app_nil_r. destruct (emitted_source _ He) as (x & r & -> & ->). reflexivity.
  - rewrite itemNode_eq. cbv zeta. unfold querySelector.
    cbn [app queryNodes].
    change (queryNode selSource (Some "Item") (Text ?d)) with (@None Node). cbn match.
    rewrite queryNode_eq.
    change (matchesSelector selSource (Some "Item") "Properties" []) with false. cbn match.
    cbn [queryNodes].
    change (queryNode selSource (Some "Properties") (Text ?d)) with (@None Node). cbn match.
    rewrite queryNode_eq.
    change (matchesSelector selSource (Some "Properties") "string" [("name", "Name")])
      with false. cbn match.
    rewrite queryNodes_textNodes.
    unfold sourceNodes. rewrite He. cbn [app].
    rewrite queryNodes_app, propertyNodes_noSource. cbn [queryNodes].
    change (queryNode selSource (Some "Properties") (Text ?d)) with (@None Node). cbn match.
    rewrite queryNodes_app.
    cbn [children item].
    assert (E : forall (q : option Node) (d : str),
               option_map textContent
                 match q with
                 | Some m => Some m
                 | None => queryNodes selSource (Some "Item") [Text d]
                 end
               = option_map textContent q) by (intros [m|] d; reflexivity).
    rewrite E. apply (childNodes_source depth IH (S calls)).
Qed.

Lemma firstSource_nonempty (item : RobloxAsset) : firstSource item <> Some [].
Proof.
  induction item as [i n c s ch p IH] using RobloxAsset_induction.
  rewrite firstSource_eq. destruct (emitsSource _) eqn:He.
  - destruct (emitted_source _ He) as (x & r & -> & _). discriminate.
  - cbn [children]. clear He. induction IH as [|child rest Hc _ IHr]; [discriminate|].
    cbn [firstSourceIn]. destruct (firstSource child) as [t|]; [|exact IHr].
    exact Hc.
Qed.

Lemma extractChildren_exact (uuid : UuidSource) (random : RandomSource) (depth : nat)
    (items : list RobloxAsset) (pad : str) :
  Forall (decodesTo uuid random) items ->
  forall calls k,
    extractChildren uuid (childNodes random depth items calls ++ [Text pad]) k
    = decodedChildren uuid items k.
Proof.
  induction 1 as [|child items Hc _ IH]; intros calls k; [reflexivity|].
  cbn [childNodes app decodedChildren]. fold (childNodes random depth).
  specialize (Hc (depth + 1) calls k).
  rewrite itemNode_element in *.
  cbn [extractChildren]. change ("Item" =? "Item") with true. cbn match.
  fold (extractChildren uuid). rewrite Hc.
  destruct (decodedTree uuid child k) as [d k'].
  now rewrite IH.
Qed.

Lemma extractItem_exact (uuid : UuidSource) (random : RandomSource) (item : RobloxAsset) :
  decodesTo uuid random item.
Proof.
  induction item as [i n c s ch p IH] using RobloxAsset_induction.
  intros depth calls k. set (item := mkAsset i n c s ch p) in *.
  pose proof (extractChildren_exact depth (nl ++ repeatStr "  " (depth + 1))
                IH (S calls) k) as Hch.
  pose proof (item_sourceFound random item depth calls) as Hsrc.
  pose proof (firstSource_nonempty item) as Hne.
  rewrite decodedTree_eq.
  rewrite itemNode_element, extractItem_eq. cbv zeta.
  rewrite <- itemNode_element.
  change (extractChildren uuid (itemKids random item depth calls) k)
    with (extractChildren uuid
            (childNodes random depth (children item) (S calls)
               ++ [Text (nl ++ repeatStr "  " (depth + 1))]) k).
  cbn [children item] in *. rewrite Hch.
  destruct (decodedChildren uuid ch k) as [ds k'].
  rewrite Hsrc, item_nameNode. cbn [option_map textContent].
  rewrite textContent_textNodes.
  unfold itemAttributes. cbn [getAttribute]. change ("class" =? "class") with true.
  cbn match.
  f_equal. f_equal.
  - cbn [name item]. now destruct n.
  - cbn [className item]. now destruct c.
  - destruct (firstSource item) as [[|x r]|]; try reflexivity. now elim Hne.
Qed.

Lemma decode_encode_exact (uuid : UuidSource) (random : RandomSource) (asset : RobloxAsset) :
  representable asset = true ->
  parseRbxmx uuid (buildRbxmx random asset) = Ok (fst (decodedTree uuid asset 0)).
Proof.
  intros Hr. unfold parseRbxmx, parseRbxmxWith, parseFromString.
  rewrite (xmlParse_buildRbxmx _ _ Hr), document_rootItem. cbv zeta.
  now rewrite extractItem_exact.
Qed.

(** ** Line ends *)

Lemma lineEnds_cons (c : ascii) (r : str) :
  Ascii.eqb c "013" = false -> normalizeLineEnds (c :: r) = c :: normalizeLineEnds r.
Proof. intros H. cbn [normalizeLineEnds]. now rewrite H. Qed.

Lemma lineEnds_app (a b : str) :
  notLineFeedFirst b = true ->
  normalizeLineEnds (a ++ b) = normalizeLineEnds a ++ normalizeLineEnds b.
Proof.
  intros Hb. induction a as [|c a IH]; [reflexivity|].
  cbn [app normalizeLineEnds]. destruct (Ascii.eqb c "013") eqn:Ec.
  - destruct a as [|c2 a2].
    + cbn [app]. destruct b as [|x b]; [reflexivity|]. cbn [notLineFeedFirst] in Hb.
      apply negb_true_iff in Hb. now rewrite Hb.
    + cbn [app] in *. destruct (Ascii.eqb c2 "010") eqn:E2.
      * apply Ascii.eqb_eq in E2. subst c2.
        rewrite !lineEnds_cons in IH by reflexivity. cbn [app] in IH |- *. exact IH.
      * cbn [app]. now rewrite IH.
  - cbn [app]. now rewrite IH.
Qed.

Lemma lineEnds_plain_app (a b : str) :
  forallb plainChar a = true -> normalizeLineEnds (a ++ b) = a ++ normalizeLineEnds b.
Proof.
  induction a as [|c a IH]; [reflexivity|]. cbn [forallb app]. intros H.
  apply andb_true_iff in H as [Hc Ha].
  rewrite lineEnds_cons by now apply plain_not_cr. now rewrite IH.
Qed.

Lemma escapeChar_lineFeed (c : ascii) (r : str) :
  exists h t, escapeChar c ++ r = h :: t /\ Ascii.eqb h "010" = Ascii.eqb c "010".
Proof.
  destruct (escapeChar_cases c) as [[-> ->]|[[-> ->]|[[-> ->]|[[-> ->]|[[-> ->]|E]]]]];
    try (cbn [app]; eexists _, _; split; reflexivity).
  destruct E as (_ & _ & _ & _ & _ & ->). cbn [app]. now eexists _, _.
Qed.

Lemma escapeChar_lineEnds (c : ascii) (r : str) :
  Ascii.eqb c "013" = false ->
  normalizeLineEnds (escapeChar c ++ r) = escapeChar c ++ normalizeLineEnds r.
Proof.
  intros Hc.
  destruct (escapeChar_cases c) as [[-> ->]|[[-> ->]|[[-> ->]|[[-> ->]|[[-> ->]|E]]]]];
    try (apply lineEnds_plain_app; reflexivity).
  destruct E as (_ & _ & _ & _ & _ & ->). cbn [app]. now apply lineEnds_cons.
Qed.

Lemma lineEnds_escape (d r : str) :
  notLineFeedFirst r = true ->
  normalizeLineEnds (flat_map escapeChar d ++ r)
  = flat_map escapeChar (normalizeLineEnds d) ++ normalizeLineEnds r.
Proof.
  intros Hr. induction d as [|c d IH]; [reflexivity|].
  cbn [flat_map]. rewrite <- app_assoc.
  destruct (Ascii.eqb c "013") eqn:Ec.
  - apply Ascii.eqb_eq in Ec. subst c.
    change (escapeChar "013") with ["013"%char]. cbn [app normalizeLineEnds].
    change (Ascii.eqb "013" "013") with true. cbn match.
    destruct d as [|c2 d2].
    + cbn [flat_map app]. destruct r as [|x r]; [reflexivity|]. cbn [notLineFeedFirst] in Hr.
      apply negb_true_iff in Hr. now rewrite Hr.
    + cbn [flat_map] in *. rewrite <- app_assoc in *.
      destruct (escapeChar_lineFeed c2 (flat_map escapeChar d2 ++ r)) as (h & t & E & Eh).
      rewrite E in *. rewrite Eh. destruct (Ascii.eqb c2 "010") eqn:E2.
      * apply Ascii.eqb_eq in E2. subst c2.
        change (escapeChar "010") with ["010"%char] in E. cbn [app] in E.
        injection E as <- <-.
        rewrite !lineEnds_cons in IH by reflexivity. cbn [flat_map app] in IH.
        change (escapeChar "010") with ["010"%char] in IH. cbn [app] in IH.
        cbn [flat_map app]. change (escapeChar "010") with ["010"%char]. cbn [app].
        exact IH.
      * rewrite IH. cbn [flat_map app]. change (escapeChar "010") with ["010"%char].
        reflexivity.
  - rewrite escapeChar_lineEnds by exact Ec. rewrite IH. rewrite lineEnds_cons by exact Ec.
    cbn [flat_map]. now rewrite <- app_assoc.
Qed.

Lemma lineEnds_forallb (p q : ascii -> bool) (s : str) :
  (forall c, p c = true -> Ascii.eqb c "013" = false -> q c = true) ->
  q "010"%char = true ->
  forallb p s = true -> forallb q (normalizeLineEnds s) = true.
Proof.
  intros Hpq Hlf. induction s as [|c s IH]; [reflexivity|].
  cbn [forallb normalizeLineEnds]. intros H. apply andb_true_iff in H as [Hc Hs].
  specialize (IH Hs). destruct (Ascii.eqb c "013") eqn:Ec.
  - cbn [forallb]. rewrite Hlf. destruct s as [|c2 s2]; [reflexivity|].
    destruct (Ascii.eqb c2 "010") eqn:E2; [|exact IH].
    apply Ascii.eqb_eq in E2. subst c2. rewrite lineEnds_cons in IH by reflexivity.
    cbn [forallb] in IH. now apply andb_true_iff in IH.
  - cbn [forallb]. now rewrite (Hpq _ Hc Ec), IH.
Qed.

Lemma lineEnds_nil (s : str) : normalizeLineEnds s = [] -> s = [].
Proof. destruct s as [|c s]; [reflexivity|]. cbn. now destruct (Ascii.eqb c "013"). Qed.

Lemma startsWith_lineEnds (p s : str) :
  forallb (fun x => negb (Ascii.eqb x "010") && negb (Ascii.eqb x "013")) p = true ->
  startsWith p (normalizeLineEnds s) = startsWith p s.
Proof.
  revert s. induction p as [|x p IH]; intros s H; [reflexivity|].
  cbn [forallb] in H. apply andb_true_iff in H as [Hx Hp].
  apply andb_true_iff in Hx as [Hlf Hcr]. apply negb_true_iff in Hlf, Hcr.
  destruct s as [|c s]; [reflexivity|]. cbn [normalizeLineEnds].
  destruct (Ascii.eqb c "013") eqn:Ec.
  - apply Ascii.eqb_eq in Ec. subst c. cbn [startsWith]. now rewrite Hlf, Hcr.
  - cbn [startsWith]. now rewrite IH.
Qed.

Lemma lineEnds_includes (s : str) :
  includes (normalizeLineEnds s) "]]>" = includes s "]]>".
Proof.
  induction s as [|c s IH]; [reflexivity|].
  rewrite (includes_head "]]>" c s).
  destruct (Ascii.eqb c "013") eqn:Ec.
  - apply Ascii.eqb_eq in Ec. subst c. cbn [normalizeLineEnds].
    change (Ascii.eqb "013" "013") with true. cbn match.
    change (startsWith "]]>" ("013"%char :: s)) with false. cbn [orb].
    destruct s as [|c2 s2]; [reflexivity|].
    destruct (Ascii.eqb c2 "010") eqn:E2.
    + apply Ascii.eqb_eq in E2. subst c2. rewrite lineEnds_cons in IH by reflexivity.
      rewrite !includes_head in IH |- *.
      change (startsWith "]]>" ("010"%char :: ?x)) with false in *. exact IH.
    + rewrite includes_head. change (startsWith "]]>" ("010"%char :: ?x)) with false.
      exact IH.
  - rewrite <- (startsWith_lineEnds "]]>" (c :: s)) by reflexivity.
    rewrite lineEnds_cons by exact Ec. now rewrite includes_head, IH.
Qed.

(** ** Line ends, token by token *)

Lemma lineEnds_attributes (attrs : list (str * str)) (r : str) :
  forallb attributeFits attrs = true ->
  normalizeLineEnds (printAttributes attrs ++ r)
  = printAttributes (map lineAttribute attrs) ++ normalizeLineEnds r.
Proof.
  induction attrs as [|[k v] attrs IH]; [reflexivity|]. cbn [forallb]. intros H.
  apply andb_true_iff in H as [Ha H]. unfold attributeFits in Ha. cbn [fst snd] in Ha.
  apply andb_true_iff in Ha as [Hk _].
  unfold printAttributes in *. cbn [flat_map map]. unfold printAttribute at 1 3.
  unfold lineAttribute at 1. cbn [fst snd]. repeat rewrite <- app_assoc.
  rewrite (lineEnds_plain_app " ") by reflexivity.
  rewrite (lineEnds_plain_app k) by now apply name_plain.
  rewrite (lineEnds_plain_app "=") by reflexivity.
  rewrite (lineEnds_plain_app dq) by reflexivity.
  rewrite (lineEnds_app v) by reflexivity.
  rewrite (lineEnds_plain_app dq) by reflexivity.
  now rewrite IH.
Qed.

Lemma lineEnds_token (t : Token) (r : str) :
  tokenFits t = true ->
  (isText t = true -> notLineFeedFirst r = true) ->
  normalizeLineEnds (printToken t ++ r) = printToken (lineToken t) ++ normalizeLineEnds r.
Proof.
  destruct t as [tag attrs|tag attrs|tag|d|d]; cbn [tokenFits printToken lineToken isText];
    intros Hok Hr; try discriminate; repeat rewrite <- app_assoc.
  - apply andb_true_iff in Hok as [Hok _]. apply andb_true_iff in Hok as [Htag Hattrs].
    rewrite (lineEnds_plain_app "<") by reflexivity.
    rewrite (lineEnds_plain_app tag) by now apply name_plain.
    rewrite lineEnds_attributes by exact Hattrs.
    now rewrite (lineEnds_plain_app ">") by reflexivity.
  - rewrite (lineEnds_plain_app "</") by reflexivity.
    rewrite (lineEnds_plain_app tag) by now apply name_plain.
    now rewrite (lineEnds_plain_app ">") by reflexivity.
  - apply lineEnds_escape. now apply Hr.
  - rewrite (lineEnds_plain_app "<![CDATA[") by reflexivity.
    rewrite (lineEnds_app d) by reflexivity.
    now rewrite (lineEnds_plain_app "]]>") by reflexivity.
Qed.

Lemma printToken_first (ok : Token -> bool) (t : Token) (rest : str) :
  isText t = false -> exists r, printToken t ++ rest = "<"%char :: r.
Proof. destruct t; cbn [isText printToken]; try discriminate; intros _; cbn [app]; eauto. Qed.

Lemma lineEnds_tokens (toks : list Token) :
  sealedBy tokenFits toks = true ->
  normalizeLineEnds (flat_map printToken toks) = flat_map printToken (map lineToken toks).
Proof.
  induction toks as [|t toks IH]; [reflexivity|]. cbn [sealedBy]. intros H.
  apply andb_true_iff in H as [H Hrest]. apply andb_true_iff in H as [Ht Hadj].
  cbn [flat_map map]. rewrite lineEnds_token; [now rewrite IH|exact Ht|].
  intros Htext. rewrite Htext in Hadj. destruct toks as [|t' toks]; [discriminate|].
  apply negb_true_iff in Hadj. cbn [flat_map].
  destruct (printToken_first tokenFits t' (flat_map printToken toks) Hadj) as [x ->].
  reflexivity.
Qed.

Lemma lineAttribute_readable (a : str * str) :
  attributeFits a = true -> attributeReadable (lineAttribute a) = true.
Proof.
  unfold attributeFits, attributeReadable, lineAttribute. cbn [fst snd]. intros H.
  apply andb_true_iff in H as [Hk Hv]. rewrite Hk. cbn [andb].
  revert Hv. apply lineEnds_forallb; [|reflexivity].
  intros c. unfold attrRawChar, attrPlainChar, plainChar. clear. all_chars c.
Qed.

Lemma lineToken_readable (t : Token) :
  tokenFits t = true -> tokenReadable (lineToken t) = true.
Proof.
  destruct t as [tag attrs|tag attrs|tag|d|d]; cbn [tokenFits lineToken tokenReadable tokenOk];
    intros H; try discriminate; try exact H.
  - apply andb_true_iff in H as [H Hdup]. apply andb_true_iff in H as [Htag Hattrs].
    rewrite Htag. cbn [andb]. rewrite map_map. cbn [lineAttribute fst]. 
    change (map (fun x : str * str => fst x) attrs) with (map fst attrs). rewrite Hdup, andb_true_r.
    revert Hattrs. clear. induction attrs as [|a attrs IH]; [reflexivity|].
    cbn [forallb map]. intros H. apply andb_true_iff in H as [Ha H].
    now rewrite (lineAttribute_readable _ Ha), IH.
  - destruct d as [|c d]; [discriminate|].
    assert (Hp : forallb plainChar (normalizeLineEnds (c :: d)) = true).
    { revert H. apply lineEnds_forallb; [|reflexivity].
      intros x. unfold plainChar. clear. all_chars x. }
    destruct (normalizeLineEnds (c :: d)) eqn:E; [|exact Hp].
    now apply lineEnds_nil in E.
  - apply andb_true_iff in H as [Hc Hn]. rewrite lineEnds_includes, Hn, andb_true_r.
    revert Hc. apply lineEnds_forallb; [|reflexivity].
    intros x. unfold plainChar. clear. all_chars x.
Qed.

Lemma lineToken_isText (t : Token) : isText (lineToken t) = isText t.
Proof. now destruct t. Qed.

Lemma lineTokens_sealed (toks : list Token) :
  sealedBy tokenFits toks = true -> sealedBy tokenReadable (map lineToken toks) = true.
Proof.
  induction toks as [|t toks IH]; [reflexivity|]. cbn [sealedBy map]. intros H.
  apply andb_true_iff in H as [H Hrest]. apply andb_true_iff in H as [Ht Hadj].
  rewrite (lineToken_readable _ Ht), (IH Hrest), lineToken_isText, andb_true_r.
  cbn [andb]. destruct (isText t); [|reflexivity].
  destruct toks as [|t' toks]; [discriminate|]. cbn [map]. now rewrite lineToken_isText.
Qed.

(** ** Reading a printed token with white space in its attribute values *)

Lemma attrPlainChar_facts (c : ascii) :
  attrPlainChar c = true ->
  negb (Ascii.eqb c "034") = true /\ Ascii.eqb "<" c = false
  /\ negb (Ascii.eqb (normalizeSpace c) "&") = true /\ plainChar c = true.
Proof. all_chars c. Qed.

Lemma attribute_step_read (a : str * str) (rest : str) :
  attributeReadable a = true ->
  attribute_step (printAttribute a ++ rest) = Some (Some (spaceAttribute a, rest)).
Proof.
  destruct a as [k v]. unfold attributeReadable, printAttribute, spaceAttribute.
  cbn [fst snd]. intros H. apply andb_true_iff in H as [Hk Hv].
  repeat rewrite <- app_assoc. cbn [app dq].
  unfold attribute_step. cbn [span]. chars.
  assert (Hh : exists c k', k = c :: k' /\ isNameChar c = true).
  { destruct k as [|c k']; [discriminate|]. exists c, k'. split; [reflexivity|].
    simpl in Hk. apply andb_true_iff in Hk as [Hc _]. now apply nameStart_nameChar. }
  destruct Hh as (c & k' & Ek & Hc).
  assert (Hsp : span isSpace (k ++ "="%char :: "034"%char :: v ++ "034"%char :: rest)
                = ([], k ++ "="%char :: "034"%char :: v ++ "034"%char :: rest)).
  { rewrite Ek. cbn [app]. apply span_stop. now apply nameChar_facts. }
  rewrite Hsp.
  rewrite lexName_app; [|exact Hk|now chars].
  unfold skipSpace. repeat (progress (cbn [span snd orb]; chars)).
  rewrite (span_app _ v ("034"%char :: rest)).
  - assert (existsb (Ascii.eqb "<") v = false) as ->.
    { clear -Hv. induction v as [|x v IH]; simpl in *; [reflexivity|].
      apply andb_true_iff in Hv as [Hx Hv].
      apply attrPlainChar_facts in Hx as (_ & -> & _). auto. }
    rewrite expandReferences_plain; [reflexivity|].
    clear -Hv. induction v as [|x v IH]; [reflexivity|]. cbn [map forallb] in *.
    apply andb_true_iff in Hv as [Hx Hv].
    apply attrPlainChar_facts in Hx as (_ & _ & -> & _). auto.
  - revert Hv. apply forallb_imp. intros x Hx. now apply attrPlainChar_facts in Hx.
  - now chars.
Qed.

Lemma many_attribute_read (attrs : list (str * str)) (rest : str) :
  forallb attributeReadable attrs = true ->
  attribute_step rest = Some None ->
  many attribute_step (printAttributes attrs ++ rest) = Some (map spaceAttribute attrs, rest).
Proof.
  intros H Hr. induction attrs as [|a attrs IH];
    rewrite (many_unfold attribute_step_consumes).
  - simpl. now rewrite Hr.
  - simpl in H. apply andb_true_iff in H as [Ha H].
    unfold printAttributes. cbn [flat_map]. rewrite <- app_assoc.
    rewrite (attribute_step_read _ _ Ha).
    fold (printAttributes attrs). now rewrite (IH H).
Qed.

Lemma spaceAttributes_keys (attrs : list (str * str)) :
  map fst (map spaceAttribute attrs) = map fst attrs.
Proof. induction attrs as [|a attrs IH]; [reflexivity|]. cbn [map]. now rewrite IH. Qed.

Lemma token_step_read (t : Token) (r : str) :
  tokenReadable t = true ->
  (isText t = true -> match r with [] => True | c :: _ => c = "<"%char end) ->
  token_step (printToken t ++ r) = Some (Some (spaceToken t, r)).
Proof.
  destruct t as [tag attrs|tag attrs|tag|d|d]; intros Hok Hr;
    try discriminate; try (now apply token_step_print).
  cbn [tokenReadable printToken spaceToken] in *.
  apply andb_true_iff in Hok as [Hok Hdup]. apply andb_true_iff in Hok as [Htag Hattrs].
  apply negb_true_iff in Hdup.
  destruct (nameOk_head _ Htag) as (c & t & Et & Hc).
  destruct (nameChar_facts _ Hc) as (_ & _ & _ & Hs & Hb & _).
  repeat rewrite <- app_assoc. cbn [app].
  unfold token_step. chars. cbn match.
  assert (forall x, startsWith "/" (tag ++ x) = false) as ->.
  { intros x. rewrite Et. cbn [app startsWith]. now rewrite Hs. }
  assert (forall x, startsWith "![CDATA[" (tag ++ x) = false) as ->.
  { intros x. rewrite Et. cbn [app startsWith]. now rewrite Hb. }
  rewrite lexName_app; [|exact Htag|].
  - rewrite many_attribute_read; [|exact Hattrs|reflexivity].
    rewrite spaceAttributes_keys, Hdup. reflexivity.
  - destruct attrs as [|a attrs]; cbn; now chars.
Qed.

Lemma many_token_read (toks : list Token) :
  sealedBy tokenReadable toks = true ->
  many token_step (flat_map printToken toks) = Some (map spaceToken toks, []).
Proof.
  induction toks as [|t toks IH]; intros H;
    rewrite (many_unfold token_step_consumes); [reflexivity|].
  cbn [sealedBy] in H. apply andb_true_iff in H as [H Hrest].
  apply andb_true_iff in H as [Ht Hadj].
  cbn [flat_map map]. rewrite (token_step_read _ _ Ht).
  - now rewrite (IH Hrest).
  - intros Htext. rewrite Htext in Hadj.
    destruct toks as [|t' toks]; [discriminate|]. apply negb_true_iff in Hadj.
    cbn [flat_map].
    destruct (printToken_first tokenFits t' (flat_map printToken toks) Hadj) as [x ->].
    reflexivity.
Qed.

(** ** The characters of a printed document *)

Lemma attrRaw_xmlChar (s : str) : forallb attrRawChar s = true -> forallb isXmlChar s = true.
Proof.
  apply forallb_imp. intros c H. unfold attrRawChar in H.
  repeat (apply andb_true_iff in H as [H _]). exact H.
Qed.

Lemma escapeChar_xmlChar (c : ascii) :
  isXmlChar c = true -> forallb isXmlChar (escapeChar c) = true.
Proof.
  intros H.
  destruct (escapeChar_cases c) as [[-> ->]|[[-> ->]|[[-> ->]|[[-> ->]|[[-> ->]|E]]]]];
    try reflexivity.
  destruct E as (_ & _ & _ & _ & _ & ->). simpl. now rewrite H.
Qed.

Lemma attributes_xmlChar (attrs : list (str * str)) :
  forallb attributeFits attrs = true -> forallb isXmlChar (printAttributes attrs) = true.
Proof.
  induction attrs as [|[k v] attrs IH]; simpl; [reflexivity|].
  intros H. apply andb_true_iff in H as [Ha H].
  unfold attributeFits in Ha. cbn [fst snd] in Ha. apply andb_true_iff in Ha as [Hk Hv].
  unfold printAttribute. cbn [fst snd].
  repeat rewrite forallb_app.
  rewrite (plain_xmlChar _ (name_plain _ Hk)), (IH H).
  cbn [forallb]. rewrite forallb_app, (attrRaw_xmlChar _ Hv). reflexivity.
Qed.

Lemma token_xmlChar (t : Token) :
  tokenFits t = true -> forallb isXmlChar (printToken t) = true.
Proof.
  destruct t as [tag attrs|tag attrs|tag|d|d]; cbn [tokenFits printToken]; intros H;
    try discriminate.
  - apply andb_true_iff in H as [H _]. apply andb_true_iff in H as [Ht Ha].
    repeat rewrite forallb_app.
    now rewrite (plain_xmlChar _ (name_plain _ Ht)), (attributes_xmlChar _ Ha).
  - repeat rewrite forallb_app. now rewrite (plain_xmlChar _ (name_plain _ H)).
  - destruct d as [|c d]; [discriminate|].
    apply forallb_flat_map. intros x Hx. apply escapeChar_xmlChar.
    now apply (proj1 (forallb_forall _ _) H).
  - apply andb_true_iff in H as [H _]. repeat rewrite forallb_app. now rewrite H.
Qed.

Lemma tokens_xmlChar (toks : list Token) :
  sealedBy tokenFits toks = true -> forallb isXmlChar (flat_map printToken toks) = true.
Proof.
  induction toks as [|t toks IH]; simpl; [reflexivity|].
  intros H. apply andb_true_iff in H as [H Hr]. apply andb_true_iff in H as [Ht _].
  now rewrite forallb_app, (token_xmlChar _ Ht), (IH Hr).
Qed.

(** ** The parser reads a printed document as its normal form *)

Lemma normalNode_eq (tag : str) (attrs : list (str * str)) (kids : list Node) :
  normalNode (Element tag attrs kids)
  = Element tag (map normalAttribute attrs) (map normalNode kids).
Proof. reflexivity. Qed.

Lemma normalAttributes (attrs : list (str * str)) :
  map spaceAttribute (map lineAttribute attrs) = map normalAttribute attrs.
Proof. rewrite map_map. reflexivity. Qed.

Lemma tokensOf_normal (n : Node) :
  tokensOf (normalNode n) = map spaceToken (map lineToken (tokensOf n)).
Proof.
  induction n as [tag attrs kids IH|d|d] using Node_induction; try reflexivity.
  rewrite normalNode_eq. cbn [tokensOf map lineToken spaceToken].
  rewrite normalAttributes. f_equal. rewrite !map_app. cbn [map lineToken spaceToken].
  f_equal. induction IH as [|k kids Hk _ IHk]; [reflexivity|].
  cbn [flat_map map]. now rewrite !map_app, Hk, IHk.
Qed.

Theorem xmlParse_serialize_normal (tag : str) (attrs : list (str * str)) (kids : list Node) :
  sealedBy tokenFits (tokensOf (Element tag attrs kids)) = true ->
  xmlParse (xmlDeclaration ++ nl ++ serialize (Element tag attrs kids))
  = Some (normalNode (Element tag attrs kids)).
Proof.
  intros H. set (root := Element tag attrs kids) in *.
  assert (Hall : sealedBy tokenFits (TText nl :: tokensOf root) = true).
  { change (sealedBy tokenFits (TText nl :: tokensOf root))
      with (true && true && sealedBy tokenFits (tokensOf root)). exact H. }
  change (nl ++ serialize root) with (flat_map printToken (TText nl :: tokensOf root)).
  unfold xmlParse.
  rewrite forallb_app, (tokens_xmlChar _ Hall).
  change (forallb isXmlChar xmlDeclaration) with true. cbn [andb].
  rewrite (lineEnds_plain_app xmlDeclaration) by reflexivity.
  rewrite (lineEnds_tokens _ Hall).
  rewrite stripDeclaration_declaration.
  unfold tokenize. rewrite (many_token_read _ (lineTokens_sealed _ Hall)).
  cbn [option_map fst map lineToken spaceToken].
  change (normalizeLineEnds nl) with nl.
  cbn [build]. change (forallb isSpace nl) with true. cbn match.
  rewrite <- tokensOf_normal. unfold root. rewrite normalNode_eq.
  rewrite <- (app_nil_r (tokensOf _)). rewrite build_root. reflexivity.
Qed.

(** ** The document of an encodable tree is read as its normal form *)

Lemma encodable_eq (item : RobloxAsset) :
  encodable item =
  forallb isXmlChar (name item)
  && forallb attrRawChar (className item)
  && (if emitsSource item
      then forallb isXmlChar (sourceText item) && negb (includes (sourceText item) "]]>")
      else true)
  && forallb propertyFits (entriesOf item)
  && forallb encodable (children item).
Proof. destruct item; reflexivity. Qed.

Lemma carried_eq (item : RobloxAsset) :
  carried item =
  forallb plainChar (name item)
  && forallb attrValueChar (className item)
  && (if emitsSource item
      then forallb plainChar (sourceText item) && negb (includes (sourceText item) "]]>")
      else true)
  && forallb propertyFits (entriesOf item)
  && forallb carried (children item).
Proof. destruct item; reflexivity. Qed.

Lemma attrValue_raw (c : ascii) : attrValueChar c = true -> attrRawChar c = true.
Proof. all_chars c. Qed.

Lemma attributeOk_fits (a : str * str) : attributeOk a = true -> attributeFits a = true.
Proof.
  unfold attributeOk, attributeFits. intros H. apply andb_true_iff in H as [Hk Hv].
  rewrite Hk. cbn [andb]. revert Hv. apply forallb_imp. exact attrValue_raw.
Qed.

Lemma tokenOk_fits (t : Token) : tokenOk t = true -> tokenFits t = true.
Proof.
  destruct t as [tag attrs|tag attrs|tag|d|d]; cbn [tokenOk tokenFits]; intros H;
    try discriminate; try exact H.
  - apply andb_true_iff in H as [H Hdup]. apply andb_true_iff in H as [Htag Hattrs].
    rewrite Htag, Hdup, andb_true_r. cbn [andb].
    revert Hattrs. clear. induction attrs as [|a attrs IH]; [reflexivity|].
    cbn [forallb]. intros H. apply andb_true_iff in H as [Ha H].
    now rewrite (attributeOk_fits _ Ha), IH.
  - destruct d as [|c d]; [discriminate|]. now apply plain_xmlChar.
  - apply andb_true_iff in H as [Hc Hn]. now rewrite (plain_xmlChar _ Hc), Hn.
Qed.

Lemma fitting_app (a b : list Token) :
  sealedBy tokenFits a = true -> sealedBy tokenFits b = true ->
  sealedBy tokenFits (a ++ b) = true.
Proof.
  intros Ha Hb. induction a as [|t a IH]; [exact Hb|].
  cbn [sealedBy app] in *.
  apply andb_true_iff in Ha as [Ha Hs]. apply andb_true_iff in Ha as [Ht Hn].
  rewrite Ht, (IH Hs). destruct (isText t); [|reflexivity].
  destruct a as [|t' a]; [discriminate|]. cbn [app]. now rewrite Hn.
Qed.

Lemma fitting_element (tag : str) (attrs : list (str * str)) (kids : list Node) :
  tokenFits (TOpen tag attrs) = true ->
  sealedBy tokenFits (flat_map tokensOf kids ++ [TClose tag]) = true ->
  sealedBy tokenFits (tokensOf (Element tag attrs kids)) = true.
Proof.
  intros Ho Hk. cbn [tokensOf sealedBy isText]. now rewrite Ho, Hk.
Qed.

Lemma fitting_chunk (d : str) (n : Node) (more : list Node) (rest : list Token) :
  tokenFits (TText d) = true ->
  startsText (tokensOf n) = false ->
  sealedBy tokenFits (tokensOf n) = true ->
  sealedBy tokenFits (flat_map tokensOf more ++ rest) = true ->
  sealedBy tokenFits (flat_map tokensOf (Text d :: n :: more) ++ rest) = true.
Proof.
  intros Hd Hs Hn Hr.
  change (flat_map tokensOf (Text d :: n :: more) ++ rest)
    with (TText d :: (tokensOf n ++ flat_map tokensOf more) ++ rest).
  rewrite <- app_assoc.
  cbn [sealedBy isText]. rewrite Hd.
  destruct (tokensOf n) as [|t toks] eqn:E; [destruct n; discriminate|].
  cbn [startsText] in Hs. cbn [app]. rewrite Hs. cbn [negb andb].
  change (t :: toks ++ flat_map tokensOf more ++ rest)
    with ((t :: toks) ++ flat_map tokensOf more ++ rest).
  now apply fitting_app.
Qed.

Lemma pad_fits (n : nat) (suffix : str) :
  forallb plainChar suffix = true ->
  tokenFits (TText ((nl ++ repeatStr "  " n) ++ suffix)) = true.
Proof. intros H. now apply tokenOk_fits, pad_ok. Qed.

Lemma pad_fits' (n : nat) : tokenFits (TText (nl ++ repeatStr "  " n)) = true.
Proof. apply tokenOk_fits, pad_ok'. Qed.

Lemma textNodes_fitting (s tag : str) :
  forallb isXmlChar s = true -> nameOk tag = true ->
  sealedBy tokenFits (flat_map tokensOf (textNodes s) ++ [TClose tag]) = true.
Proof.
  intros Hs Ht.
  destruct s as [|c s];
    cbn [textNodes flat_map tokensOf app sealedBy isText negb tokenFits].
  - now rewrite Ht.
  - now rewrite Hs, Ht.
Qed.

Lemma propertyNode_fitting (e : str * JsValue) (n : Node) :
  propertyFits e = true -> propertyNode e = Some n ->
  startsText (tokensOf n) = false /\ sealedBy tokenFits (tokensOf n) = true.
Proof.
  destruct e as [k v]. unfold propertyFits, propertyNode. cbn [fst snd].
  destruct v as [s|x|b| | |o]; intros H E; try discriminate; injection E as <-;
    (split; [reflexivity|]); apply fitting_element.
  - apply andb_true_iff in H as [Hk Hs].
    cbn [tokenFits forallb map hasDuplicate]. unfold attributeFits. cbn [fst snd].
    now rewrite Hk.
  - apply andb_true_iff in H as [Hk Hs]. now apply textNodes_fitting.
  - cbn [tokenFits forallb map hasDuplicate]. unfold attributeFits. cbn [fst snd].
    now rewrite H.
  - apply textNodes_fitting; [|reflexivity].
    apply plain_xmlChar, (forallb_and_r _ _ _ (number_chars x)).
  - cbn [tokenFits forallb map hasDuplicate]. unfold attributeFits. cbn [fst snd].
    now rewrite H.
  - apply textNodes_fitting; [|reflexivity].
    apply plain_xmlChar, (forallb_and_r _ _ _ (boolean_chars b)).
Qed.

Lemma propertyNodes_fitting (pad : str) (entries : list (str * JsValue))
    (rest : list Token) :
  tokenFits (TText pad) = true ->
  forallb propertyFits entries = true ->
  sealedBy tokenFits rest = true ->
  sealedBy tokenFits (flat_map tokensOf (propertyNodes pad entries) ++ rest) = true.
Proof.
  intros Hp He Hr. induction entries as [|e entries IH]; [exact Hr|].
  cbn [forallb] in He. apply andb_true_iff in He as [Hok He].
  unfold propertyNodes. cbn [flat_map]. fold (propertyNodes pad entries).
  destruct (propertyNode e) as [n|] eqn:E; [|now apply IH].
  destruct (propertyNode_fitting _ Hok E) as [Hs Hn].
  cbn [app]. apply fitting_chunk; auto.
Qed.

Lemma sourceNodes_fitting (pad : str) (item : RobloxAsset) (rest : list Token) :
  tokenFits (TText pad) = true ->
  (if emitsSource item
   then forallb isXmlChar (sourceText item) && negb (includes (sourceText item) "]]>")
   else true) = true ->
  sealedBy tokenFits rest = true ->
  sealedBy tokenFits (flat_map tokensOf (sourceNodes pad item) ++ rest) = true.
Proof.
  intros Hp Hs Hr. unfold sourceNodes. destruct (emitsSource item); [|exact Hr].
  apply fitting_chunk; auto.
  cbn [tokensOf flat_map app sealedBy isText tokenFits forallb map hasDuplicate].
  now rewrite Hs.
Qed.

Lemma childNodes_fitting (random : RandomSource) (depth : nat) (items : list RobloxAsset)
    (rest : list Token) :
  Forall (fittingItem random) items ->
  forallb encodable items = true ->
  sealedBy tokenFits rest = true ->
  forall calls,
    sealedBy tokenFits (flat_map tokensOf (childNodes random depth items calls) ++ rest)
    = true.
Proof.
  intros HF. induction HF as [|child items Hc _ IH]; intros Hrep Hr calls; [exact Hr|].
  cbn [forallb] in Hrep. apply andb_true_iff in Hrep as [Hchild Hrep].
  cbn [childNodes]. fold (childNodes random depth).
  apply fitting_chunk; auto using pad_fits', item_starts.
Qed.

Lemma referent_raw (n : N) : forallb attrRawChar ("RBX" ++ decimalN n) = true.
Proof. generalize (referent_attr n). apply forallb_imp. exact attrValue_raw. Qed.

Lemma item_fitting (random : RandomSource) (item : RobloxAsset) : fittingItem random item.
Proof.
  induction item as [i n c s ch p IH] using RobloxAsset_induction.
  intros Hrep depth calls. rewrite encodable_eq in Hrep.
  apply andb_true_iff in Hrep as [Hrep Hch]. apply andb_true_iff in Hrep as [Hrep Hprops].
  apply andb_true_iff in Hrep as [Hrep Hsrc]. apply andb_true_iff in Hrep as [Hname Hclass].
  set (item := mkAsset i n c s ch p) in *.
  rewrite itemNode_eq. cbv zeta. apply fitting_element.
  - cbn [tokenFits forallb]. unfold attributeFits. cbn [fst snd].
    rewrite Hclass, referent_raw. reflexivity.
  - rewrite <- app_assoc. cbn [app]. apply fitting_chunk.
    + apply pad_fits. reflexivity.
    + reflexivity.
    + apply fitting_element; [reflexivity|].
      rewrite <- app_assoc. cbn [app]. apply fitting_chunk.
      * apply pad_fits. reflexivity.
      * reflexivity.
      * apply fitting_element; [reflexivity|]. now apply textNodes_fitting.
      * rewrite flat_map_app, <- app_assoc.
        apply sourceNodes_fitting; [apply pad_fits; reflexivity|exact Hsrc|].
        rewrite flat_map_app, <- app_assoc.
        apply propertyNodes_fitting; [apply pad_fits; reflexivity|exact Hprops|].
        cbn [flat_map tokensOf app sealedBy isText negb].
        rewrite (app_assoc nl), pad_fits by reflexivity. reflexivity.
    + rewrite flat_map_app, <- app_assoc.
      apply childNodes_fitting; [exact IH|exact Hch|].
      cbn [flat_map tokensOf app sealedBy isText negb].
      rewrite pad_fits'. reflexivity.
Qed.

Lemma document_fitting (random : RandomSource) (asset : RobloxAsset) :
  encodable asset = true ->
  sealedBy tokenFits (tokensOf (documentNode random asset)) = true.
Proof.
  intros H. unfold documentNode.
  apply fitting_element; [reflexivity|].
  do 2 (apply fitting_chunk; [reflexivity|reflexivity|reflexivity|]).
  apply fitting_chunk; [reflexivity|apply item_starts|now apply item_fitting|].
  reflexivity.
Qed.

Lemma xmlParse_encodable (random : RandomSource) (asset : RobloxAsset) :
  encodable asset = true ->
  xmlParse (buildRbxmx random asset) = Some (normalNode (documentNode random asset)).
Proof.
  intros H. rewrite buildRbxmx_serialize. unfold documentNode.
  apply xmlParse_serialize_normal. now apply document_fitting.
Qed.

(** ** What comes back of a carried tree *)

Lemma carried_encodable (item : RobloxAsset) : carried item = true -> encodable item = true.
Proof.
  induction item as [i n c s ch p IH] using RobloxAsset_induction.
  rewrite carried_eq, encodable_eq. intros H.
  apply andb_true_iff in H as [H Hch]. apply andb_true_iff in H as [H Hprops].
  apply andb_true_iff in H as [H Hsrc]. apply andb_true_iff in H as [Hname Hclass].
  rewrite (plain_xmlChar _ Hname), (forallb_imp _ _ _ attrValue_raw Hclass), Hprops.
  cbn [andb]. apply andb_true_iff. split.
  - destruct (emitsSource _); [|reflexivity].
    apply andb_true_iff in Hsrc as [H1 H2]. now rewrite (plain_xmlChar _ H1), H2.
  - cbn [children] in *. induction IH as [|child rest Hc _ IHr]; [reflexivity|].
    cbn [forallb] in *. apply andb_true_iff in Hch as [H1 H2]. now rewrite (Hc H1), IHr.
Qed.

Lemma normalProperties_eq (item : RobloxAsset) :
  normalProperties item
  = mkAsset (id item) (name item) (className item) (source item)
      (map normalProperties (children item))
      (option_map (map normalEntry) (properties item)).
Proof. destruct item; reflexivity. Qed.

Lemma normalProperties_size (item : RobloxAsset) : size (normalProperties item) = size item.
Proof.
  induction item as [i n c s ch p IH] using RobloxAsset_induction.
  rewrite normalProperties_eq, !size_eq. cbn [children]. f_equal.
  induction IH as [|child rest Hc _ IHr]; [reflexivity|].
  change (list_sum (map size (map normalProperties (child :: rest))))
    with (size (normalProperties child) + list_sum (map size (map normalProperties rest))).
  change (list_sum (map size (child :: rest)))
    with (size child + list_sum (map size rest)).
  now rewrite Hc, IHr.
Qed.

Lemma normalValue_attr (v : str) :
  forallb attrValueChar v = true -> map normalizeSpace (normalizeLineEnds v) = v.
Proof.
  intros H. rewrite normalizeLineEnds_plain.
  - induction v as [|x v IH]; [reflexivity|]. cbn [forallb map] in *.
    apply andb_true_iff in H as [Hx Hv]. apply attrValueChar_facts in Hx as (-> & _).
    now rewrite IH.
  - revert H. apply forallb_imp. intros x Hx. now apply attrValueChar_facts in Hx.
Qed.

Lemma normal_textNodes (s : str) :
  map normalNode (textNodes s) = textNodes (normalizeLineEnds s).
Proof.
  destruct s as [|c s]; [reflexivity|]. cbn [textNodes map normalNode].
  destruct (normalizeLineEnds (c :: s)) eqn:E; [|reflexivity].
  now apply lineEnds_nil in E.
Qed.

Lemma normal_plainText (s : str) :
  forallb plainChar s = true -> map normalNode (textNodes s) = textNodes s.
Proof. intros H. now rewrite normal_textNodes, normalizeLineEnds_plain. Qed.

Lemma normal_element (tag : str) (attrs : list (str * str)) (kids : list Node) :
  normalNode (Element tag attrs kids)
  = Element tag (map normalAttribute attrs) (map normalNode kids).
Proof. reflexivity. Qed.

Lemma normal_propertyNodes (pad : str) (entries : list (str * JsValue)) :
  forallb plainChar pad = true ->
  map normalNode (propertyNodes pad entries) = propertyNodes pad (map normalEntry entries).
Proof.
  intros Hp. induction entries as [|[k v] entries IH]; [reflexivity|].
  unfold propertyNodes in *. cbn [flat_map map]. rewrite map_app, IH. f_equal.
  unfold propertyNode, normalEntry. cbn [fst snd].
  destruct v as [s|x|b| | |o]; try reflexivity; cbn [map]; rewrite normal_element;
    cbn [normalNode]; rewrite (normalizeLineEnds_plain _ Hp); unfold normalAttribute;
    cbn [map fst snd].
  - now rewrite normal_textNodes.
  - now rewrite normal_plainText by apply (forallb_and_r _ _ _ (number_chars x)).
  - now rewrite normal_plainText by apply (forallb_and_r _ _ _ (boolean_chars b)).
Qed.

Lemma normal_text (d : str) : forallb plainChar d = true -> normalNode (Text d) = Text d.
Proof. intros H. cbn [normalNode]. now rewrite normalizeLineEnds_plain. Qed.

Lemma normal_sourceNodes (pad : str) (item : RobloxAsset) :
  forallb plainChar pad = true ->
  (if emitsSource item
   then forallb plainChar (sourceText item) && negb (includes (sourceText item) "]]>")
   else true) = true ->
  map normalNode (sourceNodes pad item) = sourceNodes pad item.
Proof.
  intros Hp Hs. unfold sourceNodes. destruct (emitsSource item); [|reflexivity].
  apply andb_true_iff in Hs as [Hs _]. cbn [map]. rewrite normal_text by exact Hp.
  rewrite normal_element. cbn [map normalNode]. rewrite (normalizeLineEnds_plain _ Hs).
  reflexivity.
Qed.

Lemma normal_childNodes (random : RandomSource) (depth : nat) (items : list RobloxAsset) :
  Forall (normalItem random) items ->
  forallb carried items = true ->
  forall calls,
    map normalNode (childNodes random depth items calls)
    = childNodes random depth (map normalProperties items) calls.
Proof.
  induction 1 as [|child items Hc _ IH]; intros Hcar calls; [reflexivity|].
  cbn [forallb] in Hcar. apply andb_true_iff in Hcar as [H1 H2].
  cbn [childNodes map]. fold (childNodes random depth).
  rewrite normal_text by (rewrite forallb_app; now rewrite plain_repeat).
  now rewrite (Hc H1), (IH H2), normalProperties_size.
Qed.

Lemma plain_pad (n : nat) (suffix : str) :
  forallb plainChar suffix = true ->
  forallb plainChar ((nl ++ repeatStr "  " n) ++ suffix) = true.
Proof. intros H. now rewrite !forallb_app, plain_repeat, H. Qed.

Lemma normal_item (random : RandomSource) (item : RobloxAsset) : normalItem random item.
Proof.
  induction item as [i n c s ch p IH] using RobloxAsset_induction.
  intros Hcar depth calls. rewrite carried_eq in Hcar.
  apply andb_true_iff in Hcar as [Hcar Hch]. apply andb_true_iff in Hcar as [Hcar Hprops].
  apply andb_true_iff in Hcar as [Hcar Hsrc]. apply andb_true_iff in Hcar as [Hname Hclass].
  rewrite normalProperties_eq, !itemNode_eq. cbv zeta.
  cbn [name className source children properties] in *.
  rewrite normal_element. f_equal.
  - unfold normalAttribute. cbn [map fst snd].
    now rewrite (normalValue_attr _ Hclass), (normalValue_attr _ (referent_attr _)).
  - rewrite !map_app. cbn [map]. rewrite normal_element. cbn [map].
    rewrite !map_app. cbn [map]. rewrite normal_element. cbn [map].
    rewrite !normal_text by (apply plain_pad; reflexivity).
    rewrite normal_text by (rewrite forallb_app; now rewrite plain_repeat).
    rewrite (normal_plainText _ Hname).
    rewrite normal_sourceNodes by (try (apply plain_pad; reflexivity); exact Hsrc).
    rewrite normal_propertyNodes by (apply plain_pad; reflexivity).
    rewrite (normal_childNodes depth IH Hch).
    unfold sourceNodes, emitsSource, sourceText, entriesOf.
    cbn [source className properties]. now destruct p.
Qed.

Lemma firstSource_normal (item : RobloxAsset) :
  firstSource (normalProperties item) = firstSource item.
Proof.
  induction item as [i n c s ch p IH] using RobloxAsset_induction.
  rewrite normalProperties_eq, !firstSource_eq. unfold emitsSource.
  cbn [source className children].
  assert (E : firstSourceIn (map normalProperties ch) = firstSourceIn ch).
  { induction IH as [|child rest Hc _ IHr]; [reflexivity|].
    cbn [map firstSourceIn]. now rewrite Hc, IHr. }
  now rewrite E.
Qed.

Lemma decodedTree_normal (uuid : UuidSource) (item : RobloxAsset) :
  forall k, decodedTree uuid (normalProperties item) k = decodedTree uuid item k.
Proof.
  induction item as [i n c s ch p IH] using RobloxAsset_induction. intros k.
  rewrite !decodedTree_eq, firstSource_normal, normalProperties_eq.
  cbn [name className children].
  assert (E : forall k, decodedChildren uuid (map normalProperties ch) k
                        = decodedChildren uuid ch k).
  { induction IH as [|child rest Hc _ IHr]; intros k'; [reflexivity|].
    cbn [map decodedChildren]. rewrite Hc.
    destruct (decodedTree uuid child k') as [d k1]. now rewrite IHr. }
  now rewrite E.
Qed.

Lemma normal_document (random : RandomSource) (asset : RobloxAsset) :
  carried asset = true ->
  normalNode (documentNode random asset) = documentNode random (normalProperties asset).
Proof.
  intros H. unfold documentNode. rewrite normal_element. cbn [map].
  rewrite (normal_item random asset H). reflexivity.
Qed.

(** The exact form of the round trip, for every carried tree. *)
Lemma decode_encode_carried (uuid : UuidSource) (random : RandomSource)
    (asset : RobloxAsset) :
  carried asset = true ->
  parseRbxmx uuid (buildRbxmx random asset) = Ok (fst (decodedTree uuid asset 0)).
Proof.
  intros H. unfold parseRbxmx, parseRbxmxWith, parseFromString.
  rewrite (xmlParse_encodable _ _ (carried_encodable _ H)), (normal_document _ _ H).
  rewrite document_rootItem. cbv zeta.
  now rewrite extractItem_exact, decodedTree_normal.
Qed.

Lemma firstSource_none (item : RobloxAsset) :
  anyEmitsSource item = false -> firstSource item = None.
Proof.
  induction item as [i n c s ch p IH] using RobloxAsset_induction.
  rewrite anyEmitsSource_eq, firstSource_eq. intros H.
  apply orb_false_iff in H as [He Hch]. rewrite He. cbn [children] in *.
  induction IH as [|child rest Hc _ IHr]; [reflexivity|].
  cbn [existsb] in Hch. apply orb_false_iff in Hch as [H1 H2].
  cbn [firstSourceIn]. now rewrite (Hc H1), IHr.
Qed.

Lemma decodedChildren_preserved (uuid : UuidSource) (items : list RobloxAsset) :
  Forall (fun item => forall k, Preserved item (fst (decodedTree uuid item k))) items ->
  forall k, Forall2 Preserved items (fst (decodedChildren uuid items k)).
Proof.
  induction 1 as [|child rest Hc _ IH]; intros k; [constructor|].
  cbn [decodedChildren]. specialize (Hc k).
  destruct (decodedTree uuid child k) as [d k1]. specialize (IH k1).
  destruct (decodedChildren uuid rest k1) as [ds k2]. now constructor.
Qed.

Lemma decodedTree_preserved (uuid : UuidSource) (item : RobloxAsset) :
  forall k, Preserved item (fst (decodedTree uuid item k)).
Proof.
  induction item as [i n c s ch p IH] using RobloxAsset_induction. intros k.
  pose proof (@decodedChildren_preserved uuid ch IH k) as Hch.
  rewrite decodedTree_eq. cbn [children] in *.
  destruct (decodedChildren uuid ch k) as [ds k1]. cbn [fst] in *.
  constructor; cbn [name className source children]; try reflexivity.
  - intros He. now rewrite firstSource_eq, He.
  - apply firstSource_none.
  - exact Hch.
Qed.

(** ** Lemmas for the claims *)

Lemma escapeChar_namedEntity (c : ascii) : escapeChar c = namedEntity c.
Proof.
  destruct (escapeChar_cases c) as [[-> ->]|[[-> ->]|[[-> ->]|[[-> ->]|[[-> ->]|H]]]]];
    try reflexivity.
  destruct H as (E1 & E2 & E3 & E4 & E5 & ->).
  unfold namedEntity, namedEntities. cbn [find fst].
  rewrite (Ascii.eqb_sym _ c), E1, (Ascii.eqb_sym _ c), E2, (Ascii.eqb_sym _ c), E3,
    (Ascii.eqb_sym _ c), E4, (Ascii.eqb_sym _ c), E5.
  reflexivity.
Qed.

Lemma escapeXml_namedEntity (s : str) : escapeXml (Some s) = flat_map namedEntity s.
Proof.
  destruct s as [|c s]; [reflexivity|]. unfold escapeXml.
  apply flat_map_ext. intros x. apply escapeChar_namedEntity.
Qed.

Lemma generated (random : RandomSource) (items : list RobloxAsset) :
  Forall (generates random) items.
Proof. apply Forall_forall. intros x _. apply generateItem_serialize. Qed.

Lemma appendProperty_unsupported (indent xml key : str) (value : JsValue) :
  supported value = false -> appendProperty indent xml (key, value) = xml.
Proof. destruct value; try discriminate; reflexivity. Qed.

Lemma fold_left_supported (indent : str) (entries : list (str * JsValue)) (xml : str) :
  fold_left (appendProperty indent) (filter (fun entry => supported (snd entry)) entries) xml
  = fold_left (appendProperty indent) entries xml.
Proof.
  revert xml. induction entries as [|[k v] entries IH]; intros xml; [reflexivity|].
  cbn [filter snd]. destruct (supported v) eqn:E; cbn [fold_left].
  - apply IH.
  - now rewrite (appendProperty_unsupported indent xml k v E).
Qed.

Lemma generateItem_withoutUnsupported (random : RandomSource) (item : RobloxAsset)
    (depth calls : nat) :
  generateItem random (withoutUnsupported item) depth calls
  = generateItem random item depth calls.
Proof.
  revert depth calls.
  induction item as [i n c s ch p IH] using RobloxAsset_induction. intros depth calls.
  rewrite !generateItem_eq. cbn [withoutUnsupported id name className source children properties].
  cbv zeta.
  assert (Hs : emitsSource
                 (mkAsset i n c s (map withoutUnsupported ch)
                    (option_map (filter (fun entry => supported (snd entry))) p))
               = emitsSource (mkAsset i n c s ch p)) by reflexivity.
  assert (Ht : sourceText
                 (mkAsset i n c s (map withoutUnsupported ch)
                    (option_map (filter (fun entry => supported (snd entry))) p))
               = sourceText (mkAsset i n c s ch p)) by reflexivity.
  assert (He : entriesOf
                 (mkAsset i n c s (map withoutUnsupported ch)
                    (option_map (filter (fun entry => supported (snd entry))) p))
               = filter (fun entry => supported (snd entry)) (entriesOf (mkAsset i n c s ch p))).
  { destruct p; reflexivity. }
  rewrite Hs, Ht, He, fold_left_supported.
  assert (Hc : forall xml k,
             generateChildren random depth (map withoutUnsupported ch) xml k
             = generateChildren random depth ch xml k).
  { clear -IH. induction IH as [|child rest Hchild _ IHrest]; intros xml k; [reflexivity|].
    cbn [map generateChildren]. rewrite Hchild.
    destruct (generateItem random child (depth + 1) k) as [text k'].
    apply IHrest. }
  now rewrite Hc.
Qed.

(** An element whose source property has no text decodes with no source. *)
Lemma empty_source_unset (uuid : UuidSource) (tag : str) (attrs : list (str * str))
    (kids : list Node) (k : nat) (sourceNode : Node) :
  querySelector (Element tag attrs kids) selSource = Some sourceNode ->
  textContent sourceNode = "" ->
  source (fst (extractItem uuid (Element tag attrs kids) k)) = None.
Proof.
  intros Hq Ht. rewrite extractItem_eq. cbv zeta.
  destruct (extractChildren uuid kids k) as [ds k']. cbn [fst source].
  rewrite Hq. cbn [option_map]. now rewrite Ht.
Qed.

(** The class name is the [class] attribute, or ["Folder"] when the
    attribute is absent or empty. *)
Lemma className_fallback (uuid : UuidSource) (tag : str) (attrs : list (str * str))
    (kids : list Node) (k : nat) :
  className (fst (extractItem uuid (Element tag attrs kids) k))
  = match getAttribute attrs "class" with
    | Some (c :: cs) => c :: cs
    | _ => "Folder"
    end.
Proof.
  rewrite extractItem_eq. cbv zeta. now destruct (extractChildren uuid kids k).
Qed.

(** The name is the text of the first [Name] property below the element, or
    ["Unnamed"] when there is none or it has no text. *)
Lemma name_fallback (uuid : UuidSource) (tag : str) (attrs : list (str * str))
    (kids : list Node) (k : nat) :
  name (fst (extractItem uuid (Element tag attrs kids) k))
  = match option_map textContent (querySelector (Element tag attrs kids) selName) with
    | Some (c :: cs) => c :: cs
    | _ => "Unnamed"
    end.
Proof.
  rewrite extractItem_eq. cbv zeta. now destruct (extractChildren uuid kids k).
Qed.


(** When the source is emitted, it stands in a CDATA section of the text. *)
Lemma source_emitted (random : RandomSource) (item : RobloxAsset) (depth calls : nat) :
  emitsSource item = true ->
  exists before after,
    fst (generateItem random item depth calls)
    = before ++ "<ProtectedString name=" ++ dq ++ "Source" ++ dq ++ "><![CDATA["
        ++ sourceText item ++ "]]></ProtectedString>" ++ after.
Proof.
  intros H. rewrite generateItem_eq. cbv zeta.
  rewrite fold_left_properties, (generateChildren_text _ (generated random _)), H.
  cbn [fst]. set (indent := repeatStr "  " (depth + 1)).
  exists (((indent ++ "<Item class=" ++ dq ++ className item ++ dq ++ " referent=" ++ dq
              ++ ("RBX" ++ decimalN (randomReferentNumber random calls)) ++ dq ++ ">" ++ nl)
             ++ (indent ++ "  <Properties>" ++ nl))
            ++ (indent ++ "    <string name=" ++ dq ++ "Name" ++ dq ++ ">"
                  ++ escapeXml (Some (name item)) ++ "</string>" ++ nl)
            ++ indent ++ "    ").
  eexists. flatten'. reflexivity.
Qed.

(** Only [10^8] referents exist: in a document of more nodes two of them are
    equal, whatever [Math.random] draws. *)
Lemma NoDup_map_coarser (A B C : Type) (f : A -> B) (h : A -> C) (l : list A) :
  (forall a b, h a = h b -> f a = f b) -> NoDup (map f l) -> NoDup (map h l).
Proof.
  intros Hfh. induction l as [|a l IH]; cbn [map]; intros H; [constructor|].
  inversion H as [|? ? Hin Hnd]; subst. constructor; [|now apply IH].
  intros Ha. apply Hin. apply in_map_iff in Ha as (b & Eb & Hb).
  apply in_map_iff. exists b. split; [|exact Hb]. now apply Hfh.
Qed.

Lemma referents_repeat_beyond_range (random : RandomSource) (asset : RobloxAsset) :
  representable asset = true ->
  (100000000 < N.of_nat (size asset))%N ->
  ~ NoDup (referentsOf (parseFromString (buildRbxmx random asset))).
Proof.
  intros Hr Hsize Hnd. rewrite (referents_document random _ Hr) in Hnd.
  apply (NoDup_map_coarser (referentOf random)
           (fun k => N.to_nat (randomReferentNumber random k))) in Hnd.
  - apply (NoDup_incl_length (l' := seq 0 (N.to_nat 100000000))) in Hnd.
    + rewrite length_map, !length_seq in Hnd. lia.
    + intros x Hx. apply in_map_iff in Hx as (k & <- & _). apply in_seq.
      unfold randomReferentNumber.
      assert (H : (random k mod 100000000 < 100000000)%N) by (apply N.mod_lt; discriminate).
      revert H. generalize (random k mod 100000000)%N. intros x H. lia.
  - intros a b E. apply N2Nat.inj in E. unfold referentOf. now rewrite E.
Qed.

Lemma forallb_elements (p : Node -> bool) (kids : list Node) :
  forallb (fun kid => forallb p (elements kid)) kids = true ->
  forallb p (flat_map elements kids) = true.
Proof.
  induction kids as [|kid kids IH]; [reflexivity|]. cbn [forallb flat_map].
  intros H. apply andb_true_iff in H as [Hk Hr]. now rewrite forallb_app, Hk, IH.
Qed.

Lemma errorDocument_hasNoItem (doc : Node) :
  isErrorDocument doc = true -> hasNoItem doc = true.
Proof.
  destruct doc as [tag attrs kids|d|d]; try discriminate. cbn [isErrorDocument].
  intros H. apply andb_true_iff in H as [Ht Hk]. apply str_eqb_eq in Ht.
  unfold hasNoItem. cbn [elements forallb tagOf]. rewrite Ht.
  change ("parsererror" =? "Item") with false. cbn [negb andb].
  now apply forallb_elements.
Qed.

Lemma parseRbxmxWith_throws (wellFormedXml : str -> Prop) (domParser : str -> Node)
    (uuid : UuidSource) (xmlText : str) :
  followsStandard wellFormedXml domParser ->
  ~ wellFormedXml xmlText \/ hasNoItem (domParser xmlText) = true ->
  parseRbxmxWith domParser uuid xmlText = Throw errorMessage.
Proof.
  intros Hstd H.
  assert (Hn : hasNoItem (domParser xmlText) = true).
  { destruct H as [H|H]; [|exact H]. now apply errorDocument_hasNoItem, Hstd. }
  unfold parseRbxmxWith, documentQuerySelector. cbv zeta.
  now rewrite (queryNode_hasNoItem _ Hn).
Qed.

(** The parser of this development follows the HTML Standard, for the
    texts it takes for well-formed. *)
Lemma parseFromString_standard : followsStandard wellFormed parseFromString.
Proof.
  intros text H. unfold parseFromString.
  destruct (xmlParse text) as [root|] eqn:E; [|reflexivity]. elim H. now exists root.
Qed.

(** * The claims *)

(** ** C1: round trip *)

(** C1 as stated fails: a node with the empty name comes back from
    [parseRbxmx (buildRbxmx tree)] named ["Unnamed"]. *)
Lemma roundtrip_loses_empty_name :
  exists decoded,
    parseRbxmx sampleUuid (buildRbxmx sampleRandom (leaf "" "Folder" None)) = Ok decoded
    /\ name decoded <> name (leaf "" "Folder" None).
Proof. eexists. split; [vm_compute; reflexivity|]. discriminate. Qed.

(** A module script without source above a script comes back with the
    source of the script: the selector of [sourceNode] reaches below the
    element's own properties. *)
Lemma source_taken_from_descendant :
  exists decoded,
    parseRbxmx sampleUuid
      (buildRbxmx sampleRandom
         (mkAsset "" "Lib" "ModuleScript" None [leaf "Main" "Script" (Some "print(1)")] None))
    = Ok decoded
    /\ source decoded = Some "print(1)".
Proof. eexists. split; vm_compute; reflexivity. Qed.

(** The white space the theorem below leaves out does not come back: the
    parser turns a carriage return in a name and in a source into a line
    feed, and a tab, a line feed and a carriage return in a class name into
    a space. *)
Lemma roundtrip_normalizes_white_space :
  (exists decoded,
     parseRbxmx sampleUuid (buildRbxmx sampleRandom (leaf ("a" ++ cr ++ "b") "Folder" None))
     = Ok decoded
     /\ name decoded = "a" ++ nl ++ "b")
  /\ (exists decoded,
        parseRbxmx sampleUuid
          (buildRbxmx sampleRandom (leaf "Door" ("A" ++ tab ++ "B") None))
        = Ok decoded
        /\ className decoded = "A B")
  /\ (exists decoded,
        parseRbxmx sampleUuid
          (buildRbxmx sampleRandom (leaf "Door" ("A" ++ nl ++ "B") None))
        = Ok decoded
        /\ className decoded = "A B")
  /\ (exists decoded,
        parseRbxmx sampleUuid
          (buildRbxmx sampleRandom (leaf "Door" ("A" ++ cr ++ "B") None))
        = Ok decoded
        /\ className decoded = "A B")
  /\ (exists decoded,
        parseRbxmx sampleUuid
          (buildRbxmx sampleRandom (leaf "Main" "Script" (Some ("a" ++ cr ++ "b"))))
        = Ok decoded
        /\ source decoded = Some ("a" ++ nl ++ "b")).
Proof. repeat split; eexists; split; vm_compute; reflexivity. Qed.

(** The characters the theorem below leaves out make the decoder throw: a
    character XML does not allow, wherever it is written, a markup
    character in a class name or in the name of a property, and the CDATA
    terminator in a source. *)
Lemma roundtrip_rejects_unfit_trees :
  Forall (fun tree => parseRbxmx sampleUuid (buildRbxmx sampleRandom tree) = Throw errorMessage)
    unfitTrees.
Proof. repeat constructor; vm_compute; reflexivity. Qed.

(** C1, amended.  For a tree whose names, class names and emitted sources
    the parser leaves as they are, and whose written properties XML can
    hold, decoding the encoded text succeeds and keeps, at every depth: the
    name, or ["Unnamed"] for the empty one; the class name, or ["Folder"]
    for the empty one; the source of every node whose source is emitted; no
    source where none is emitted in the subtree; the children, in number
    and in order. *)
Theorem decode_encode_preserved (uuid : UuidSource) (random : RandomSource)
    (asset : RobloxAsset) :
  carried asset = true ->
  exists decoded,
    parseRbxmx uuid (buildRbxmx random asset) = Ok decoded /\ Preserved asset decoded.
Proof.
  intros H. eexists. split; [now apply decode_encode_carried|].
  apply decodedTree_preserved.
Qed.

Lemma decode_encode_preserved_witness :
  carried looseTree = true
  /\ exists decoded,
       parseRbxmx sampleUuid (buildRbxmx sampleRandom looseTree) = Ok decoded
       /\ Preserved looseTree decoded.
Proof.
  split; [reflexivity|].
  apply (decode_encode_preserved sampleUuid sampleRandom looseTree). reflexivity.
Defined.

(** ** C2: referent uniqueness *)

(** C2 at the failing input: for a tree of 1000 nodes and draws of
    [Math.random] of which two lead to the same integer, the document holds
    1000 referents that are not pairwise distinct. *)
Theorem referents_collide :
  size (wideTree 1000) = 1000 /\
  length (referentsOf (parseFromString (buildRbxmx collidingRandom (wideTree 1000)))) = 1000 /\
  ~ NoDup (referentsOf (parseFromString (buildRbxmx collidingRandom (wideTree 1000)))).
Proof.
  assert (H : representable (wideTree 1000) = true) by (vm_compute; reflexivity).
  rewrite (referents_document collidingRandom _ H).
  split; [vm_compute; reflexivity|]. split; [vm_compute; reflexivity|].
  apply hasDuplicate_NoDup. vm_compute. reflexivity.
Qed.

(** ** C3: decode failure *)



(** ** C4: escaping *)

(** C4. [escapeXml] writes each of the five markup-significant characters as
    its named entity and leaves the others; a missing and an empty string
    give the empty string; the parser gets the text back; the encoder writes
    every text property and the name through it. *)
Theorem escapeXml_rule (s : str) :
  escapeXml None = ""
  /\ escapeXml (Some "") = ""
  /\ escapeXml (Some s) = flat_map namedEntity s
  /\ expandReferences (escapeXml (Some s)) = Some s
  /\ (forall indent xml key,
        appendProperty indent xml (key, VString s)
        = xml ++ indent ++ "    <string name=" ++ dq ++ key ++ dq ++ ">"
            ++ flat_map namedEntity s ++ "</string>" ++ nl)
  /\ (forall random item depth calls,
        exists before after,
          fst (generateItem random item depth calls)
          = before ++ "<string name=" ++ dq ++ "Name" ++ dq ++ ">"
              ++ flat_map namedEntity (name item) ++ "</string>" ++ after).
Proof.
  repeat split; try reflexivity.
  - apply escapeXml_namedEntity.
  - destruct s as [|c s]; [reflexivity|]. apply expandReferences_escape.
  - intros indent xml key. cbn [appendProperty]. now rewrite escapeXml_namedEntity.
  - intros random item depth calls.
    rewrite generateItem_eq. cbv zeta.
    rewrite fold_left_properties, (generateChildren_text _ (generated random _)).
    cbn [fst]. rewrite escapeXml_namedEntity.
    set (indent := repeatStr "  " (depth + 1)).
    exists ((indent ++ "<Item class=" ++ dq ++ className item ++ dq ++ " referent=" ++ dq
              ++ ("RBX" ++ decimalN (randomReferentNumber random calls)) ++ dq ++ ">" ++ nl)
              ++ (indent ++ "  <Properties>" ++ nl) ++ indent ++ "    ").
    destruct (emitsSource item); eexists; flatten'; reflexivity.
Qed.

(** ** C5: well-formed output *)

(** C5 as stated fails: a source that holds the CDATA terminator ends its
    CDATA section early, and the text is not well-formed. *)
Lemma buildRbxmx_ill_formed :
  ~ wellFormed (buildRbxmx sampleRandom (leaf "Main" "Script" (Some "a]]>b"))).
Proof. intros [root H]. vm_compute in H. discriminate. Qed.

(** A class name goes into its attribute as it is: with a markup character
    in it the text is not well-formed either. *)
Lemma buildRbxmx_raw_class_name :
  ~ wellFormed (buildRbxmx sampleRandom (leaf "Door" "Fol<der" None)).
Proof. intros [root H]. vm_compute in H. discriminate. Qed.

(** So it is with each kind of character the theorem below leaves out: a
    character XML does not allow, wherever it is written, a markup
    character in a class name or in the name of a property, and the CDATA
    terminator in a source. *)
Lemma buildRbxmx_unfit_trees :
  Forall (fun tree => ~ wellFormed (buildRbxmx sampleRandom tree)) unfitTrees.
Proof. repeat constructor; intros [root H]; vm_compute in H; discriminate. Qed.

(** C5, amended.  The text written for a tree is well-formed when, at every
    node, the name, the emitted source and the text properties are made of
    characters XML allows, the class name and the names of the written
    properties too, these without ['<'], ['&'] and double quote, and the
    emitted source is free of the CDATA terminator. *)
Theorem buildRbxmx_well_formed (random : RandomSource) (asset : RobloxAsset) :
  encodable asset = true -> wellFormed (buildRbxmx random asset).
Proof.
  intros H. exists (normalNode (documentNode random asset)). now apply xmlParse_encodable.
Qed.

Lemma buildRbxmx_well_formed_witness :
  encodable spacedTree = true /\ wellFormed (buildRbxmx sampleRandom spacedTree).
Proof.
  split; [reflexivity|].
  apply (buildRbxmx_well_formed sampleRandom spacedTree). reflexivity.
Defined.

(** ** C6: script source *)




(** ** C7: encoder totality *)

(** C7. [buildRbxmx] is a total function, and a property whose value is not
    a string, a number or a boolean leaves no trace: the text is the one of
    the tree without these properties. *)
Theorem unsupported_properties_omitted (random : RandomSource) (asset : RobloxAsset) :
  buildRbxmx random asset = buildRbxmx random (withoutUnsupported asset).
Proof. unfold buildRbxmx. now rewrite generateItem_withoutUnsupported. Qed.

(** ** C8: decode asymmetry *)

(** C8. No node of a decoded tree has a properties map. *)
Theorem decoded_properties_absent (uuid : UuidSource) (xmlText : str) (tree : RobloxAsset) :
  parseRbxmx uuid xmlText = Ok tree ->
  everyNode (fun node => properties node = None) tree.
Proof.
  intros H. apply parseRbxmx_every in H. revert H. apply everyNode_impl.
  intros node [Hp _]. exact Hp.
Qed.

Lemma decoded_properties_absent_witness :
  exists tree,
    parseRbxmx sampleUuid (buildRbxmx sampleRandom sampleTree) = Ok tree
    /\ everyNode (fun node => properties node = None) tree.
Proof.
  eexists. split; [vm_compute; reflexivity|].
  apply (decoded_properties_absent sampleUuid (buildRbxmx sampleRandom sampleTree)).
  vm_compute. reflexivity.
Defined.

(** ** C9: decoder fallbacks *)

(** C9 at the failing input: the outer [Item] has no [Name] property, and
    [parseRbxmx] names it after its child instead of ["Unnamed"]. *)
Theorem name_taken_from_descendant :
  xmlParse namelessParentDocument
  = Some (Element "Item" [("class", "Model")]
            [Element "Item" [("class", "Part")]
               [Element "Properties" []
                  [Element "string" [("name", "Name")] [Text "Kid"]]]])
  /\ parseRbxmx sampleUuid namelessParentDocument
     = Ok (mkAsset (sampleUuid 1) "Kid" "Model" None
             [mkAsset (sampleUuid 0) "Kid" "Part" None [] None] None).
Proof. split; vm_compute; reflexivity. Qed.

(** ** C10: empty source *)

(** C10. No node of a decoded tree has the empty string as its source. *)
Theorem decoded_source_never_empty (uuid : UuidSource) (xmlText : str) (tree : RobloxAsset) :
  parseRbxmx uuid xmlText = Ok tree ->
  everyNode (fun node => source node <> Some "") tree.
Proof.
  intros H. apply parseRbxmx_every in H. revert H. apply everyNode_impl.
  intros node [_ Hs]. exact Hs.
Qed.

Lemma decoded_source_never_empty_witness :
  parseRbxmx sampleUuid emptySourceDocument
  = Ok (mkAsset (sampleUuid 0) "Main" "Script" None [] None)
  /\ everyNode (fun node => source node <> Some "")
       (mkAsset (sampleUuid 0) "Main" "Script" None [] None).
Proof.
  split; [vm_compute; reflexivity|].
  apply (decoded_source_never_empty sampleUuid emptySourceDocument).
  vm_compute. reflexivity.
Defined.

(** * Further properties of the codec *)

(** ** The decoded tree is a fixed point *)

Lemma representable_nodes (item : RobloxAsset) :
  representable item = true -> Forall (fun c => representable c = true) (children item).
Proof.
  rewrite representable_eq. intros H. apply andb_true_iff in H as [_ H].
  apply Forall_forall. intros x Hx. now apply (proj1 (forallb_forall _ _) H).
Qed.

Lemma firstSource_ok (item : RobloxAsset) (s : str) :
  representable item = true -> firstSource item = Some s ->
  forallb plainChar s = true /\ includes s "]]>" = false.
Proof.
  revert s. induction item as [i n c t ch p IH] using RobloxAsset_induction.
  intros s Hr. pose proof (representable_nodes _ Hr) as Hch. rewrite representable_eq in Hr.
  apply andb_true_iff in Hr as [Hr _]. apply andb_true_iff in Hr as [Hr _].
  apply andb_true_iff in Hr as [_ Hsrc].
  rewrite firstSource_eq. destruct (emitsSource _) eqn:He.
  - destruct (emitted_source _ He) as (x & r & E1 & E2). rewrite E1, E2 in *.
    intros H. injection H as <-. apply andb_true_iff in Hsrc as [H1 H2].
    now apply negb_true_iff in H2.
  - cbn [children] in *. clear He Hsrc.
    induction IH as [|child rest Hc _ IHr]; [discriminate|].
    inversion Hch; subst. cbn [firstSourceIn].
    destruct (firstSource child) as [t'|] eqn:E; [|now apply IHr].
    intros H. injection H as <-. now apply Hc.
Qed.

Lemma decodedChildren_settled (uuid uuid' : UuidSource) (items : list RobloxAsset) :
  Forall (settled uuid uuid') items ->
  forall k k',
    firstSourceIn (fst (decodedChildren uuid items k)) = firstSourceIn items
    /\ decodedChildren uuid' (fst (decodedChildren uuid items k)) k'
       = decodedChildren uuid' items k'
    /\ (forallb representable items = true ->
        forallb representable (fst (decodedChildren uuid items k)) = true).
Proof.
  induction 1 as [|child rest Hc _ IH]; intros k k'; [repeat split; reflexivity|].
  cbn [decodedChildren]. destruct (Hc k k') as (H1 & H2 & H3).
  destruct (decodedTree uuid child k) as [d k1] eqn:Ed. cbn [fst] in *.
  destruct (decodedTree uuid' child k') as [d' k1'] eqn:Ed'.
  destruct (IH k1 k1') as (I1 & I2 & I3).
  destruct (decodedChildren uuid rest k1) as [ds k2] eqn:Eds. cbn [fst] in *.
  repeat split.
  - cbn [firstSourceIn]. now rewrite H1, I1.
  - cbn [decodedChildren]. rewrite H2, I2. reflexivity.
  - cbn [forallb]. intros H. apply andb_true_iff in H as [Ha Hb].
    now rewrite (H3 Ha), (I3 Hb).
Qed.

Lemma norm_plain (n : str) :
  forallb plainChar n = true ->
  forallb plainChar (match n with [] => "Unnamed" | _ :: _ => n end) = true.
Proof. now destruct n. Qed.

Lemma norm_attr (c : str) :
  forallb attrValueChar c = true ->
  forallb attrValueChar (match c with [] => "Folder" | _ :: _ => c end) = true.
Proof. now destruct c. Qed.

Lemma decoded_settled (uuid uuid' : UuidSource) (item : RobloxAsset) :
  settled uuid uuid' item.
Proof.
  induction item as [i n c s ch p IH] using RobloxAsset_induction.
  intros k k'. set (item := mkAsset i n c s ch p).
  destruct (decodedChildren_settled IH k k') as (C1 & C2 & C3).
  assert (Hfirst : firstSource (fst (decodedTree uuid item k)) = firstSource item).
  { rewrite decodedTree_eq. cbn [children item].
    destruct (decodedChildren uuid ch k) as [ds k1]. cbn [fst] in *.
    rewrite (firstSource_eq {| id := uuid k1 |}). unfold emitsSource at 1.
    cbn [source className children].
    pose proof (firstSource_nonempty item) as Hne.
    rewrite C1. rewrite (firstSource_eq item) in *. cbn [children item] in *.
    unfold emitsSource in *. cbn [source className item] in *.
    destruct s as [[|x r]|]; cbn [name className item].
    - match goal with |- (if ?b then _ else _) = _ => now destruct b end.
    - destruct (scriptLike c) eqn:Es.
      + destruct c; [vm_compute in Es; discriminate|]. now rewrite Es.
      + match goal with |- (if ?b then _ else _) = _ => now destruct b end.
    - match goal with |- (if ?b then _ else _) = _ => now destruct b end. }
  split; [exact Hfirst|]. split.
  - rewrite (decodedTree_eq uuid' (fst _)), (decodedTree_eq uuid' item), Hfirst.
    rewrite (decodedTree_eq uuid item). cbn [children item].
    destruct (decodedChildren uuid ch k) as [ds k1]. cbn [fst children name className] in *.
    rewrite C2. destruct (decodedChildren uuid' ch k') as [ds' k1']. cbn [name className item].
    f_equal. f_equal; [now destruct n|now destruct c].
  - intros Hr.
    assert (Hs : forall t, firstSource item = Some t ->
                           forallb plainChar t = true /\ includes t "]]>" = false)
      by (intros t; now apply firstSource_ok).
    rewrite <- Hfirst in Hs. rewrite representable_eq in Hr.
    apply andb_true_iff in Hr as [Hr Hch]. apply andb_true_iff in Hr as [Hr _].
    apply andb_true_iff in Hr as [Hr _]. apply andb_true_iff in Hr as [Hname Hclass].
    revert Hs Hfirst. rewrite (decodedTree_eq uuid item). cbn [children item] in *.
    specialize (C3 Hch).
    destruct (decodedChildren uuid ch k) as [ds k1]. cbn [fst] in *. intros Hs Hfirst.
    rewrite representable_eq. cbn [name className children entriesOf properties forallb].
    cbn [name className item] in *.
    rewrite C3, !andb_true_r.
    apply andb_true_iff. split; [apply andb_true_iff; split|].
    + exact (norm_plain _ Hname).
    + exact (norm_attr _ Hclass).
    + destruct (emitsSource _) eqn:He; [|reflexivity].
      rewrite firstSource_eq, He in Hs. cbn [source] in Hs.
      destruct (emitted_source _ He) as (x & r & E1 & E2). rewrite E2.
      cbn [source] in E1. destruct (Hs _ E1) as [H1 H2]. now rewrite H1, H2.
Qed.

(** ** The identifiers of a decoded tree *)

Lemma identifiers_eq (tree : RobloxAsset) :
  identifiers tree = flat_map identifiers (children tree) ++ [id tree].
Proof. destruct tree; reflexivity. Qed.

Lemma extractChildren_ids (uuid : UuidSource) (kids : list Node) :
  Forall (numbersIds uuid) kids ->
  forall k,
    snd (extractChildren uuid kids k)
    = k + list_sum (map size (fst (extractChildren uuid kids k)))
    /\ flat_map identifiers (fst (extractChildren uuid kids k))
       = map uuid (seq k (list_sum (map size (fst (extractChildren uuid kids k))))).
Proof.
  induction 1 as [|n kids Hn _ IH]; intros k.
  - cbn. split; [lia|reflexivity].
  - cbn [extractChildren]. fold (extractChildren uuid).
    destruct n as [t a ks|d|d]; try apply IH.
    destruct (t =? "Item"); [|apply IH].
    destruct (Hn t a ks k eq_refl) as [H1 H2].
    destruct (extractItem uuid (Element t a ks) k) as [child k1]. cbn [fst snd] in *.
    destruct (IH k1) as [I1 I2].
    destruct (extractChildren uuid kids k1) as [others k2]. cbn [fst snd] in *.
    change (list_sum (map size (child :: others)))
      with (size child + list_sum (map size others)).
    cbn [flat_map]. subst k1. split; [lia|].
    now rewrite seq_app, map_app, H2, I2.
Qed.

Lemma extractItem_ids (uuid : UuidSource) (n : Node) : numbersIds uuid n.
Proof.
  induction n as [tag attrs kids IH|d|d] using Node_induction;
    intros tag' attrs' kids' k E; try discriminate.
  clear E. rewrite extractItem_eq. cbv zeta.
  destruct (extractChildren_ids IH k) as [H1 H2].
  destruct (extractChildren uuid kids k) as [ds k1]. cbn [fst snd] in *.
  rewrite size_eq, identifiers_eq. cbn [children id]. subst k1. split; [lia|].
  now rewrite seq_S, map_app, H2.
Qed.

Lemma queryNode_element (sel : Selector) (n : Node) :
  forall p m, queryNode sel p n = Some m -> exists tag attrs kids, m = Element tag attrs kids.
Proof.
  induction n as [tag attrs kids IH|d|d] using Node_induction; intros p m; try discriminate.
  rewrite queryNode_eq. destruct (matchesSelector _ _ _ _).
  - intros H. injection H as <-. eauto.
  - generalize (Some tag). induction IH as [|k kids Hk _ IHk]; intros q; [discriminate|].
    cbn [queryNodes]. destruct (queryNode sel q k) eqn:E.
    + intros H. injection H as <-. eauto.
    + apply IHk.
Qed.

(** ** A second round trip *)

Lemma parseRbxmx_settled (uuid uuid' : UuidSource) (random random' random'' : RandomSource)
    (asset decoded : RobloxAsset) :
  representable asset = true ->
  parseRbxmx uuid (buildRbxmx random asset) = Ok decoded ->
  parseRbxmx uuid' (buildRbxmx random' decoded)
  = parseRbxmx uuid' (buildRbxmx random'' asset).
Proof.
  intros Hr H. rewrite (decode_encode_exact uuid random _ Hr) in H. injection H as <-.
  destruct (decoded_settled uuid uuid' asset 0 0) as (_ & H2 & H3).
  rewrite (decode_encode_exact uuid' random' _ (H3 Hr)), H2.
  now rewrite (decode_encode_exact uuid' random'' _ Hr).
Qed.

(** ** Only the first [Item] of a document is decoded *)

Lemma queryNodes_hasNoItem (p : option str) (ns : list Node) :
  forallb hasNoItem ns = true -> queryNodes (SelType "Item") p ns = None.
Proof.
  induction ns as [|n ns IH]; [reflexivity|]. cbn [forallb queryNodes].
  intros H. apply andb_true_iff in H as [H1 H2].
  now rewrite (queryNode_hasNoItem _ H1), IH.
Qed.

(** ** More on [escapeXml] *)

Lemma escapeChar_markupFree (c : ascii) : forallb markupFree (escapeChar c) = true.
Proof.
  destruct (escapeChar_cases c) as [[-> ->]|[[-> ->]|[[-> ->]|[[-> ->]|[[-> ->]|H]]]]];
    try reflexivity.
  destruct H as (E1 & E2 & _ & E4 & E5 & ->). cbn [forallb]. unfold markupFree.
  now rewrite E1, E2, E4, E5.
Qed.

Lemma expand_escapeXml (s : str) : expandReferences (escapeXml (Some s)) = Some s.
Proof. destruct s as [|c s]; [reflexivity|]. apply expandReferences_escape. Qed.

Lemma escapeXml_flat (s : str) : escapeXml (Some s) = flat_map escapeChar s.
Proof. now destruct s. Qed.

Lemma escape_length (s : str) : length s <= length (flat_map escapeChar s).
Proof.
  induction s as [|c s IH]; [reflexivity|]. cbn [flat_map]. rewrite length_app.
  destruct (escapeChar_cases c) as [[_ ->]|[[_ ->]|[[_ ->]|[[_ ->]|[[_ ->]|H]]]]];
    cbn [length]; try lia.
  destruct H as (_ & _ & _ & _ & _ & ->). cbn [length]. lia.
Qed.

Lemma literal_cases (c : ascii) :
  literalChar c = true /\ escapeChar c = [c]
  \/ literalChar c = false /\ 4 <= length (escapeChar c) /\ In "&"%char (escapeChar c).
Proof.
  destruct (escapeChar_cases c) as [[-> ->]|[[-> ->]|[[-> ->]|[[-> ->]|[[-> ->]|H]]]]];
    try (right; repeat split; [cbn; lia|cbn; tauto]).
  destruct H as (E1 & E2 & E3 & E4 & E5 & ->). left. unfold literalChar.
  now rewrite E1, E2, E3, E4, E5.
Qed.

Lemma escape_fixed (s : str) : flat_map escapeChar s = s -> forallb literalChar s = true.
Proof.
  induction s as [|c s IH]; [reflexivity|]. cbn [flat_map forallb]. intros H.
  destruct (literal_cases c) as [[Hl E]|(_ & Hlen & _)].
  - rewrite E in H. injection H as H. now rewrite Hl, IH.
  - apply (f_equal (@length ascii)) in H. rewrite length_app in H. cbn [length] in H.
    pose proof (escape_length s). lia.
Qed.

Lemma escape_literal_inv (s : str) :
  forallb literalChar (flat_map escapeChar s) = true -> forallb literalChar s = true.
Proof.
  induction s as [|c s IH]; [reflexivity|]. cbn [flat_map forallb].
  rewrite forallb_app. intros H. apply andb_true_iff in H as [H1 H2].
  rewrite (IH H2), andb_true_r.
  destruct (literal_cases c) as [[Hl _]|(_ & _ & Hin)]; [exact Hl|].
  now apply (proj1 (forallb_forall _ _) H1) in Hin.
Qed.

(** ** The script-like classes *)

Lemma scriptLike_includes (c : str) : scriptLike c = includes c "Script".
Proof.
  unfold scriptLike. destruct (includes c "Script") eqn:E; [reflexivity|]. cbn [orb].
  destruct (c =? "ModuleScript") eqn:Em; [|reflexivity].
  apply str_eqb_eq in Em. subst c. vm_compute in E. discriminate.
Qed.

(** ** The names of a decoded tree *)

Lemma extractChildren_named (uuid : UuidSource) (kids : list Node) :
  Forall (namesNodes uuid) kids ->
  forall k, Forall (everyNode namedNode) (fst (extractChildren uuid kids k)).
Proof.
  induction 1 as [|n kids Hn _ IH]; intros k; [constructor|].
  cbn [extractChildren]. fold (extractChildren uuid).
  destruct n as [t a ks|d|d]; try apply IH.
  destruct (t =? "Item"); [|apply IH].
  specialize (Hn k). cbv beta iota in Hn.
  destruct (extractItem uuid (Element t a ks) k) as [child k1].
  specialize (IH k1). destruct (extractChildren uuid kids k1) as [others k2].
  now constructor.
Qed.

Lemma extractItem_named (uuid : UuidSource) (n : Node) : namesNodes uuid n.
Proof.
  induction n as [tag attrs kids IH|d|d] using Node_induction; intros k; [|exact I..].
  pose proof (name_fallback uuid tag attrs kids k) as Hn.
  pose proof (className_fallback uuid tag attrs kids k) as Hc.
  revert Hn Hc. rewrite extractItem_eq. cbv zeta.
  pose proof (extractChildren_named IH k) as Hch.
  destruct (extractChildren uuid kids k) as [ds k']. cbn [fst] in *.
  intros Hn Hc. apply everyNode_eq. cbn [children]. split; [|exact Hch].
  split.
  - rewrite Hn. now destruct (option_map _ _) as [[|c cs]|].
  - rewrite Hc. now destruct (getAttribute _ _) as [[|c cs]|].
Qed.

(** ** The properties *)

(** X1. Decoding what the encoder wrote for a carried tree (its names,
    class names and emitted sources are such that the parser leaves them as
    they are, and XML can hold its written properties) succeeds, and the
    decoded tree is the tree itself with, at every node, a fresh identifier
    (drawn children first), ["Unnamed"] for an empty name, ["Folder"] for an
    empty class name, the first source emitted in the subtree of the node as
    its source, and no properties. *)
Theorem decode_encode_normal_form (uuid : UuidSource) (random : RandomSource)
    (asset : RobloxAsset) :
  carried asset = true ->
  parseRbxmx uuid (buildRbxmx random asset) = Ok (fst (decodedTree uuid asset 0)).
Proof. apply decode_encode_carried. Qed.

Lemma decode_encode_normal_form_witness :
  carried looseTree = true
  /\ parseRbxmx sampleUuid (buildRbxmx sampleRandom looseTree)
     = Ok (mkAsset "uuid-1" "Unnamed" "Model" (Some "print(1)")
             [mkAsset "uuid-0" "Main" "Script" (Some "print(1)") [] None] None).
Proof.
  split; [reflexivity|].
  apply (decode_encode_normal_form sampleUuid sampleRandom looseTree). reflexivity.
Defined.

(** X2. The referents drawn from [Math.random] leave no trace in the decoded
    tree: two encodings of a tree with different draws decode alike. *)
Theorem decode_ignores_referents (uuid : UuidSource) (random random' : RandomSource)
    (asset : RobloxAsset) :
  representable asset = true ->
  parseRbxmx uuid (buildRbxmx random asset) = parseRbxmx uuid (buildRbxmx random' asset).
Proof.
  intros Hr. now rewrite (decode_encode_exact uuid random _ Hr),
                         (decode_encode_exact uuid random' _ Hr).
Qed.

Lemma decode_ignores_referents_witness :
  representable sampleTree = true
  /\ parseRbxmx sampleUuid (buildRbxmx sampleRandom sampleTree)
     = parseRbxmx sampleUuid (buildRbxmx collidingRandom sampleTree).
Proof.
  split; [reflexivity|].
  apply (decode_ignores_referents sampleUuid sampleRandom collidingRandom sampleTree).
  reflexivity.
Defined.

(** X3. A second round trip changes nothing: encoding a tree that was decoded
    from an encoding, and decoding it again with the same identifiers, gives
    that tree back. *)
Theorem second_round_trip_stable (uuid : UuidSource) (random random' : RandomSource)
    (asset decoded : RobloxAsset) :
  representable asset = true ->
  parseRbxmx uuid (buildRbxmx random asset) = Ok decoded ->
  parseRbxmx uuid (buildRbxmx random' decoded) = Ok decoded.
Proof.
  intros Hr H.
  now rewrite (@parseRbxmx_settled uuid uuid random random' random asset decoded Hr H).
Qed.

Lemma second_round_trip_stable_witness :
  representable sampleTree = true
  /\ parseRbxmx sampleUuid (buildRbxmx sampleRandom sampleTree)
     = Ok (fst (decodedTree sampleUuid sampleTree 0))
  /\ parseRbxmx sampleUuid
       (buildRbxmx collidingRandom (fst (decodedTree sampleUuid sampleTree 0)))
     = Ok (fst (decodedTree sampleUuid sampleTree 0)).
Proof.
  split; [reflexivity|]. split; [vm_compute; reflexivity|].
  apply (second_round_trip_stable sampleUuid sampleRandom collidingRandom sampleTree);
    vm_compute; reflexivity.
Defined.

(** X4. Every node of a decoded tree gets its identifier from
    [crypto.randomUUID], one call per node and the children before their
    parent: the identifiers, read children first, are the first draws in
    order, whatever the document holds. *)
Theorem decoded_identifiers (uuid : UuidSource) (xmlText : str) (tree : RobloxAsset) :
  parseRbxmx uuid xmlText = Ok tree ->
  identifiers tree = map uuid (seq 0 (size tree)).
Proof.
  unfold parseRbxmx, parseRbxmxWith, documentQuerySelector.
  destruct (queryNode _ _ _) as [rootItem|] eqn:E; [|discriminate].
  intros H. injection H as <-.
  destruct (queryNode_element _ _ _ E) as (tag & attrs & kids & ->).
  now destruct (@extractItem_ids uuid (Element tag attrs kids) tag attrs kids 0 eq_refl).
Qed.

Lemma decoded_identifiers_witness :
  parseRbxmx sampleUuid namelessParentDocument
  = Ok (mkAsset "uuid-1" "Kid" "Model" None [mkAsset "uuid-0" "Kid" "Part" None [] None] None)
  /\ identifiers
       (mkAsset "uuid-1" "Kid" "Model" None [mkAsset "uuid-0" "Kid" "Part" None [] None] None)
     = ["uuid-0"; "uuid-1"].
Proof.
  split; [vm_compute; reflexivity|].
  apply (decoded_identifiers sampleUuid namelessParentDocument). vm_compute. reflexivity.
Defined.

(** X5. Of a document whose root holds several [Item]s only the first is
    decoded: what follows it is dropped without an error. *)
Theorem only_first_item_decoded (uuid : UuidSource) (xmlText tag : str)
    (attrs : list (str * str)) (before after : list Node) (itemAttrs : list (str * str))
    (itemKids : list Node) :
  xmlParse xmlText
  = Some (Element tag attrs (before ++ Element "Item" itemAttrs itemKids :: after)) ->
  (localName tag =? "Item") = false ->
  forallb hasNoItem before = true ->
  parseRbxmx uuid xmlText = Ok (fst (extractItem uuid (Element "Item" itemAttrs itemKids) 0)).
Proof.
  intros Hp Ht Hb. unfold parseRbxmx, parseRbxmxWith, parseFromString, documentQuerySelector.
  rewrite Hp. cbv zeta. rewrite queryNode_eq. cbn [matchesSelector]. rewrite Ht.
  rewrite queryNodes_app, (queryNodes_hasNoItem _ _ Hb). cbn [queryNodes].
  rewrite queryNode_eq. reflexivity.
Qed.

Lemma only_first_item_decoded_witness :
  parseRbxmx sampleUuid twoItemsDocument
  = Ok (fst (extractItem sampleUuid (Element "Item" [("class", "A")] []) 0))
  /\ fst (extractItem sampleUuid (Element "Item" [("class", "A")] []) 0)
     = mkAsset "uuid-0" "Unnamed" "A" None [] None.
Proof.
  split; [|vm_compute; reflexivity].
  apply (@only_first_item_decoded sampleUuid twoItemsDocument "roblox" [] []
           [Element "Item" [("class", "B")] []] [("class", "A")] []); reflexivity.
Defined.

(** X6. No node of a decoded tree has an empty name or an empty class name,
    whatever the document holds. *)
Theorem decoded_names_never_empty (uuid : UuidSource) (xmlText : str) (tree : RobloxAsset) :
  parseRbxmx uuid xmlText = Ok tree ->
  everyNode (fun node => name node <> "" /\ className node <> "") tree.
Proof.
  unfold parseRbxmx, parseRbxmxWith, documentQuerySelector.
  destruct (queryNode _ _ _) as [rootItem|] eqn:E; [|discriminate].
  intros H. injection H as <-.
  destruct (queryNode_element _ _ _ E) as (tag & attrs & kids & ->).
  apply (@extractItem_named uuid (Element tag attrs kids) 0).
Qed.

Lemma decoded_names_never_empty_witness :
  everyNode (fun node => name node <> "" /\ className node <> "")
    (mkAsset "uuid-0" "Unnamed" "A" None [] None).
Proof.
  apply (decoded_names_never_empty sampleUuid twoItemsDocument). vm_compute. reflexivity.
Defined.

(** X7. The encoder draws one referent per node, parents before children:
    the referents of the [Item]s of the document, in document order, are the
    successive draws of [Math.random]. *)
Theorem referents_follow_draws (random : RandomSource) (asset : RobloxAsset) :
  representable asset = true ->
  referentsOf (parseFromString (buildRbxmx random asset))
  = map (referentOf random) (seq 0 (size asset)).
Proof. apply referents_document. Qed.

Lemma referents_follow_draws_witness :
  representable sampleTree = true
  /\ referentsOf (parseFromString (buildRbxmx sampleRandom sampleTree))
     = ["RBX3"; "RBX10"; "RBX17"; "RBX24"].
Proof.
  split; [reflexivity|].
  apply (referents_follow_draws sampleRandom sampleTree). reflexivity.
Defined.

(** X8. What [escapeXml] returns holds no ['<'], ['>'], double quote or
    apostrophe: it cannot end the element or the attribute it is written
    into. *)
Theorem escapeXml_markup_free (unsafe : option str) :
  forallb markupFree (escapeXml unsafe) = true.
Proof.
  destruct unsafe as [s|]; [|reflexivity]. rewrite escapeXml_flat.
  induction s as [|c s IH]; [reflexivity|]. cbn [flat_map].
  now rewrite forallb_app, escapeChar_markupFree, IH.
Qed.

(** X9. [escapeXml] loses nothing: two strings with the same escaped text
    are the same string. *)
Theorem escapeXml_injective (s t : str) :
  escapeXml (Some s) = escapeXml (Some t) -> s = t.
Proof.
  intros H. apply (f_equal expandReferences) in H.
  rewrite !expand_escapeXml in H. now injection H.
Qed.

Lemma escapeXml_injective_witness :
  escapeXml (Some "a<b") = escapeXml (Some "a<b") /\ "a<b" = "a<b".
Proof.
  split; [reflexivity|]. apply (escapeXml_injective "a<b" "a<b"). reflexivity.
Defined.

(** X10. [escapeXml] is not idempotent: escaping a second time gives the same
    text exactly when the string holds none of the five characters, and then
    the first escaping changed nothing either. *)
Theorem escapeXml_twice (s : str) :
  (escapeXml (Some (escapeXml (Some s))) =? escapeXml (Some s)) = forallb literalChar s
  /\ (escapeXml (Some s) =? s) = forallb literalChar s.
Proof.
  rewrite !escapeXml_flat. split.
  - destruct (forallb literalChar s) eqn:E.
    + apply str_eqb_eq. now rewrite (escape_literal _ E), (escape_literal _ E).
    + apply not_true_is_false. intros H. apply str_eqb_eq in H.
      apply escape_fixed, escape_literal_inv in H. congruence.
  - destruct (forallb literalChar s) eqn:E.
    + apply str_eqb_eq. now apply escape_literal.
    + apply not_true_is_false. intros H. apply str_eqb_eq in H.
      apply escape_fixed in H. congruence.
Qed.

(** X11. The second test of the class, [className === 'ModuleScript'], never
    decides: a class is script-like exactly when it includes ["Script"]. *)
Theorem scriptLike_one_test (className : str) :
  scriptLike className = includes className "Script".
Proof. apply scriptLike_includes. Qed.

(** ** The identifiers are not written *)

Lemma withoutIds_eq (item : RobloxAsset) :
  withoutIds item
  = mkAsset "" (name item) (className item) (source item) (map withoutIds (children item))
      (properties item).
Proof. destruct item; reflexivity. Qed.

Lemma generateChildren_withoutIds (random : RandomSource) (depth : nat)
    (items : list RobloxAsset) :
  Forall (fun item => forall depth calls,
            generateItem random (withoutIds item) depth calls
            = generateItem random item depth calls) items ->
  forall xml calls,
    generateChildren random depth (map withoutIds items) xml calls
    = generateChildren random depth items xml calls.
Proof.
  induction 1 as [|child rest Hc _ IH]; intros xml calls; [reflexivity|].
  cbn [map generateChildren]. rewrite Hc.
  destruct (generateItem random child (depth + 1) calls) as [text calls']. apply IH.
Qed.

Lemma generateItem_withoutIds (random : RandomSource) (item : RobloxAsset) :
  forall depth calls,
    generateItem random (withoutIds item) depth calls = generateItem random item depth calls.
Proof.
  induction item as [i n c s ch p IH] using RobloxAsset_induction. intros depth calls.
  rewrite withoutIds_eq, !generateItem_eq. cbn [name className source children properties].
  cbv zeta. unfold emitsSource, sourceText, entriesOf.
  cbn [name className source children properties].
  now rewrite (@generateChildren_withoutIds random depth ch IH).
Qed.

(** X12. The encoder never writes the identifier of a node: the text of a
    tree is the text of the tree with every identifier blanked. *)
Theorem buildRbxmx_ignores_ids (random : RandomSource) (asset : RobloxAsset) :
  buildRbxmx random (withoutIds asset) = buildRbxmx random asset.
Proof. unfold buildRbxmx. now rewrite generateItem_withoutIds. Qed.

(** * Properties of the application *)

(** ** The explorer *)

Lemma renderExplorerNode_icon (node : RobloxAsset) (depth : nat) :
  rowIcon (renderExplorerNode node depth) = iconOf (className node).
Proof. destruct node; reflexivity. Qed.

(** X13. The explorer shows the scroll icon on exactly the nodes whose class
    the encoder takes for a script: the test of [renderExplorerNode] and the
    one of [generateItem] agree on every class name. *)
Theorem icon_marks_script_classes (node : RobloxAsset) (depth : nat) :
  (rowIcon (renderExplorerNode node depth) =? "fa-scroll text-blue-400")
  = scriptLike (className node).
Proof.
  rewrite renderExplorerNode_icon, scriptLike_includes. unfold iconOf.
  destruct (includes _ "Script"); [reflexivity|].
  destruct (_ =? "Folder"); [reflexivity|]. now destruct (_ || _).
Qed.

(** ** Upload and download *)

Lemma appendChildren_nil (root : RobloxAsset) : appendChildren root [] = root.
Proof. destruct root. unfold appendChildren. cbn. now rewrite app_nil_r. Qed.

(** X14. Export, then import: the file [downloadAsset] offers for a tree the
    XML text can carry is accepted by [handleFileUpload] under any name; the
    explorer root gets the decoded tree as its last child, the chat one
    message of the assistant that names the file, and nothing else changes. *)
Theorem export_then_import (uuid : UuidSource) (clock : Clock) (random : RandomSource)
    (asset : RobloxAsset) (uploadName : str) (st : AppState) :
  representable asset = true ->
  exists xml,
    downloadAsset random asset = [Download (name asset ++ ".rbxmx") "text/xml" xml]
    /\ handleFileUpload uuid clock (Some (mkFile uploadName xml)) st
       = ({| messages :=
               messages st
                 ++ [ChatMessage.make (decimalN (clock 0)) assistant
                       (uploadNotice (mkFile uploadName xml)) None (clock 1)];
             input := input st;
             isLoading := isLoading st;
             explorerRoot :=
               appendChildren (explorerRoot st) [fst (decodedTree uuid asset 0)];
             projectName := projectName st |}, []).
Proof.
  intros Hr. exists (buildRbxmx random asset). split; [reflexivity|].
  unfold handleFileUpload, handleFileUploadWith. cbn [fileText].
  fold (parseRbxmx uuid (buildRbxmx random asset)).
  now rewrite (decode_encode_exact uuid random _ Hr).
Qed.

Lemma export_then_import_witness :
  representable sampleTree = true
  /\ explorerRoot
       (fst (handleFileUpload sampleUuid (fun _ => 5%N)
               (Some (mkFile "Game.rbxmx" (buildRbxmx sampleRandom sampleTree)))
               initialState))
     = mkAsset "root" "Workspace" "DataModel" None
         [fst (decodedTree sampleUuid sampleTree 0)] None.
Proof.
  split; [reflexivity|].
  destruct (@export_then_import sampleUuid (fun _ => 5%N) sampleRandom sampleTree
              "Game.rbxmx" initialState eq_refl) as (xml & Hd & Hu).
  injection Hd as <-. now rewrite Hu.
Defined.

(** X15. Whatever [DOMParser] the browser has, as long as it follows the
    HTML Standard: a file whose text is not well-formed XML, or whose
    document holds no [Item], changes nothing; the state stays as it was and
    the user gets one alert. *)
Theorem upload_rejected (wellFormedXml : str -> Prop) (domParser : str -> Node)
    (uuid : UuidSource) (clock : Clock) (file : File) (st : AppState) :
  followsStandard wellFormedXml domParser ->
  ~ wellFormedXml (fileText file) \/ hasNoItem (domParser (fileText file)) = true ->
  handleFileUploadWith domParser uuid clock (Some file) st = (st, [Alert uploadAlert]).
Proof.
  intros Hstd H. unfold handleFileUploadWith.
  now rewrite (@parseRbxmxWith_throws wellFormedXml domParser uuid _ Hstd H).
Qed.

Lemma upload_rejected_witness :
  handleFileUpload sampleUuid (fun _ => 5%N) (Some (mkFile "notes.txt" "not xml")) initialState
  = (initialState, [Alert uploadAlert])
  /\ handleFileUpload sampleUuid (fun _ => 5%N) (Some (mkFile "foo.xml" "<foo></foo>"))
       initialState
     = (initialState, [Alert uploadAlert]).
Proof.
  split.
  - apply (@upload_rejected wellFormed parseFromString sampleUuid (fun _ => 5%N)
             (mkFile "notes.txt" "not xml") initialState parseFromString_standard).
    left. intros [root H]. vm_compute in H. discriminate.
  - apply (@upload_rejected wellFormed parseFromString sampleUuid (fun _ => 5%N)
             (mkFile "foo.xml" "<foo></foo>") initialState parseFromString_standard).
    right. reflexivity.
Defined.

(** ** Sending a message *)

Lemma trimStart_nil (s : str) : trimStart s = [] <-> forallb isWhiteSpace s = true.
Proof.
  induction s as [|c s IH]; [now split|]. cbn [trimStart forallb].
  destruct (isWhiteSpace c); [exact IH|]. now split.
Qed.

Lemma trimStart_settled (s : str) :
  forallb isWhiteSpace (trimStart s) = true -> trimStart s = [].
Proof.
  induction s as [|c s IH]; [reflexivity|]. cbn [trimStart].
  destruct (isWhiteSpace c) eqn:E; [exact IH|]. cbn [forallb]. now rewrite E.
Qed.

Lemma forallb_rev (p : ascii -> bool) (s : str) : forallb p (rev s) = forallb p s.
Proof.
  induction s as [|c s IH]; [reflexivity|]. cbn [rev forallb].
  rewrite forallb_app, IH. cbn [forallb]. rewrite andb_true_r. apply andb_comm.
Qed.

Lemma trim_nil (s : str) : trim s = [] <-> forallb isWhiteSpace s = true.
Proof.
  unfold trim. split.
  - intros H. apply (f_equal (@rev ascii)) in H. rewrite rev_involutive in H. cbn [rev] in H.
    apply trimStart_nil in H. rewrite forallb_rev in H.
    now apply trimStart_nil, trimStart_settled.
  - intros H. apply trimStart_nil in H. now rewrite H.
Qed.

(** X16. A message is sent exactly when the input holds a character that is
    not white space and no request is pending. *)
Theorem send_guard (clock : Clock) (st : AppState) :
  match handleSendMessage_start clock st with
  | Some _ => true
  | None => false
  end
  = negb (forallb isWhiteSpace (input st)) && negb (isLoading st).
Proof.
  unfold handleSendMessage_start.
  destruct (trim (input st)) as [|c r] eqn:E.
  - apply trim_nil in E. now rewrite E.
  - destruct (forallb isWhiteSpace (input st)) eqn:F.
    + apply trim_nil in F. congruence.
    + now destruct (isLoading st).
Qed.

(** X22. The send button is disabled in exactly the states in which
    [handleSendMessage] returns at once, so the Enter key, which is not
    disabled with it, sends nothing the button would not send. *)
Theorem send_button_agrees (clock : Clock) (st : AppState) :
  sendDisabled st
  = match handleSendMessage_start clock st with
    | Some _ => false
    | None => true
    end.
Proof.
  unfold sendDisabled, handleSendMessage_start.
  destruct (trim (input st)) as [|c r]; destruct (isLoading st); reflexivity.
Qed.

(** ** The fenced block of a reply *)

Lemma startsWith_app (p a x : str) :
  startsWith p a = true -> startsWith p (a ++ x) = true.
Proof.
  revert a. induction p as [|c p IH]; intros [|d a]; cbn [startsWith app];
    try reflexivity; try discriminate.
  intros H. apply andb_true_iff in H as [H1 H2]. now rewrite H1, (IH _ H2).
Qed.

Lemma startsWith_self (p x : str) : startsWith p (p ++ x) = true.
Proof.
  induction p as [|c p IH]; [reflexivity|]. cbn [startsWith app].
  now rewrite Ascii.eqb_refl, IH.
Qed.

Lemma startsWith_split (p s : str) :
  startsWith p s = true -> s = p ++ skipn (length p) s.
Proof.
  revert s. induction p as [|c p IH]; intros [|d s]; cbn [startsWith app length skipn];
    try reflexivity; try discriminate.
  intros H. apply andb_true_iff in H as [H1 H2]. apply Ascii.eqb_eq in H1. subst d.
  f_equal. now apply IH.
Qed.

Lemma skipn_prefix (p x : str) : skipn (length p) (p ++ x) = x.
Proof. induction p as [|c p IH]; [reflexivity|exact IH]. Qed.

Lemma afterFirst_sound (pat s rest : str) :
  pat <> [] -> afterFirst pat s = Some rest ->
  exists pre, s = pre ++ pat ++ rest /\ includes pre pat = false.
Proof.
  intros Hp. revert rest. induction s as [|c s IH]; intros rest.
  - destruct pat; [congruence|discriminate].
  - cbn [afterFirst]. destruct (startsWith pat (c :: s)) eqn:E.
    + intros H. injection H as <-. exists []. split; [now apply startsWith_split|].
      now destruct pat.
    + intros H. destruct (IH _ H) as (pre & -> & Hn). exists (c :: pre). split; [reflexivity|].
      rewrite includes_head, Hn, orb_false_r.
      destruct (startsWith pat (c :: pre)) eqn:F; [|reflexivity].
      apply (startsWith_app _ _ (pat ++ rest)) in F. cbn [app] in *. congruence.
Qed.

Lemma beforeFirst_sound (pat s body : str) :
  pat <> [] -> beforeFirst pat s = Some body ->
  exists post, s = body ++ pat ++ post /\ includes body pat = false.
Proof.
  intros Hp. revert body. induction s as [|c s IH]; intros body.
  - destruct pat; [congruence|discriminate].
  - cbn [beforeFirst]. destruct (startsWith pat (c :: s)) eqn:E.
    + intros H. injection H as <-. exists (skipn (length pat) (c :: s)).
      split; [now apply startsWith_split|]. now destruct pat.
    + destruct (beforeFirst pat s) as [b|] eqn:Eb; [|discriminate].
      intros H. injection H as <-. destruct (IH _ eq_refl) as (post & -> & Hn).
      exists post. split; [reflexivity|].
      rewrite includes_head, Hn, orb_false_r.
      destruct (startsWith pat (c :: b)) eqn:F; [|reflexivity].
      apply (startsWith_app _ _ (pat ++ post)) in F. cbn [app] in *. congruence.
Qed.

Lemma afterFirst_eq (pat s : str) :
  afterFirst pat s
  = if startsWith pat s then Some (skipn (length pat) s)
    else match s with
         | [] => None
         | _ :: r => afterFirst pat r
         end.
Proof. now destruct s. Qed.

Lemma beforeFirst_eq (pat s : str) :
  beforeFirst pat s
  = if startsWith pat s then Some []
    else match s with
         | [] => None
         | c :: r => option_map (cons c) (beforeFirst pat r)
         end.
Proof. now destruct s. Qed.

Lemma afterFirst_complete (pat pre rest : str) :
  noOverlap pat -> includes pre pat = false ->
  afterFirst pat (pre ++ pat ++ rest) = Some rest.
Proof.
  intros Ho. induction pre as [|c pre IH].
  - intros _. cbn [app]. now rewrite afterFirst_eq, startsWith_self, skipn_prefix.
  - rewrite includes_head. intros H. apply orb_false_iff in H as [H1 H2].
    cbn [app afterFirst].
    change (c :: pre ++ pat ++ rest) with ((c :: pre) ++ pat ++ rest).
    rewrite (Ho (c :: pre) rest); [now apply IH|discriminate|exact H1].
Qed.

Lemma beforeFirst_complete (pat body post : str) :
  noOverlap pat -> includes body pat = false ->
  beforeFirst pat (body ++ pat ++ post) = Some body.
Proof.
  intros Ho. induction body as [|c body IH].
  - intros _. cbn [app]. now rewrite beforeFirst_eq, startsWith_self.
  - rewrite includes_head. intros H. apply orb_false_iff in H as [H1 H2].
    cbn [app beforeFirst].
    change (c :: body ++ pat ++ post) with ((c :: body) ++ pat ++ post).
    rewrite (Ho (c :: body) post); [|discriminate|exact H1].
    now rewrite (IH H2).
Qed.

Lemma fenceOpen_noOverlap : noOverlap fenceOpen.
Proof.
  intros a x Hne H. unfold fenceOpen, nl in *.
  destruct a as [|c1 [|c2 [|c3 [|c4 [|c5 [|c6 [|c7 [|c8 a]]]]]]]]; [congruence|..].
  1-7: cbn [app startsWith]; chars; cbn [andb]; rewrite ?andb_false_r; reflexivity.
  cbn [app startsWith] in *. exact H.
Qed.

Lemma fenceClose_noOverlap : noOverlap fenceClose.
Proof.
  intros a x Hne H. unfold fenceClose, nl in *.
  destruct a as [|c1 [|c2 [|c3 [|c4 a]]]]; [congruence|..].
  1-3: cbn [app startsWith]; chars; cbn [andb]; rewrite ?andb_false_r; reflexivity.
  cbn [app startsWith] in *. exact H.
Qed.

Lemma jsonMatch_fenced (pre body post : str) :
  includes pre fenceOpen = false ->
  includes body fenceClose = false ->
  jsonMatch (pre ++ fenceOpen ++ body ++ fenceClose ++ post) = Some body.
Proof.
  intros H1 H2. unfold jsonMatch.
  rewrite (@afterFirst_complete fenceOpen pre _ fenceOpen_noOverlap H1).
  apply beforeFirst_complete; [apply fenceClose_noOverlap|exact H2].
Qed.

Lemma afterFirst_none (pat s : str) : includes s pat = false -> afterFirst pat s = None.
Proof.
  induction s as [|c s IH].
  - intros H. rewrite afterFirst_eq. cbn [includes] in H. rewrite orb_false_r in H.
    now rewrite H.
  - rewrite includes_head. intros H. apply orb_false_iff in H as [H1 H2].
    cbn [afterFirst]. now rewrite H1, IH.
Qed.

(** X17. The block the reply handler reads: when the text before the first
    opening fence holds no opening fence and the body no closing fence, the
    match is that body, whatever follows. *)
Theorem jsonMatch_complete (pre body post : str) :
  includes pre fenceOpen = false ->
  includes body fenceClose = false ->
  jsonMatch (pre ++ fenceOpen ++ body ++ fenceClose ++ post) = Some body.
Proof. apply jsonMatch_fenced. Qed.

Lemma jsonMatch_complete_witness :
  jsonMatch ("Here:" ++ fenceOpen ++ "[1]" ++ fenceClose ++ " and " ++ fenceOpen ++ "[2]"
               ++ fenceClose)
  = Some "[1]".
Proof.
  apply (jsonMatch_complete "Here:" "[1]" (" and " ++ fenceOpen ++ "[2]" ++ fenceClose));
    reflexivity.
Defined.

(** X18. Whatever the match gives stood in the reply between the leftmost
    opening fence and the first closing fence after it. *)
Theorem jsonMatch_sound (aiText body : str) :
  jsonMatch aiText = Some body ->
  exists pre post,
    aiText = pre ++ fenceOpen ++ body ++ fenceClose ++ post
    /\ includes pre fenceOpen = false
    /\ includes body fenceClose = false.
Proof.
  unfold jsonMatch. destruct (afterFirst fenceOpen aiText) as [rest|] eqn:E; [|discriminate].
  intros H.
  destruct (@afterFirst_sound fenceOpen aiText rest ltac:(discriminate) E) as (pre & -> & H1).
  destruct (@beforeFirst_sound fenceClose rest body ltac:(discriminate) H) as (post & -> & H2).
  now exists pre, post.
Qed.

Lemma jsonMatch_sound_witness :
  exists pre post,
    "x" ++ fenceOpen ++ "{}" ++ fenceClose
    = pre ++ fenceOpen ++ "{}" ++ fenceClose ++ post
    /\ includes pre fenceOpen = false
    /\ includes "{}" fenceClose = false.
Proof.
  apply (@jsonMatch_sound ("x" ++ fenceOpen ++ "{}" ++ fenceClose) "{}"). reflexivity.
Defined.

(** ** The reply *)

(** X19. However the request ends (a failure, a reply without text, without
    a block, with a block [JSON.parse] rejects, or with assets), loading
    ends, the chat grows by exactly one message of the assistant, which is
    not empty, and the explorer root keeps what it had, with the assets of
    the message added after its children. *)
Theorem reply_handled (JSON_parse : str -> Result Parsed) (clock : Clock)
    (response : Result (option str)) (st : AppState) :
  exists message added,
    fst (handleSendMessage_finish JSON_parse clock response st)
    = {| messages := messages st ++ [message];
         input := input st;
         isLoading := false;
         explorerRoot := appendChildren (explorerRoot st) added;
         projectName := projectName st |}
    /\ ChatMessage.role message = assistant
    /\ ChatMessage.content message <> ""
    /\ (ChatMessage.assetsGenerated message = Some added
        \/ ChatMessage.assetsGenerated message = None /\ added = []).
Proof.
  unfold handleSendMessage_finish. destruct response as [text|e].
  - set (aiText := match text with Some (c :: s) => c :: s | _ => replyFallback end).
    assert (Hne : aiText <> "") by (subst aiText; now destruct text as [[|c s]|]).
    destruct (jsonMatch aiText) as [json|].
    + destruct (JSON_parse json) as [parsed|e].
      * eexists _, _. cbn [fst]. split; [reflexivity|]. cbn. repeat split; auto.
      * eexists _, []. rewrite appendChildren_nil. cbn. repeat split; auto.
    + eexists _, []. rewrite appendChildren_nil. cbn. repeat split; auto.
  - eexists _, []. rewrite appendChildren_nil. cbn. repeat split; auto.
    discriminate.
Qed.

(** X20. The assets of the first fenced block of a reply are added after the
    children of the explorer root, in their order, a single object as one
    asset; the message of the assistant lists them. *)
Theorem fenced_assets_appended (JSON_parse : str -> Result Parsed) (clock : Clock)
    (pre body post : str) (parsed : Parsed) (st : AppState) :
  includes pre fenceOpen = false ->
  includes body fenceClose = false ->
  JSON_parse body = Ok parsed ->
  handleSendMessage_finish JSON_parse clock
    (Ok (Some (pre ++ fenceOpen ++ body ++ fenceClose ++ post))) st
  = let detected :=
      match parsed with
      | ParsedArray items => items
      | ParsedOther value => [value]
      end in
    ({| messages :=
          messages st
            ++ [ChatMessage.make (decimalN (clock 0 + 1)) assistant
                  (pre ++ fenceOpen ++ body ++ fenceClose ++ post) (Some detected) (clock 1)];
        input := input st;
        isLoading := false;
        explorerRoot := appendChildren (explorerRoot st) detected;
        projectName := projectName st |}, []).
Proof.
  intros H1 H2 Hp. unfold handleSendMessage_finish.
  assert (E : match pre ++ fenceOpen ++ body ++ fenceClose ++ post with
              | [] => replyFallback
              | c :: s => c :: s
              end = pre ++ fenceOpen ++ body ++ fenceClose ++ post)
    by now destruct pre.
  rewrite E, (jsonMatch_fenced _ _ _ H1 H2), Hp. reflexivity.
Qed.

Lemma fenced_assets_appended_witness :
  explorerRoot
    (fst (handleSendMessage_finish (fun _ => Ok (ParsedOther (leaf "Main" "Script" None)))
            (fun _ => 5%N) (Ok (Some ("Here:" ++ fenceOpen ++ "{}" ++ fenceClose ++ "!")))
            initialState))
  = mkAsset "root" "Workspace" "DataModel" None [leaf "Main" "Script" None] None.
Proof.
  rewrite (@fenced_assets_appended (fun _ => Ok (ParsedOther (leaf "Main" "Script" None)))
             (fun _ => 5%N) "Here:" "{}" "!" (ParsedOther (leaf "Main" "Script" None))
             initialState eq_refl eq_refl eq_refl).
  reflexivity.
Defined.

(** X21. A reply that holds no opening fence adds nothing to the explorer,
    and [JSON.parse] is not consulted: the reply, or the fallback text for an
    empty one, becomes the message of the assistant, with no asset. *)
Theorem reply_without_block (JSON_parse : str -> Result Parsed) (clock : Clock)
    (text : str) (st : AppState) :
  includes text fenceOpen = false ->
  handleSendMessage_finish JSON_parse clock (Ok (Some text)) st
  = ({| messages :=
          messages st
            ++ [ChatMessage.make (decimalN (clock 0 + 1)) assistant
                  (match text with [] => replyFallback | _ :: _ => text end) (Some [])
                  (clock 1)];
        input := input st;
        isLoading := false;
        explorerRoot := explorerRoot st;
        projectName := projectName st |}, []).
Proof.
  intros H. unfold handleSendMessage_finish, jsonMatch.
  destruct text as [|c s]; [reflexivity|]. now rewrite (afterFirst_none _ _ H).
Qed.

Lemma reply_without_block_witness :
  explorerRoot
    (fst (handleSendMessage_finish (fun _ => Ok (ParsedArray [leaf "Main" "Script" None]))
            (fun _ => 5%N) (Ok (Some "Use a RemoteEvent.")) initialState))
  = explorerRoot initialState.
Proof.
  exact (f_equal (fun r => explorerRoot (fst r))
           (@reply_without_block (fun _ => Ok (ParsedArray [leaf "Main" "Script" None]))
              (fun _ => 5%N) "Use a RemoteEvent." initialState eq_refl)).
Defined.
